(** * Ticket booking: the seat and booking state machine

    A shallow embedding of the server's repository layer
    ([internal/db/database.go], [internal/repository/event_repository.go],
    [internal/repository/booking_repository.go]) and of the status mapping
    of [handlers.BookingHandler.BookTickets], followed by the properties
    of the specification that were checked against it.

    Conventions.
    - Go [int] is [Z]; the values a 64-bit [int] can hold are
      [MinInt .. MaxInt].  [float64] is the kernel's binary64 [float].
    - Go [string] is [string] (a sequence of bytes); [len] is the byte
      length.
    - [time.Time], [time.Duration] and SQL timestamps are [Z], counted in
      nanoseconds; the microsecond rounding of [timestamptz] columns is not
      modelled.
    - A table is the list of its rows; [SELECT] filters, [UPDATE] maps,
      [ORDER BY] sorts, [LIMIT] takes a prefix.  Primary keys and the other
      uniqueness constraints of the schema are predicates on stores
      ([ticket_keys_ok], [booking_keys_ok]) rather than part of the
      representation.
    - The key columns are [INTEGER]s.  A parameter outside
      [MinInt32 .. MaxInt32] is refused by the store with the error of the
      driver; this is modelled where a property depends on it: in
      [GetEvent], [GetBooking], [GetAvailableTickets], and in the first
      statement and the [INSERT] of [bookTicketsWithLock].  In the other
      statements such an id matches no row: the state is left as the
      program leaves it, the error reported may differ.
    - A [NUMERIC(10,2)] column holds the [float64] it is given: the
      rounding and the overflow of the column type are not modelled.
    - The store executes every statement it is sent: loss of the
      connection, lock timeouts and the like are not modelled, except in
      [WithRetry], whose argument is an arbitrary effectful function. *)

From Stdlib Require Import ZArith Ascii Floats Uint63 Lia.
From Stdlib Require Import DecimalString DecimalPos DecimalZ.
From stdpp Require Import base list strings sorting.

Local Open Scope Z_scope.

(** ** Go runtime: integers, strings, errors *)

Definition MaxInt : Z := 2 ^ 63 - 1.
Definition MinInt : Z := - 2 ^ 63.

(** The values of Go's [int]. *)
Definition is_int (z : Z) : Prop := MinInt <= z <= MaxInt.

(** [fmt.Sprintf("%d", n)]. *)
Definition itoa (n : Z) : string := NilZero.string_of_int (Z.to_int n).

Definition is_digit (c : ascii) : bool :=
  (48 <=? Z.of_nat (nat_of_ascii c)) && (Z.of_nat (nat_of_ascii c) <=? 57).

Fixpoint all_digits (s : string) : bool :=
  match s with
  | EmptyString => true
  | String c rest => is_digit c && all_digits rest
  end.

(** [strconv.Atoi]: an optional sign followed by one or more decimal
    digits; [None] stands for the syntax error and for the range error
    (a value outside [int]). *)
Definition Atoi_digits (sign : Z) (d : string) : option Z :=
  match d with
  | "" => None
  | _ =>
      match NilEmpty.uint_of_string d with
      | Some u =>
          let v := sign * Z.of_uint u in
          if (MinInt <=? v) && (v <=? MaxInt) then Some v else None
      | None => None
      end
  end.

Definition Atoi (s : string) : option Z :=
  match s with
  | String "+" d => Atoi_digits 1 d
  | String "-" d => Atoi_digits (-1) d
  | _ => Atoi_digits 1 s
  end.

(** [s[i:i+n] == substr] for each [i] of the loop
    [for i := 0; i <= len(s)-len(substr); i++]. *)
Definition findSubstring (s substr : string) : bool :=
  let n := String.length s in
  let m := String.length substr in
  if (m <=? n)%nat then
    existsb (λ i, String.eqb (String.substring i m s) substr)
            (seq 0 (n - m + 1))
  else false.

Definition contains (s substr : string) : bool :=
  (String.length substr <=? String.length s)%nat
  && (String.eqb s substr
      || ((String.length substr <? String.length s)%nat
          && findSubstring s substr)).

(** Go errors: [errors.New]/[fmt.Errorf] without [%w] build a leaf,
    [fmt.Errorf("...: %w", err)] wraps its cause.  [Error] is the
    [Error()] method. *)
Inductive error : Type :=
  | ErrNew (msg : string)
  | ErrWrap (prefix : string) (cause : error).

Fixpoint Error (e : error) : string :=
  match e with
  | ErrNew msg => msg
  | ErrWrap prefix cause => prefix +:+ Error cause
  end.

(** [fmt.Errorf(prefix + "%w", err)] where [err] may be [nil]. *)
Definition Errorf_w (prefix : string) (err : option error) : error :=
  match err with
  | Some e => ErrWrap prefix e
  | None => ErrNew (prefix +:+ "%!w(<nil>)")
  end.

(** ** booking_repository.go: the ticket-id array codec *)

Definition joinInts (ints : list Z) (sep : string) : string :=
  match ints with
  | [] => ""
  | x :: rest => fold_left (λ result y, result +:+ sep +:+ itoa y) rest (itoa x)
  end.

(** The text form in which the store hands out an [INTEGER[]] column. *)
Definition pg_array_text (ids : list Z) : string :=
  "{" +:+ joinInts ids "," +:+ "}".

(** [if id, err := strconv.Atoi(currentNumber); err == nil { append }]. *)
Definition append_parsed (ticketIDs : list Z) (currentNumber : string) : list Z :=
  match Atoi currentNumber with
  | Some id => ticketIDs ++ [id]
  | None => ticketIDs
  end.

(** The body of [for _, char := range ticketIDsStr], on the loop state
    [(ticketIDs, currentNumber)].  The loop is run over bytes: a byte of a
    multi-byte rune is neither a digit nor a comma, as is the rune. *)
Fixpoint parse_loop (s : string) (ticketIDs : list Z) (currentNumber : string)
  : list Z * string :=
  match s with
  | EmptyString => (ticketIDs, currentNumber)
  | String char rest =>
      if is_digit char then
        parse_loop rest ticketIDs (currentNumber +:+ String char "")
      else if Ascii.eqb char ","%char then
        if String.eqb currentNumber "" then parse_loop rest ticketIDs ""
        else parse_loop rest (append_parsed ticketIDs currentNumber) ""
      else parse_loop rest ticketIDs currentNumber
  end.

Definition parseTicketIDs (ticketIDsStr : string) : list Z :=
  if (String.length ticketIDsStr <? 3)%nat then []
  else
    let inner := String.substring 1 (String.length ticketIDsStr - 2) ticketIDsStr in
    if (String.length inner =? 0)%nat then []
    else
      let '(ticketIDs, currentNumber) := parse_loop inner [] "" in
      if String.eqb currentNumber "" then ticketIDs
      else append_parsed ticketIDs currentNumber.

(** ** models.go *)

(** [models.TicketStatus]; ['locked'] is the status the second migration
    adds to the [tickets_status_check] constraint. *)
Inductive TicketStatus : Set :=
  | TicketAvailable
  | TicketLocked
  | TicketReserved
  | TicketSold.

Inductive BookingStatus : Set :=
  | BookingPending
  | BookingConfirmed
  | BookingCancelled
  | BookingExpired.

#[global] Instance TicketStatus_eq_dec : EqDecision TicketStatus.
Proof. solve_decision. Defined.

#[global] Instance BookingStatus_eq_dec : EqDecision BookingStatus.
Proof. solve_decision. Defined.

(** The column value, as [%s] prints it. *)
Definition status_text (st : TicketStatus) : string :=
  match st with
  | TicketAvailable => "available"
  | TicketLocked => "locked"
  | TicketReserved => "reserved"
  | TicketSold => "sold"
  end.

Module Event.
Record t : Type := mk {
  ID : Z;
  Name : string;
  StartTime : Z;
  TotalTickets : Z;
  AvailableTickets : Z;
  Price : float;
  UpdatedAt : Z
}.
Definition set_available (n now : Z) (e : t) : t :=
  mk (ID e) (Name e) (StartTime e) (TotalTickets e) n (Price e) now.
End Event.

Module Ticket.
Record t : Type := mk {
  ID : Z;
  EventID : Z;
  SeatNo : string;
  Status : TicketStatus;
  UpdatedAt : Z
}.
Definition set_status (st : TicketStatus) (now : Z) (x : t) : t :=
  mk (ID x) (EventID x) (SeatNo x) st now.
End Ticket.

Module Booking.
Record t : Type := mk {
  ID : Z;
  UserID : Z;
  EventID : Z;
  TicketIDs : list Z;
  Quantity : Z;
  TotalAmount : float;
  Status : BookingStatus;
  BookingRef : string;
  CreatedAt : Z;
  UpdatedAt : Z;
  ExpiresAt : Z
}.
Definition set_status (st : BookingStatus) (now : Z) (b : t) : t :=
  mk (ID b) (UserID b) (EventID b) (TicketIDs b) (Quantity b)
     (TotalAmount b) st (BookingRef b) (CreatedAt b) now (ExpiresAt b).
End Booking.

Module BookingRequest.
Record t : Type := mk {
  UserID : Z;
  EventID : Z;
  Quantity : Z
}.
End BookingRequest.

(** [float64(n)] for an [int] n. *)
Definition float64_of_int (n : Z) : float :=
  if n <? 0 then PrimFloat.opp (PrimFloat.of_uint63 (Uint63.of_Z (- n)))
  else PrimFloat.of_uint63 (Uint63.of_Z n).

(** ** config.go: the two durations the repositories read *)

Record AppConfig : Type := {
  SeatLockDuration : Z;
  BookingExpiration : Z
}.

Definition Minute : Z := 60 * 1000000000.
Definition Second : Z := 1000000000.

(** ** The store *)

(** The four tables and the sequence behind [bookings.id].  [users] keeps
    the primary keys only: the core reads nothing else of a user. *)
Record Store : Type := mkStore {
  users : list Z;
  events : list Event.t;
  tickets : list Ticket.t;
  bookings : list Booking.t;
  bookings_id_seq : Z
}.

Definition set_events (f : list Event.t → list Event.t) (s : Store) : Store :=
  mkStore (users s) (f (events s)) (tickets s) (bookings s) (bookings_id_seq s).
Definition set_tickets (f : list Ticket.t → list Ticket.t) (s : Store) : Store :=
  mkStore (users s) (events s) (f (tickets s)) (bookings s) (bookings_id_seq s).
Definition set_bookings (f : list Booking.t → list Booking.t) (s : Store) : Store :=
  mkStore (users s) (events s) (tickets s) (f (bookings s)) (bookings_id_seq s).
Definition set_seq (n : Z) (s : Store) : Store :=
  mkStore (users s) (events s) (tickets s) (bookings s) n.

(** [UPDATE t SET ... WHERE P]: the rows that satisfy [P] are rewritten by
    [f], the others stay; the statement reports [rows_affected]. *)
Definition update_where {R : Type} (P : R → Prop) `{!∀ r, Decision (P r)}
    (f : R → R) (rows : list R) : list R :=
  (λ r, if decide (P r) then f r else r) <$> rows.

Definition rows_affected {R : Type} (P : R → Prop) `{!∀ r, Decision (P r)}
    (rows : list R) : Z :=
  Z.of_nat (length (filter P rows)).

(** [QueryRow]: the first row of the result, if any. *)
Definition query_row {R : Type} (P : R → Prop) `{!∀ r, Decision (P r)}
    (rows : list R) : option R :=
  head (filter P rows).

(** [ORDER BY seat_no]: bytewise comparison of the seat identifiers. *)
Definition seat_le (a b : Ticket.t) : Prop :=
  String.le (Ticket.SeatNo a) (Ticket.SeatNo b).

#[global] Instance seat_le_dec : RelDecision seat_le.
Proof. intros a b. unfold seat_le. apply _. Defined.

(** [sql.ErrNoRows] and the errors of the driver; [dq] is the double quote
    of the store's messages. *)
Definition ErrNoRows : error := ErrNew "sql: no rows in result set".
Definition dq : string := String (ascii_of_nat 34) "".
Definition pq_check_violation (rel constraint : string) : error :=
  ErrNew ("pq: new row for relation " +:+ dq +:+ rel +:+ dq
          +:+ " violates check constraint " +:+ dq +:+ constraint +:+ dq).
Definition pq_unique_violation (constraint : string) : error :=
  ErrNew ("pq: duplicate key value violates unique constraint "
          +:+ dq +:+ constraint +:+ dq).
Definition pq_fk_violation (rel constraint : string) : error :=
  ErrNew ("pq: insert or update on table " +:+ dq +:+ rel +:+ dq
          +:+ " violates foreign key constraint " +:+ dq +:+ constraint +:+ dq).
Definition pq_negative_limit : error := ErrNew "pq: LIMIT must not be negative".

(** The store's [INTEGER]: the type of the key columns.  A parameter that
    is compared with such a column, or inserted into one, is sent as text
    and read as an [INTEGER]; the statement is refused before it runs
    when the text is out of range.  A value computed by the store for such
    a column (the [nextval] of a [SERIAL]) is refused when the row is
    formed. *)
Definition MaxInt32 : Z := 2 ^ 31 - 1.
Definition MinInt32 : Z := - 2 ^ 31.
Definition is_int4 (z : Z) : bool := (MinInt32 <=? z) && (z <=? MaxInt32).
Definition pq_int4_parameter (v : Z) : error :=
  ErrNew ("pq: value " +:+ dq +:+ itoa v +:+ dq
          +:+ " is out of range for type integer").
Definition pq_integer_out_of_range : error := ErrNew "pq: integer out of range".

(** ** database.go *)

(** The work done inside a transaction: it reads and writes the store and
    returns a value or an error. *)
Inductive result (A : Type) : Type :=
  | Ok (a : A)
  | Err (e : error).
Arguments Ok {A} a.
Arguments Err {A} e.

Definition Tx (A : Type) : Type := Store → result A * Store.

Definition tx_ret {A} (a : A) : Tx A := λ s, (Ok a, s).
Definition tx_fail {A} (e : error) : Tx A := λ s, (Err e, s).
Definition tx_bind {A B} (m : Tx A) (k : A → Tx B) : Tx B :=
  λ s, match m s with
       | (Ok a, s') => k a s'
       | (Err e, s') => (Err e, s')
       end.
Definition tx_get : Tx Store := λ s, (Ok s, s).
Definition tx_modify (f : Store → Store) : Tx unit := λ s, (Ok tt, f s).

Notation "'do' x <- m ; k" := (tx_bind m (λ x, k))
  (at level 10, x name, m at level 100, k at level 200,
   format "'[v' 'do'  x  <-  m ; '/' k ']'").

(** [if err != nil { return fmt.Errorf(prefix + "%w", err) }]. *)
Definition wrap_err {A} (prefix : string) (m : Tx A) : Tx A :=
  λ s, match m s with
       | (Err e, s') => (Err (ErrWrap prefix e), s')
       | r => r
       end.

(** What [tx.Rollback] restores: every table, but not the sequences, whose
    [nextval] is never undone. *)
Definition rollback (snapshot current : Store) : Store :=
  set_seq (bookings_id_seq current) snapshot.

(** [WithTransaction]: commit iff [fn] returns [nil], roll back otherwise.
    (The error of a failed [Commit] is assigned to a local variable after
    the return value is fixed; the store of the model always commits.) *)
Definition WithTransaction {A} (fn : Tx A) : Tx A :=
  λ s, match fn s with
       | (Ok a, s') => (Ok a, s')
       | (Err e, s') => (Err e, rollback s s')
       end.

Definition isRetryableError (err : error) : bool :=
  let errStr := Error err in
  contains errStr "40001"
  || contains errStr "40P01"
  || contains errStr "deadlock"
  || contains errStr "serialization failure"
  || contains errStr "connection"
  || contains errStr "timeout".

Section WithRetry.
(** [W] is whatever [fn] and the context act on.  [fn w] is one
    invocation of [fn].  [wait w] is the [select] between [ctx.Done()]
    and [time.After(retryDelay)]: [Some e] when the context was done
    first, [e] being [ctx.Err()], and [None] when the delay elapsed. *)
Context {W : Type}.
Variable maxRetries : Z.
Variable fn : W → option error * W.
Variable wait : W → option error * W.

(** The iterations [i, i+1, ...] of [for i := 0; i <= maxRetries; i++],
    [n] of them being left; [err] is the variable of that name.  ([i] is
    taken not to wrap around, which it does not for [maxRetries < MaxInt].) *)
Fixpoint retry_loop (n : nat) (i : Z) (err : option error) (w : W)
  : option error * W :=
  match n with
  | O =>
      (Some (Errorf_w ("operation failed after " +:+ itoa maxRetries
                       +:+ " retries: ") err), w)
  | S n' =>
      match fn w with
      | (None, w1) => (None, w1)
      | (Some e, w1) =>
          if negb (isRetryableError e) then (Some e, w1)
          else if i <? maxRetries then
            match wait w1 with
            | (Some ctx_err, w2) => (Some ctx_err, w2)
            | (None, w2) => retry_loop n' (i + 1) (Some e) w2
            end
          else retry_loop n' (i + 1) (Some e) w1
      end
  end.

Definition WithRetry (w : W) : option error * W :=
  retry_loop (Z.to_nat (maxRetries + 1)) 0 None w.
End WithRetry.

(** ** event_repository.go *)

Module EventRepository.

(** [GetEvent]: a plain read outside any transaction. *)
Definition GetEvent (eventID : Z) (s : Store) : result Event.t :=
  if negb (is_int4 eventID) then Err (pq_int4_parameter eventID)
  else
    match query_row (λ e, Event.ID e = eventID) (events s) with
    | Some e => Ok e
    | None => Err (ErrNew "event not found")
    end.

Definition is_seat (eventID : Z) (seatNo : string) (x : Ticket.t) : Prop :=
  Ticket.EventID x = eventID ∧ Ticket.SeatNo x = seatNo.

#[global] Instance is_seat_dec eventID seatNo x :
  Decision (is_seat eventID seatNo x).
Proof. unfold is_seat. apply _. Defined.

(** The body of the transaction of [LockSeat]; [now] is the store's
    [NOW()]. *)
Definition lockSeatTx (now : Z) (eventID : Z) (seatNo : string) : Tx unit :=
  do s <- tx_get;
  match query_row (is_seat eventID seatNo) (tickets s) with
  | None => tx_fail (ErrWrap "seat not found: " ErrNoRows)
  | Some row =>
      let currentStatus := Ticket.Status row in
      if decide (currentStatus ≠ TicketAvailable) then
        tx_fail (ErrNew ("seat is no longer available (current status: "
                         +:+ status_text currentStatus +:+ ")"))
      else
        do _ <- tx_modify (set_tickets
               (update_where (is_seat eventID seatNo)
                             (Ticket.set_status TicketLocked now)));
        if rows_affected (is_seat eventID seatNo) (tickets s) =? 0 then
          tx_fail (ErrNew "seat was just taken by another user")
        else tx_ret tt
  end.

Definition LockSeat (now : Z) (eventID : Z) (seatNo : string) : Tx unit :=
  WithTransaction (lockSeatTx now eventID seatNo).

Definition is_locked_seat (eventID : Z) (seatNo : string) (x : Ticket.t) : Prop :=
  is_seat eventID seatNo x ∧ Ticket.Status x = TicketLocked.

#[global] Instance is_locked_seat_dec eventID seatNo x :
  Decision (is_locked_seat eventID seatNo x).
Proof. unfold is_locked_seat. apply _. Defined.

(** [UnlockSeat]: one statement, committed on its own. *)
Definition UnlockSeat (now : Z) (eventID : Z) (seatNo : string) (s : Store)
  : option error * Store :=
  (None, set_tickets (update_where (is_locked_seat eventID seatNo)
                                   (Ticket.set_status TicketAvailable now)) s).

(** [int(d.Minutes())]: the whole minutes of [d], rounded toward zero.
    (The source goes through [float64], as [float64(min) +
    float64(nsec)/6e10] converted back to [int]; the two agree on every
    duration below 2^18 minutes, and on every whole number of minutes
    below 2^53.) *)
Definition lockDurationMinutes (cfg : AppConfig) : Z :=
  Z.quot (SeatLockDuration cfg) Minute.

(** [status = 'locked' AND updated_at < NOW() - INTERVAL 'n minutes']. *)
Definition is_expired_lock (cfg : AppConfig) (now : Z) (x : Ticket.t) : Prop :=
  Ticket.Status x = TicketLocked
  ∧ Ticket.UpdatedAt x < now - lockDurationMinutes cfg * Minute.

#[global] Instance is_expired_lock_dec cfg now x :
  Decision (is_expired_lock cfg now x).
Proof. unfold is_expired_lock. apply _. Defined.

(** [CleanupExpiredLocks] returns an [error] and nothing else; the second
    component is the [seats_unlocked] field of the line it logs, when it
    logs one. *)
Definition CleanupExpiredLocks (cfg : AppConfig) (now : Z) (s : Store)
  : option error * option Z * Store :=
  let rowsAffected := rows_affected (is_expired_lock cfg now) (tickets s) in
  let s' := set_tickets (update_where (is_expired_lock cfg now)
                           (Ticket.set_status TicketAvailable now)) s in
  (None, if 0 <? rowsAffected then Some rowsAffected else None, s').

(** [GetEvents]: [ORDER BY start_time ASC LIMIT $1 OFFSET $2].  (Rows with
    the same [start_time] come in the order of the table.) *)
Definition start_le (a b : Event.t) : Prop := Event.StartTime a <= Event.StartTime b.

#[global] Instance start_le_dec : RelDecision start_le.
Proof. intros a b. unfold start_le. apply _. Defined.

Definition pq_negative_offset : error := ErrNew "pq: OFFSET must not be negative".

Definition GetEvents (limit offset : Z) (s : Store) : result (list Event.t) :=
  if limit <? 0 then Err pq_negative_limit
  else if offset <? 0 then Err pq_negative_offset
  else Ok (take (Z.to_nat limit)
             (drop (Z.to_nat offset) (merge_sort start_le (events s)))).

(** [GetAvailableTickets]: [WHERE event_id = $1 AND status = 'available'
    ORDER BY seat_no LIMIT $2]. *)
Definition GetAvailableTickets (eventID limit : Z) (s : Store)
  : result (list Ticket.t) :=
  if negb (is_int4 eventID) then Err (pq_int4_parameter eventID)
  else if limit <? 0 then Err pq_negative_limit
  else Ok (take (Z.to_nat limit)
             (merge_sort seat_le
                (filter (λ x, Ticket.EventID x = eventID
                              ∧ Ticket.Status x = TicketAvailable) (tickets s)))).

(** The sequences behind [events.id] and [tickets.id], which only
    [CreateEvent] draws from. *)
Record Sequences : Type := mkSequences {
  events_id_seq : Z;
  tickets_id_seq : Z
}.

Fixpoint zeros (n : nat) : string :=
  match n with
  | O => ""
  | S n' => String "0" (zeros n')
  end.

(** [fmt.Sprintf("%03d", i)]: the sign counts in the width. *)
Definition pad3 (i : Z) : string :=
  if i <? 0 then
    "-" +:+ zeros (2 - String.length (itoa (- i))) +:+ itoa (- i)
  else zeros (3 - String.length (itoa i)) +:+ itoa i.

(** [seatNo := fmt.Sprintf("S%03d", i)]. *)
Definition seatNo_of (i : Z) : string := "S" +:+ pad3 i.

(** [INSERT INTO tickets (event_id, seat_no, status, ...) VALUES ($1, $2,
    'available', NOW(), NOW())]: the sequence advances, then the primary
    key, [UNIQUE(event_id, seat_no)] and the foreign key are checked. *)
Definition insert_ticket (now eventID : Z) (seatNo : string)
    (st : Sequences * Store) : result unit * (Sequences * Store) :=
  let '(q, s) := st in
  let id := tickets_id_seq q + 1 in
  let q' := mkSequences (events_id_seq q) id in
  if decide (id ∈ Ticket.ID <$> tickets s) then
    (Err (pq_unique_violation "tickets_pkey"), (q', s))
  else if decide ((eventID, seatNo)
                  ∈ (λ x, (Ticket.EventID x, Ticket.SeatNo x)) <$> tickets s) then
    (Err (pq_unique_violation "tickets_event_id_seat_no_key"), (q', s))
  else if decide (eventID ∈ Event.ID <$> events s) then
    (Ok tt, (q', set_tickets
                   (λ rows, rows ++ [Ticket.mk id eventID seatNo TicketAvailable now])
                   s))
  else (Err (pq_fk_violation "tickets" "tickets_event_id_fkey"), (q', s)).

(** The iterations [idxs] of [for i := 1; i <= event.TotalTickets; i++]. *)
Fixpoint create_tickets (now eventID : Z) (idxs : list Z) (st : Sequences * Store)
  : result unit * (Sequences * Store) :=
  match idxs with
  | [] => (Ok tt, st)
  | i :: rest =>
      let seatNo := seatNo_of i in
      match insert_ticket now eventID seatNo st with
      | (Ok _, st') => create_tickets now eventID rest st'
      | (Err e, st') =>
          (Err (ErrWrap ("failed to create ticket " +:+ seatNo +:+ ": ") e), st')
      end
  end.

(** The body of the transaction of [CreateEvent].  Of [models.Event] the
    store of the model keeps the fields of [Event.t].  (The checks are the
    constraints of the schema; the limits of the column types,
    [VARCHAR(255)], [INTEGER] and [DECIMAL(10,2)], are left out, so the
    model fails no more often than the store does.) *)
Definition createEventTx (now : Z) (event : Event.t) (st : Sequences * Store)
  : result Event.t * (Sequences * Store) :=
  let '(q, s) := st in
  let eventID := events_id_seq q + 1 in
  let q' := mkSequences eventID (tickets_id_seq q) in
  let row := Event.mk eventID (Event.Name event) (Event.StartTime event)
               (Event.TotalTickets event) (Event.TotalTickets event)
               (Event.Price event) now in
  let failed e := (Err (ErrWrap "failed to create event: " e), (q', s)) in
  if negb (0 <? Event.TotalTickets event) then
    failed (pq_check_violation "events" "events_total_tickets_check")
  else if negb (PrimFloat.leb 0 (Event.Price event)) then
    failed (pq_check_violation "events" "events_price_check")
  else if decide (eventID ∈ Event.ID <$> events s) then
    failed (pq_unique_violation "events_pkey")
  else
    match create_tickets now eventID (seqZ 1 (Event.TotalTickets event))
            (q', set_events (λ rows, rows ++ [row]) s) with
    | (Ok _, st') => (Ok row, st')
    | (Err e, st') => (Err e, st')
    end.

(** [CreateEvent]: the transaction around [createEventTx]; a rollback
    restores the tables and leaves the sequences where they are. *)
Definition CreateEvent (now : Z) (event : Event.t) (st : Sequences * Store)
  : result Event.t * (Sequences * Store) :=
  match createEventTx now event st with
  | (Ok ev, st') => (Ok ev, st')
  | (Err e, (q', s')) => (Err e, (q', rollback st.2 s'))
  end.

End EventRepository.

(** ** booking_repository.go *)

Module BookingRepository.

(** The readings of the clocks during one run of [bookTicketsWithLock]:
    [time.Now()] at the timing check, in [generateBookingRef] and for
    [expiresAt], and the store's [NOW()]. *)
Record Clock : Type := {
  now_check : Z;
  now_ref : Z;
  now_expiry : Z;
  now_db : Z
}.

Definition generateBookingRef (unixNano : Z) : string := "BK" +:+ itoa unixNano.

Definition is_locked_of (eventID : Z) (x : Ticket.t) : Prop :=
  Ticket.EventID x = eventID ∧ Ticket.Status x = TicketLocked.

#[global] Instance is_locked_of_dec eventID x : Decision (is_locked_of eventID x).
Proof. unfold is_locked_of. apply _. Defined.

(** [SELECT id, seat_no FROM tickets WHERE event_id = $1 AND
    status = 'locked' ORDER BY seat_no LIMIT $2 FOR UPDATE]. *)
Definition select_locked (eventID quantity : Z) (rows : list Ticket.t)
  : list Ticket.t :=
  take (Z.to_nat quantity) (merge_sort seat_le (filter (is_locked_of eventID) rows)).

(** [INSERT INTO bookings ... RETURNING id]: the [user_id] parameter is
    read as an [INTEGER] (the event id has been read as one at step 1, the
    ticket ids come from the store); then the sequence advances, the id
    drawn has to be an [INTEGER], and the constraints of the table are
    checked. *)
Definition insert_booking (row : Z → Booking.t) : Tx Z :=
  do s <- tx_get;
  let id := bookings_id_seq s + 1 in
  let b := row id in
  if negb (is_int4 (Booking.UserID b)) then
    tx_fail (pq_int4_parameter (Booking.UserID b))
  else
  do _ <- tx_modify (set_seq id);
  if negb (is_int4 id) then tx_fail pq_integer_out_of_range
  else if negb (0 <? Booking.Quantity b) then
    tx_fail (pq_check_violation "bookings" "bookings_quantity_check")
  else if negb (PrimFloat.leb 0 (Booking.TotalAmount b)) then
    tx_fail (pq_check_violation "bookings" "bookings_total_amount_check")
  else if decide (id ∈ Booking.ID <$> bookings s) then
    tx_fail (pq_unique_violation "bookings_pkey")
  else if decide (Booking.BookingRef b ∈ Booking.BookingRef <$> bookings s) then
    tx_fail (pq_unique_violation "bookings_booking_ref_key")
  else if decide (Booking.UserID b ∈ users s) then
    do _ <- tx_modify (set_bookings (λ rows, rows ++ [b]));
    tx_ret id
  else tx_fail (pq_fk_violation "bookings" "bookings_user_id_fkey").

(** [UPDATE events SET available_tickets = available_tickets - $1 ...];
    the column carries [CHECK (available_tickets >= 0)]. *)
Definition update_available (delta now eventID : Z) : Tx unit :=
  do s <- tx_get;
  let P := λ e, Event.ID e = eventID in
  let f := λ e, Event.set_available (Event.AvailableTickets e + delta) now e in
  if decide (Exists (λ e, Event.AvailableTickets (f e) < 0) (filter P (events s))) then
    tx_fail (pq_check_violation "events" "events_available_tickets_check")
  else tx_modify (set_events (update_where P f)).

(** The format of the error of step 4: ["insufficient locked seats for
    booking. Found %d locked seats, need %d. Please select seats
    first"]. *)
Definition insufficient_message (found need : Z) : string :=
  "insufficient locked seats for booking. Found " +:+ itoa found
  +:+ " locked seats, need " +:+ itoa need
  +:+ ". Please select seats first".

Definition bookTicketsWithLock (cfg : AppConfig) (clk : Clock)
    (request : BookingRequest.t) : Tx Booking.t :=
  let eventID := BookingRequest.EventID request in
  let quantity := BookingRequest.Quantity request in
  (* Step 1: lock the event row *)
  do s <- tx_get;
  if negb (is_int4 eventID) then
    tx_fail (ErrWrap "failed to lock event: " (pq_int4_parameter eventID))
  else
  match query_row (λ e, Event.ID e = eventID) (events s) with
  | None => tx_fail (ErrNew "event not found")
  | Some event =>
      (* Step 2: validate event timing *)
      if Event.StartTime event <? now_check clk then
        tx_fail (ErrNew "event has already started")
      else if quantity <? 0 then
        tx_fail (ErrWrap "failed to select tickets: " pq_negative_limit)
      else
        (* Step 4: lock and select the locked tickets *)
        let rows := select_locked eventID quantity (tickets s) in
        let ticketIDs := Ticket.ID <$> rows in
        if Z.of_nat (length ticketIDs) <? quantity then
          tx_fail (ErrNew (insufficient_message (Z.of_nat (length ticketIDs))
                                                quantity))
        else
          (* Step 5: reserve the tickets *)
          do _ <- tx_modify (set_tickets
                 (update_where (λ x, Ticket.ID x ∈ ticketIDs)
                               (Ticket.set_status TicketReserved (now_db clk))));
          (* Step 6: update the event's available tickets *)
          do _ <- wrap_err "failed to update event: "
                 (update_available (- quantity) (now_db clk) eventID);
          (* Step 7: create the booking record *)
          let totalAmount := PrimFloat.mul (Event.Price event) (float64_of_int quantity) in
          let bookingRef := generateBookingRef (now_ref clk) in
          let expiresAt := now_expiry clk + BookingExpiration cfg in
          let row := λ id,
            Booking.mk id (BookingRequest.UserID request) eventID ticketIDs
                       quantity totalAmount BookingPending bookingRef
                       (now_db clk) (now_db clk) expiresAt in
          do bookingID <- wrap_err "failed to create booking: " (insert_booking row);
          tx_ret (row bookingID)
  end.

Definition is_booking (bookingID : Z) (b : Booking.t) : Prop :=
  Booking.ID b = bookingID.

#[global] Instance is_booking_dec bookingID b : Decision (is_booking bookingID b).
Proof. unfold is_booking. apply _. Defined.

(** The body of the transaction of [ConfirmBooking]; [now] is
    [time.Now()], [now_db] the store's [NOW()]. *)
Definition confirmBookingTx (now now_db : Z) (bookingID : Z) : Tx unit :=
  do s <- tx_get;
  match query_row (is_booking bookingID) (bookings s) with
  | None => tx_fail (ErrWrap "booking not found: " ErrNoRows)
  | Some booking =>
      if decide (Booking.Status booking ≠ BookingPending) then
        tx_fail (ErrNew "booking is not in pending status")
      else if Booking.ExpiresAt booking <? now then
        tx_fail (ErrNew "booking has expired")
      else
        let ticketIDs := parseTicketIDs (pg_array_text (Booking.TicketIDs booking)) in
        let P := λ x, Ticket.ID x ∈ ticketIDs ∧ Ticket.Status x = TicketReserved in
        do _ <- tx_modify (set_tickets
               (update_where P (Ticket.set_status TicketSold now_db)));
        if negb (rows_affected P (tickets s) =? Z.of_nat (length ticketIDs)) then
          tx_fail (ErrNew "some tickets could not be confirmed")
        else
          tx_modify (set_bookings
            (update_where (is_booking bookingID)
                          (Booking.set_status BookingConfirmed now_db)))
  end.

Definition ConfirmBooking (now now_db : Z) (bookingID : Z) : Tx unit :=
  WithTransaction (confirmBookingTx now now_db bookingID).

(** The body of the transaction of [CancelBooking]. *)
Definition cancelBookingTx (now_db : Z) (bookingID : Z) : Tx unit :=
  do s <- tx_get;
  match query_row (is_booking bookingID) (bookings s) with
  | None => tx_fail (ErrWrap "booking not found: " ErrNoRows)
  | Some booking =>
      if decide (Booking.Status booking = BookingCancelled) then
        tx_fail (ErrNew "booking is already cancelled")
      else
        let ticketIDs := parseTicketIDs (pg_array_text (Booking.TicketIDs booking)) in
        do _ <- tx_modify (set_tickets
               (update_where (λ x, Ticket.ID x ∈ ticketIDs)
                             (Ticket.set_status TicketAvailable now_db)));
        do _ <- wrap_err "failed to update event: "
               (update_available (Booking.Quantity booking) now_db
                                 (Booking.EventID booking));
        tx_modify (set_bookings
          (update_where (is_booking bookingID)
                        (Booking.set_status BookingCancelled now_db)))
  end.

Definition CancelBooking (now_db : Z) (bookingID : Z) : Tx unit :=
  WithTransaction (cancelBookingTx now_db bookingID).

(** What the retry loop of [BookTickets] acts on: the store, the
    variable [booking] of the closure, and how many attempts and waits
    there have been. *)
Record RetryState : Type := mkRetry {
  rs_store : Store;
  rs_booking : option Booking.t;
  rs_attempts : nat;
  rs_waits : nat
}.

(** The surroundings of one call of [BookTickets]: the clock readings of
    the k-th attempt, and whether the context is done during the k-th
    wait (and with which [ctx.Err()]). *)
Record Env : Type := {
  clocks : nat → Clock;
  ctx_done : nat → option error
}.

Definition attempt (cfg : AppConfig) (env : Env) (request : BookingRequest.t)
    (w : RetryState) : option error * RetryState :=
  match WithTransaction
          (bookTicketsWithLock cfg (clocks env (rs_attempts w)) request)
          (rs_store w) with
  | (Ok b, s') => (None, mkRetry s' (Some b) (S (rs_attempts w)) (rs_waits w))
  | (Err e, s') => (Some e, mkRetry s' None (S (rs_attempts w)) (rs_waits w))
  end.

Definition wait (env : Env) (w : RetryState) : option error * RetryState :=
  (ctx_done env (rs_waits w),
   mkRetry (rs_store w) (rs_booking w) (rs_attempts w) (S (rs_waits w))).

(** [BookTickets]: [WithRetry(ctx, 3, 100ms, WithTransaction(...))]. *)
Definition BookTickets (cfg : AppConfig) (env : Env) (request : BookingRequest.t)
    (s : Store) : option Booking.t * option error * Store :=
  let '(err, w) := WithRetry 3 (attempt cfg env request) (wait env)
                             (mkRetry s None 0 0) in
  (rs_booking w, err, rs_store w).

(** [GetBooking]: the row of the id, [ticket_ids] read as text and
    parsed. *)
Definition GetBooking (bookingID : Z) (s : Store) : result Booking.t :=
  if negb (is_int4 bookingID) then Err (pq_int4_parameter bookingID)
  else
  match query_row (is_booking bookingID) (bookings s) with
  | Some row =>
      Ok (Booking.mk (Booking.ID row) (Booking.UserID row) (Booking.EventID row)
            (parseTicketIDs (pg_array_text (Booking.TicketIDs row)))
            (Booking.Quantity row) (Booking.TotalAmount row) (Booking.Status row)
            (Booking.BookingRef row) (Booking.CreatedAt row)
            (Booking.UpdatedAt row) (Booking.ExpiresAt row))
  | None => Err (ErrNew "booking not found")
  end.

End BookingRepository.

(** ** handlers: the booking endpoint *)

Module BookingHandler.

Definition StatusOK : Z := 200.
Definition StatusCreated : Z := 201.
Definition StatusBadRequest : Z := 400.
Definition StatusNotFound : Z := 404.
Definition StatusInternalServerError : Z := 500.

(** The [binding] tags of [models.BookingRequest]: [required] on the three
    fields, [min=1,max=10] on [Quantity]. *)
Definition valid_request (request : BookingRequest.t) : bool :=
  negb (BookingRequest.UserID request =? 0)
  && negb (BookingRequest.EventID request =? 0)
  && negb (BookingRequest.Quantity request =? 0)
  && (1 <=? BookingRequest.Quantity request)
  && (BookingRequest.Quantity request <=? 10).

(** "Determine appropriate HTTP status code based on error". *)
Definition error_status (err : error) : Z :=
  if contains (Error err) "insufficient tickets"
     || contains (Error err) "not found"
  then StatusBadRequest
  else if contains (Error err) "already started" then StatusBadRequest
  else StatusInternalServerError.

(** [BookTickets] on a decoded request body: the status of the response,
    its [error] field, and the store afterwards. *)
Definition BookTickets (cfg : AppConfig) (env : BookingRepository.Env)
    (request : BookingRequest.t) (s : Store) : Z * option string * Store :=
  if negb (valid_request request) then
    (StatusBadRequest, Some "Invalid request format", s)
  else
    match EventRepository.GetEvent (BookingRequest.EventID request) s with
    | Err _ => (StatusNotFound, Some "Event not found", s)
    | Ok _ =>
        match BookingRepository.BookTickets cfg env request s with
        | (_, Some err, s') => (error_status err, Some (Error err), s')
        | (_, None, s') => (StatusCreated, None, s')
        end
    end.

(** [GetBooking] on the path parameter [id]: the status and the booking. *)
Definition GetBooking (bookingIDStr : string) (s : Store) : Z * option Booking.t :=
  match Atoi bookingIDStr with
  | None => (StatusBadRequest, None)
  | Some bookingID =>
      match BookingRepository.GetBooking bookingID s with
      | Err err =>
          if contains (Error err) "not found" then (StatusNotFound, None)
          else (StatusInternalServerError, None)
      | Ok booking => (StatusOK, Some booking)
      end
  end.

Definition confirm_error_status (err : error) : Z :=
  if contains (Error err) "not found"
     || contains (Error err) "not in pending status"
     || contains (Error err) "expired"
  then StatusBadRequest else StatusInternalServerError.

(** [ConfirmBooking] on the path parameter [id]. *)
Definition ConfirmBooking (now now_db : Z) (bookingIDStr : string) (s : Store)
  : Z * Store :=
  match Atoi bookingIDStr with
  | None => (StatusBadRequest, s)
  | Some bookingID =>
      match BookingRepository.ConfirmBooking now now_db bookingID s with
      | (Err err, s') => (confirm_error_status err, s')
      | (Ok _, s') => (StatusOK, s')
      end
  end.

Definition cancel_error_status (err : error) : Z :=
  if contains (Error err) "not found"
     || contains (Error err) "already cancelled"
  then StatusBadRequest else StatusInternalServerError.

(** [CancelBooking] on the path parameter [id]. *)
Definition CancelBooking (now_db : Z) (bookingIDStr : string) (s : Store)
  : Z * Store :=
  match Atoi bookingIDStr with
  | None => (StatusBadRequest, s)
  | Some bookingID =>
      match BookingRepository.CancelBooking now_db bookingID s with
      | (Err err, s') => (cancel_error_status err, s')
      | (Ok _, s') => (StatusOK, s')
      end
  end.

End BookingHandler.

(** ** The operations of the specification *)

(** The core mutations, each with the readings of the clocks it takes:
    hold, release, stale-hold reclaim, book, confirm and cancel. *)
Inductive Mutation : Type :=
  | hold (now eventID : Z) (seatNo : string)
  | release (now eventID : Z) (seatNo : string)
  | reclaim_stale (now : Z)
  | book (env : BookingRepository.Env) (request : BookingRequest.t)
  | confirm (now now_db bookingID : Z)
  | cancel (now_db bookingID : Z).

(** The committed state a mutation leaves behind, whether it succeeds or
    fails. *)
Definition commit (cfg : AppConfig) (m : Mutation) (s : Store) : Store :=
  match m with
  | hold now eventID seatNo => (EventRepository.LockSeat now eventID seatNo s).2
  | release now eventID seatNo => (EventRepository.UnlockSeat now eventID seatNo s).2
  | reclaim_stale now => (EventRepository.CleanupExpiredLocks cfg now s).2
  | book env request => (BookingRepository.BookTickets cfg env request s).2
  | confirm now now_db bookingID =>
      (BookingRepository.ConfirmBooking now now_db bookingID s).2
  | cancel now_db bookingID => (BookingRepository.CancelBooking now_db bookingID s).2
  end.

(** The state committed by a sequence of mutations. *)
Definition run (cfg : AppConfig) (ms : list Mutation) (s : Store) : Store :=
  fold_left (λ s m, commit cfg m s) ms s.

(** ** Consistency of a store *)

Definition count_where {R : Type} (P : R → Prop) `{!∀ r, Decision (P r)}
    (rows : list R) : Z :=
  Z.of_nat (length (filter P rows)).

(** The tickets of an event that are ['available']. *)
Definition is_available_of (eventID : Z) (x : Ticket.t) : Prop :=
  Ticket.EventID x = eventID ∧ Ticket.Status x = TicketAvailable.

(** The tickets of an event that no booking has taken: ['available'] or
    held (['locked']). *)
Definition is_open_of (eventID : Z) (x : Ticket.t) : Prop :=
  Ticket.EventID x = eventID
  ∧ (Ticket.Status x = TicketAvailable ∨ Ticket.Status x = TicketLocked).

#[global] Instance is_available_of_dec eventID x : Decision (is_available_of eventID x).
Proof. unfold is_available_of. apply _. Defined.

#[global] Instance is_open_of_dec eventID x : Decision (is_open_of eventID x).
Proof. unfold is_open_of. apply _. Defined.

(** The equality of the specification: the counter of every event is the
    number of its ['available'] tickets. *)
Definition counter_is_available (s : Store) : Prop :=
  Forall (λ e, Event.AvailableTickets e
               = count_where (is_available_of (Event.ID e)) (tickets s))
         (events s).

(** The equality the code maintains: the counter of every event is the
    number of its tickets that are ['available'] or ['locked']. *)
Definition counter_is_open (s : Store) : Prop :=
  Forall (λ e, Event.AvailableTickets e
               = count_where (is_open_of (Event.ID e)) (tickets s))
         (events s).

(** The primary key of [tickets], its values being non-negative [int]s,
    and [UNIQUE(event_id, seat_no)]. *)
Definition seat_key (x : Ticket.t) : Z * string :=
  (Ticket.EventID x, Ticket.SeatNo x).

Definition ticket_keys_ok (s : Store) : Prop :=
  NoDup (Ticket.ID <$> tickets s)
  ∧ Forall (λ x, 0 <= Ticket.ID x <= MaxInt) (tickets s)
  ∧ NoDup (seat_key <$> tickets s).

Definition active (b : Booking.t) : Prop := Booking.Status b ≠ BookingCancelled.

#[global] Instance active_dec b : Decision (active b).
Proof. unfold active. apply _. Defined.

(** The tickets a booking names exist, belong to its event and are
    ['reserved'] or ['sold'], and [quantity] counts them. *)
Definition is_taken_by (b : Booking.t) (id : Z) (x : Ticket.t) : Prop :=
  Ticket.ID x = id ∧ Ticket.EventID x = Booking.EventID b
  ∧ (Ticket.Status x = TicketReserved ∨ Ticket.Status x = TicketSold).

#[global] Instance is_taken_by_dec b id x : Decision (is_taken_by b id x).
Proof. unfold is_taken_by. apply _. Defined.

Definition booking_ok (rows : list Ticket.t) (b : Booking.t) : Prop :=
  Booking.Quantity b = Z.of_nat (length (Booking.TicketIDs b))
  ∧ Forall (λ id, Exists (is_taken_by b id) rows) (Booking.TicketIDs b).

(** Every booking that is not cancelled is [booking_ok], and no ticket is
    named twice by such bookings. *)
Definition bookings_ok (s : Store) : Prop :=
  Forall (λ b, active b → booking_ok (tickets s) b) (bookings s)
  ∧ NoDup (concat (Booking.TicketIDs <$> filter active (bookings s))).

(** The primary key of [bookings]. *)
Definition booking_keys_ok (s : Store) : Prop :=
  NoDup (Booking.ID <$> bookings s).

Definition consistent (s : Store) : Prop :=
  ticket_keys_ok s ∧ booking_keys_ok s ∧ counter_is_open s ∧ bookings_ok s.

#[global] Instance consistent_dec s : Decision (consistent s).
Proof.
  unfold consistent, ticket_keys_ok, booking_keys_ok, counter_is_open,
    bookings_ok, booking_ok.
  apply _.
Defined.

#[global] Instance counter_is_available_dec s : Decision (counter_is_available s).
Proof. unfold counter_is_available. apply _. Defined.

(** Stores that differ at most in the sequence of booking ids. *)
Definition same_tables (s s' : Store) : Prop :=
  users s' = users s ∧ events s' = events s
  ∧ tickets s' = tickets s ∧ bookings s' = bookings s.

(** ** A small store for the examples *)

Definition example_cfg : AppConfig :=
  {| SeatLockDuration := 3 * Minute; BookingExpiration := 15 * Minute |}.

(** One event of three seats that starts after a day, at 100 a seat. *)
Definition example_event : Event.t :=
  Event.mk 1 "Show" (1440 * Minute) 3 3 100%float 0.

Definition example_ticket (id : Z) (seatNo : string) (st : TicketStatus)
    (updatedAt : Z) : Ticket.t :=
  Ticket.mk id 1 seatNo st updatedAt.

Definition example_store : Store :=
  mkStore [1] [example_event]
    [example_ticket 1 "S001" TicketAvailable 0;
     example_ticket 2 "S002" TicketAvailable 0;
     example_ticket 3 "S003" TicketAvailable 0]
    [] 0.

(** The same store after a hold on seat S002 at time 5. *)
Definition example_held : Store :=
  mkStore [1] [example_event]
    [example_ticket 1 "S001" TicketAvailable 0;
     example_ticket 2 "S002" TicketLocked 5;
     example_ticket 3 "S003" TicketAvailable 0]
    [] 0.

(** Clock readings that do not depend on the attempt, and a context that
    is never done. *)
Definition example_clock (now : Z) : BookingRepository.Clock :=
  {| BookingRepository.now_check := now;
     BookingRepository.now_ref := now;
     BookingRepository.now_expiry := now;
     BookingRepository.now_db := now |}.

Definition example_env (now : Z) : BookingRepository.Env :=
  {| BookingRepository.clocks := λ _, example_clock now;
     BookingRepository.ctx_done := λ _, None |}.

(** The store after the booking of the held seat by user 1 at time 10. *)
Definition example_booking : Booking.t :=
  Booking.mk 1 1 1 [2] 1 100%float BookingPending "BK10" 10 10 (10 + 15 * Minute).

Definition example_booked : Store :=
  mkStore [1] [Event.set_available 2 10 example_event]
    [example_ticket 1 "S001" TicketAvailable 0;
     example_ticket 2 "S002" TicketReserved 10;
     example_ticket 3 "S003" TicketAvailable 0]
    [example_booking] 1.

(** ** Observing a run of the retry loop *)

(** What a run of [WithRetry] does, in order: the invocations of [fn] with
    what each returned, and the waits with how each ended. *)
Inductive RetryEvent : Type :=
  | EvCall (r : option error)
  | EvWait (r : option error).

Definition traced {W : Type} (ev : option error → RetryEvent)
    (f : W → option error * W)
  : W * list RetryEvent → option error * (W * list RetryEvent) :=
  λ '(w, tr), let '(r, w') := f w in (r, (w', tr ++ [ev r])).

Definition is_call (ev : RetryEvent) : bool :=
  match ev with EvCall _ => true | EvWait _ => false end.

Definition calls (tr : list RetryEvent) : nat := length (List.filter is_call tr).

(** The texts [isRetryableError] looks for in the message of an error. *)
Definition retry_markers : list string :=
  ["40001"; "40P01"; "deadlock"; "serialization failure"; "connection";
   "timeout"].

(** [sub] occurs in [s]: [s] is some text, then [sub], then some text. *)
Definition occurs (sub s : string) : Prop :=
  ∃ pre post, s = pre +:+ sub +:+ post.

(** The message of [err] carries one of the texts. *)
Definition marked (err : error) : Prop :=
  ∃ m, m ∈ retry_markers ∧ occurs m (Error err).

(** The events after which the loop returns at once: success, an error
    that is not retryable, a context that is done. *)
Definition terminal (ev : RetryEvent) : Prop :=
  match ev with
  | EvCall None => True
  | EvCall (Some e) => isRetryableError e = false
  | EvWait (Some _) => True
  | EvWait None => False
  end.

Definition outcome (ev : RetryEvent) : option error :=
  match ev with EvCall r => r | EvWait r => r end.

Definition exhausted_error (maxRetries : Z) (err : option error) : error :=
  Errorf_w ("operation failed after " +:+ itoa maxRetries +:+ " retries: ") err.

(** The traces of the loop with [n] iterations left, [err] being the error
    of the iteration before, and what the loop returns on each. *)
Inductive retry_shape (maxRetries : Z)
  : nat → option error → list RetryEvent → option error → Prop :=
  | shape_exhausted err :
      retry_shape maxRetries 0 err [] (Some (exhausted_error maxRetries err))
  | shape_return n err ev :
      is_call ev = true → terminal ev →
      retry_shape maxRetries (S n) err [ev] (outcome ev)
  | shape_cancelled n err e ce :
      isRetryableError e = true →
      retry_shape maxRetries (S (S n)) err
        [EvCall (Some e); EvWait (Some ce)] (Some ce)
  | shape_retry n err e tr res :
      isRetryableError e = true →
      retry_shape maxRetries (S n) (Some e) tr res →
      retry_shape maxRetries (S (S n)) err
        (EvCall (Some e) :: EvWait None :: tr) res
  | shape_last err e :
      isRetryableError e = true →
      retry_shape maxRetries 1 err [EvCall (Some e)]
        (Some (exhausted_error maxRetries (Some e))).

#[global] Instance seat_le_total : Total seat_le.
Proof. intros a b. unfold seat_le. apply total, _. Qed.

#[global] Instance seat_le_trans : Transitive seat_le.
Proof. intros a b c. unfold seat_le. apply transitivity. Qed.

#[global] Instance start_le_total : Total EventRepository.start_le.
Proof. unfold EventRepository.start_le. intros a b. lia. Qed.

#[global] Instance start_le_trans : Transitive EventRepository.start_le.
Proof. unfold EventRepository.start_le. intros a b c. lia. Qed.

(** ** handlers: the event endpoints *)

Module EventHandler.

Definition StatusConflict : Z := 409.

(** [GetEvent] on the path parameter [id]. *)
Definition GetEvent (eventIDStr : string) (s : Store) : Z * option Event.t :=
  match Atoi eventIDStr with
  | None => (BookingHandler.StatusBadRequest, None)
  | Some eventID =>
      match EventRepository.GetEvent eventID s with
      | Err err =>
          if contains (Error err) "not found"
          then (BookingHandler.StatusNotFound, None)
          else (BookingHandler.StatusInternalServerError, None)
      | Ok event => (BookingHandler.StatusOK, Some event)
      end
  end.

(** [limit] of [GetAvailableTickets]: the query parameter, 50 when it is
    absent, not a number, or outside [1, 100]. *)
Definition tickets_limit (limitQuery : option string) : Z :=
  match Atoi (default "50" limitQuery) with
  | Some limit => if (limit <=? 0) || (100 <? limit) then 50 else limit
  | None => 50
  end.

(** [GetAvailableTickets] on the path parameter [id] and the query
    parameter [limit]. *)
Definition GetAvailableTickets (eventIDStr : string) (limitQuery : option string)
    (s : Store) : Z * option (list Ticket.t) :=
  match Atoi eventIDStr with
  | None => (BookingHandler.StatusBadRequest, None)
  | Some eventID =>
      match EventRepository.GetAvailableTickets eventID (tickets_limit limitQuery) s with
      | Err _ => (BookingHandler.StatusInternalServerError, None)
      | Ok tickets => (BookingHandler.StatusOK, Some tickets)
      end
  end.

(** [LockSeat] on the path parameters [id] and [seatNo]: the status, the
    [error] field and the store afterwards.  (The session header is only
    logged.) *)
Definition LockSeat (now : Z) (eventIDStr seatNo : string) (s : Store)
  : Z * option string * Store :=
  match Atoi eventIDStr with
  | None => (BookingHandler.StatusBadRequest, Some "Invalid event ID", s)
  | Some eventID =>
      match EventRepository.LockSeat now eventID seatNo s with
      | (Err err, s') =>
          (if contains (Error err) "not found" then BookingHandler.StatusNotFound
           else StatusConflict,
           Some (Error err), s')
      | (Ok _, s') => (BookingHandler.StatusOK, None, s')
      end
  end.

(** [UnlockSeat] on the path parameters [id] and [seatNo]. *)
Definition UnlockSeat (now : Z) (eventIDStr seatNo : string) (s : Store)
  : Z * Store :=
  match Atoi eventIDStr with
  | None => (BookingHandler.StatusBadRequest, s)
  | Some eventID =>
      match EventRepository.UnlockSeat now eventID seatNo s with
      | (Some _, s') => (BookingHandler.StatusInternalServerError, s')
      | (None, s') => (BookingHandler.StatusOK, s')
      end
  end.

(** [CreateEvent] on a decoded request body; [endTime] is the [end_time]
    of the body, which the store of the model does not keep, [now] is
    [time.Now()] and [now_db] the store's [NOW()]. *)
Definition CreateEvent (now now_db : Z) (event : Event.t) (endTime : Z)
    (st : EventRepository.Sequences * Store)
  : Z * option string * (EventRepository.Sequences * Store) :=
  if Event.StartTime event <? now then
    (BookingHandler.StatusBadRequest,
     Some "Event start time cannot be in the past", st)
  else if endTime <? Event.StartTime event then
    (BookingHandler.StatusBadRequest,
     Some "Event end time must be after start time", st)
  else if (Event.TotalTickets event <=? 0) || (10000 <? Event.TotalTickets event) then
    (BookingHandler.StatusBadRequest,
     Some "Total tickets must be between 1 and 10,000", st)
  else if PrimFloat.ltb (Event.Price event) 0 then
    (BookingHandler.StatusBadRequest, Some "Price cannot be negative", st)
  else
    match EventRepository.CreateEvent now_db event st with
    | (Err _, st') =>
        (BookingHandler.StatusInternalServerError, Some "Failed to create event", st')
    | (Ok _, st') => (BookingHandler.StatusCreated, None, st')
    end.

End EventHandler.

(** ** middleware: pagination *)

Module middleware.

(** The value of an [int] expression: the integer, wrapped around. *)
Definition wrap_int (z : Z) : Z := (z + 2 ^ 63) mod 2 ^ 64 - 2 ^ 63.

(** [Pagination]: what it sets for [page], [limit] and [offset], from the
    query parameters of these names (absent ones are [None]). *)
Definition Pagination (pageQuery limitQuery : option string) : Z * Z * Z :=
  let pageInt :=
    match Atoi (default "1" pageQuery) with
    | Some p => if p <? 1 then 1 else p
    | None => 1
    end in
  let limitInt :=
    match Atoi (default "20" limitQuery) with
    | Some l => if (l <? 1) || (100 <? l) then 20 else l
    | None => 20
    end in
  let offset := wrap_int ((pageInt - 1) * limitInt) in
  (pageInt, limitInt, offset).

(** [Pagination] followed by [EventHandler.GetEvents]: the status and the
    events of the page. *)
Definition GetEvents (pageQuery limitQuery : option string) (s : Store)
  : Z * option (list Event.t) :=
  let '(_, limit, offset) := Pagination pageQuery limitQuery in
  match EventRepository.GetEvents limit offset s with
  | Err _ => (BookingHandler.StatusInternalServerError, None)
  | Ok events => (BookingHandler.StatusOK, Some events)
  end.

End middleware.

(** What a mutation returns: [None] for success, the error otherwise. *)
Definition returned_error (cfg : AppConfig) (m : Mutation) (s : Store)
  : option error :=
  match m with
  | hold now eventID seatNo =>
      match EventRepository.LockSeat now eventID seatNo s with
      | (Err e, _) => Some e
      | (Ok _, _) => None
      end
  | release now eventID seatNo => (EventRepository.UnlockSeat now eventID seatNo s).1
  | reclaim_stale now => (EventRepository.CleanupExpiredLocks cfg now s).1.1
  | book env request => (BookingRepository.BookTickets cfg env request s).1.2
  | confirm now now_db bookingID =>
      match BookingRepository.ConfirmBooking now now_db bookingID s with
      | (Err e, _) => Some e
      | (Ok _, _) => None
      end
  | cancel now_db bookingID =>
      match BookingRepository.CancelBooking now_db bookingID s with
      | (Err e, _) => Some e
      | (Ok _, _) => None
      end
  end.

(** The edge of the ticket state machine a mutation may take. *)
Definition edge (m : Mutation) (before after : TicketStatus) : Prop :=
  match m with
  | hold _ _ _ => before = TicketAvailable ∧ after = TicketLocked
  | release _ _ _ | reclaim_stale _ => before = TicketLocked ∧ after = TicketAvailable
  | book _ _ => before = TicketLocked ∧ after = TicketReserved
  | confirm _ _ _ => before = TicketReserved ∧ after = TicketSold
  | cancel _ _ =>
      (before = TicketReserved ∨ before = TicketSold) ∧ after = TicketAvailable
  end.

(** Every ticket that a ['pending'] booking names is ['reserved']. *)
Definition pending_reserved (s : Store) : Prop :=
  Forall (λ b, Booking.Status b = BookingPending →
               Forall (λ x, Ticket.ID x ∈ Booking.TicketIDs b →
                            Ticket.Status x = TicketReserved) (tickets s))
         (bookings s).

#[global] Instance pending_reserved_dec s : Decision (pending_reserved s).
Proof. unfold pending_reserved. apply _. Defined.

(* ================================================================== *)
(** * Properties *)

#[local] Arguments String.append : simpl nomatch.

(** Closed decidable facts about the example stores. *)
Ltac by_computation := apply (bool_decide_unpack _); vm_compute; exact I.

(** ** The array codec *)

Example parse_example : parseTicketIDs "{10,11,12}" = [10; 11; 12].
Proof. reflexivity. Qed.

Lemma string_app_assoc (a b c : string) : (a +:+ b) +:+ c = a +:+ (b +:+ c).
Proof. induction a as [|x a IH]; simpl; [done | by rewrite IH]. Qed.

Lemma string_app_empty_r (a : string) : a +:+ "" = a.
Proof. induction a as [|x a IH]; simpl; [done | by rewrite IH]. Qed.

Lemma string_app_length (a b : string) :
  String.length (a +:+ b) = (String.length a + String.length b)%nat.
Proof. induction a as [|x a IH]; simpl; [done | by rewrite IH]. Qed.

Lemma substring_whole_prefix (a b : string) :
  String.substring 0 (String.length a) (a +:+ b) = a.
Proof. induction a as [|x a IH]; simpl; [by destruct b | by rewrite IH]. Qed.

Lemma uint_string_all_digits (d : Decimal.uint) :
  all_digits (NilEmpty.string_of_uint d) = true.
Proof. induction d; simpl; auto. Qed.

Lemma uint_string_nonempty (d : Decimal.uint) :
  d ≠ Decimal.Nil → NilEmpty.string_of_uint d ≠ "".
Proof. destruct d; simpl; congruence. Qed.

(** The decimal rendering of a non-negative [int]. *)
Lemma itoa_nonneg (n : Z) :
  0 <= n →
  ∃ d, d ≠ Decimal.Nil ∧ itoa n = NilEmpty.string_of_uint d ∧ Z.of_uint d = n.
Proof.
  intros Hn. destruct n as [|p|p]; [| |lia].
  - exists (Decimal.D0 Decimal.Nil). by repeat split.
  - exists (Pos.to_uint p). split; [apply DecimalPos.Unsigned.to_uint_nonnil|].
    split.
    + unfold itoa, Z.to_int, NilZero.string_of_int, NilZero.string_of_uint.
      pose proof (DecimalPos.Unsigned.to_uint_nonnil p).
      by destruct (Pos.to_uint p).
    + unfold Z.of_uint. by rewrite DecimalPos.Unsigned.of_to.
Qed.

Lemma itoa_all_digits (n : Z) : 0 <= n → all_digits (itoa n) = true.
Proof.
  intros Hn. destruct (itoa_nonneg n Hn) as (d & _ & -> & _).
  apply uint_string_all_digits.
Qed.

Lemma itoa_nonempty (n : Z) : 0 <= n → itoa n ≠ "".
Proof.
  intros Hn. destruct (itoa_nonneg n Hn) as (d & Hd & -> & _).
  by apply uint_string_nonempty.
Qed.

Lemma Atoi_digit_first (c : ascii) (s : string) :
  is_digit c = true → Atoi (String c s) = Atoi_digits 1 (String c s).
Proof. by destruct c as [[] [] [] [] [] [] [] []]. Qed.

Lemma Atoi_itoa (n : Z) : 0 <= n <= MaxInt → Atoi (itoa n) = Some n.
Proof.
  intros [Hn Hmax]. destruct (itoa_nonneg n Hn) as (d & Hd & Hs & Hv).
  pose proof (uint_string_all_digits d) as Hall.
  pose proof (uint_string_nonempty d Hd) as Hne.
  pose proof (NilEmpty.usu d) as Husu.
  rewrite Hs. destruct (NilEmpty.string_of_uint d) as [|c s]; [done|].
  simpl in Hall. apply andb_prop in Hall as [Hc _].
  rewrite Atoi_digit_first by done.
  unfold Atoi_digits. rewrite Husu. cbv zeta. rewrite Z.mul_1_l, Hv.
  assert (Hr : (MinInt <=? n) && (n <=? MaxInt) = true).
  { apply andb_true_intro. split; apply Z.leb_le; [unfold MinInt|]; lia. }
  by rewrite Hr.
Qed.

Lemma parse_loop_digits (ds rest : string) (acc : list Z) (cur : string) :
  all_digits ds = true →
  parse_loop (ds +:+ rest) acc cur = parse_loop rest acc (cur +:+ ds).
Proof.
  revert cur. induction ds as [|c ds IH]; intros cur Hd; simpl in *.
  - by rewrite string_app_empty_r.
  - apply andb_prop in Hd as [Hc Hds]. rewrite Hc, IH by done.
    f_equal. rewrite string_app_assoc. done.
Qed.

Lemma joinInts_fold (sep : string) (l : list Z) (a b : string) :
  fold_left (λ result y, result +:+ sep +:+ itoa y) l (a +:+ b)
  = a +:+ fold_left (λ result y, result +:+ sep +:+ itoa y) l b.
Proof.
  revert b. induction l as [|y l IH]; intros b; simpl; [done|].
  by rewrite string_app_assoc, IH.
Qed.

Lemma joinInts_cons (sep : string) (x y : Z) (l : list Z) :
  joinInts (x :: y :: l) sep = itoa x +:+ sep +:+ joinInts (y :: l) sep.
Proof.
  unfold joinInts. simpl.
  rewrite joinInts_fold. f_equal.
  rewrite <- (joinInts_fold sep l sep (itoa y)). done.
Qed.

Lemma parse_loop_comma (rest : string) (acc : list Z) (cur : string) :
  cur ≠ "" →
  parse_loop (String "," rest) acc cur = parse_loop rest (append_parsed acc cur) "".
Proof.
  intros Hne. cbn [parse_loop]. change (is_digit ",") with false. cbv iota.
  rewrite Ascii.eqb_refl. by destruct (String.eqb_spec cur "").
Qed.

(** The loop of [parseTicketIDs] on the rendering of [x :: l]: every
    element but the last has been appended, the last is still in
    [currentNumber]. *)
Lemma parse_loop_joinInts (l : list Z) (x : Z) (acc : list Z) :
  Forall (λ id, 0 <= id <= MaxInt) (x :: l) →
  parse_loop (joinInts (x :: l) ",") acc ""
  = (acc ++ removelast (x :: l), itoa (List.last (x :: l) 0)).
Proof.
  revert x acc. induction l as [|y l IH]; intros x acc Hall.
  - inversion Hall as [|? ? Hx _]; subst.
    change (joinInts [x] ",") with (itoa x).
    rewrite <- (string_app_empty_r (itoa x)) at 1.
    rewrite parse_loop_digits by (apply itoa_all_digits; lia).
    change ("" +:+ itoa x) with (itoa x).
    cbn [parse_loop removelast List.last]. by rewrite app_nil_r.
  - inversion Hall as [|? ? Hx Hrest]; subst.
    rewrite joinInts_cons.
    rewrite parse_loop_digits by (apply itoa_all_digits; lia).
    change ("" +:+ itoa x) with (itoa x).
    change ("," +:+ joinInts (y :: l) ",") with (String "," (joinInts (y :: l) ",")).
    rewrite parse_loop_comma by (apply itoa_nonempty; lia).
    unfold append_parsed. rewrite Atoi_itoa by done.
    rewrite IH by done.
    change (removelast (x :: y :: l)) with (x :: removelast (y :: l)).
    change (List.last (x :: y :: l) 0) with (List.last (y :: l) 0).
    by rewrite <- app_assoc.
Qed.

Lemma joinInts_nonempty (x : Z) (l : list Z) :
  0 <= x → joinInts (x :: l) "," ≠ "".
Proof.
  intros Hx. destruct l as [|y l].
  - unfold joinInts. simpl. by apply itoa_nonempty.
  - rewrite joinInts_cons. intros He.
    apply (itoa_nonempty x Hx). by destruct (itoa x).
Qed.

Lemma parseTicketIDs_braced (body : string) :
  body ≠ "" →
  parseTicketIDs ("{" +:+ body +:+ "}")
  = let '(ticketIDs, currentNumber) := parse_loop body [] "" in
    if String.eqb currentNumber "" then ticketIDs
    else append_parsed ticketIDs currentNumber.
Proof.
  intros Hne. unfold parseTicketIDs.
  assert (Hlen : String.length ("{" +:+ body +:+ "}")
                 = S (String.length body + 1)).
  { simpl. by rewrite string_app_length. }
  rewrite Hlen.
  assert (Hpos : (0 < String.length body)%nat) by (destruct body; simpl; [done|lia]).
  destruct (Nat.ltb_spec (S (String.length body + 1)) 3); [lia|].
  replace (S (String.length body + 1) - 2)%nat with (String.length body) by lia.
  assert (Hsub : String.substring 1 (String.length body) ("{" +:+ body +:+ "}") = body).
  { simpl. apply substring_whole_prefix. }
  rewrite Hsub.
  destruct (Nat.eqb_spec (String.length body) 0); [lia|done].
Qed.

Lemma parseTicketIDs_pg_array_text (ids : list Z) :
  Forall (λ id, 0 <= id <= MaxInt) ids →
  parseTicketIDs (pg_array_text ids) = ids.
Proof.
  intros Hall. destruct ids as [|x l]; [done|].
  unfold pg_array_text.
  assert (Hx : 0 <= x) by (inversion Hall; lia).
  rewrite parseTicketIDs_braced by (by apply joinInts_nonempty).
  rewrite parse_loop_joinInts by done.
  destruct (String.eqb_spec (itoa (List.last (x :: l) 0)) "") as [He|_].
  { exfalso. revert He. apply itoa_nonempty.
    assert (Hin : In (List.last (x :: l) 0) (x :: l)).
    { destruct (exists_last (l := x :: l)) as (l' & a & Heq); [done|].
      rewrite Heq, last_last. apply in_or_app. right. by left. }
    rewrite List.Forall_forall in Hall. apply Hall in Hin. lia. }
  unfold append_parsed. rewrite Atoi_itoa.
  - rewrite app_nil_l. symmetry. by apply app_removelast_last.
  - assert (Hin : In (List.last (x :: l) 0) (x :: l)).
    { destruct (exists_last (l := x :: l)) as (l' & a & Heq); [done|].
      rewrite Heq, last_last. apply in_or_app. right. by left. }
    rewrite List.Forall_forall in Hall. by apply Hall in Hin.
Qed.

(** C10.  The codec round trip: parsing the array text of a non-empty list
    of non-negative [int]s gives the list back, and a text of fewer than
    three bytes parses to the empty list. *)
Theorem parseTicketIDs_roundtrip (ids : list Z) (short : string) :
  ids ≠ [] →
  Forall (λ id, 0 <= id <= MaxInt) ids →
  (String.length short < 3)%nat →
  parseTicketIDs ("{" +:+ joinInts ids "," +:+ "}") = ids
  ∧ parseTicketIDs short = [].
Proof.
  intros _ Hall Hshort. split.
  - by apply parseTicketIDs_pg_array_text.
  - unfold parseTicketIDs.
    by destruct (Nat.ltb_spec (String.length short) 3); [|lia].
Qed.

Lemma parseTicketIDs_roundtrip_witness :
  parseTicketIDs ("{" +:+ joinInts [10; 11; 12] "," +:+ "}") = [10; 11; 12]
  ∧ parseTicketIDs "{}" = [].
Proof.
  apply parseTicketIDs_roundtrip.
  - discriminate.
  - repeat constructor; vm_compute; discriminate.
  - simpl. lia.
Defined.

(** ** Statements of the store *)

Section update_where.
Context {R : Type} (P : R → Prop) `{!∀ r, Decision (P r)} (f : R → R).

Lemma update_where_lookup (rows : list R) (i : nat) :
  update_where P f rows !! i
  = (λ r, if decide (P r) then f r else r) <$> rows !! i.
Proof. unfold update_where. apply list_lookup_fmap. Qed.


Lemma update_where_elem (rows : list R) (r' : R) :
  r' ∈ update_where P f rows →
  ∃ r, r ∈ rows ∧ r' = (if decide (P r) then f r else r).
Proof.
  unfold update_where. intros (r & -> & Hr)%list_elem_of_fmap. eauto.
Qed.

Lemma update_where_length (rows : list R) :
  length (update_where P f rows) = length rows.
Proof. unfold update_where. apply length_fmap. Qed.
End update_where.

Lemma filter_none {R} (P : R → Prop) `{!∀ r, Decision (P r)} (rows : list R) :
  (∀ r, r ∈ rows → ¬ P r) → filter P rows = [].
Proof.
  intros Hno. induction rows as [|r rows IH]; [done|].
  rewrite filter_cons, decide_False by (apply Hno; left).
  apply IH. intros r' Hr'. apply Hno. by right.
Qed.

Lemma set_seq_same (s : Store) : set_seq (bookings_id_seq s) s = s.
Proof. by destruct s. Qed.

Lemma rollback_same (s : Store) : rollback s s = s.
Proof. apply set_seq_same. Qed.

(** ** Release *)



(** ** Stale-hold reclaim *)

Lemma lockDurationMinutes_whole (cfg : AppConfig) (k : Z) :
  SeatLockDuration cfg = k * Minute →
  EventRepository.lockDurationMinutes cfg * Minute = SeatLockDuration cfg.
Proof.
  intros Hk. unfold EventRepository.lockDurationMinutes. rewrite Hk.
  by rewrite Z.quot_mul.
Qed.

(** C8, as the code has it.  When the hold lifetime is a whole number of
    minutes, [CleanupExpiredLocks] sets exactly the tickets that are
    ['locked'] and whose [updated_at] is older than the lifetime to
    ['available'] and leaves every other row unchanged; it returns the
    [nil] error and no count: the number of tickets reclaimed goes to the
    log, and only when it is positive. *)
Theorem CleanupExpiredLocks_reclaims (cfg : AppConfig) (now k : Z) (s : Store)
    (i : nat) (x : Ticket.t) :
  SeatLockDuration cfg = k * Minute →
  tickets s !! i = Some x →
  let stale := λ y, Ticket.Status y = TicketLocked
                    ∧ Ticket.UpdatedAt y < now - SeatLockDuration cfg in
  let '(err, logged, s') := EventRepository.CleanupExpiredLocks cfg now s in
  err = None
  ∧ tickets s' !! i
    = Some (if decide (stale x) then Ticket.set_status TicketAvailable now x
            else x)
  ∧ length (tickets s') = length (tickets s)
  ∧ users s' = users s ∧ events s' = events s ∧ bookings s' = bookings s
  ∧ logged = (if 0 <? count_where stale (tickets s)
              then Some (count_where stale (tickets s)) else None).
Proof.
  intros Hk Hx stale. cbn.
  pose proof (lockDurationMinutes_whole cfg k Hk) as Hm.
  assert (Hiff : ∀ y, EventRepository.is_expired_lock cfg now y ↔ stale y).
  { intros y. unfold EventRepository.is_expired_lock, stale. by rewrite Hm. }
  assert (Hcount : rows_affected (EventRepository.is_expired_lock cfg now) (tickets s)
                   = count_where stale (tickets s)).
  { unfold rows_affected, count_where. do 2 f_equal.
    apply list_filter_iff. intros y. apply Hiff. }
  split_and!; try done.
  - rewrite update_where_lookup, Hx. cbn. f_equal.
    destruct (decide (EventRepository.is_expired_lock cfg now x)) as [H1|H1],
             (decide (stale x)) as [H2|H2]; try done.
    + by apply Hiff in H1.
    + by apply Hiff in H2.
  - apply update_where_length.
  - by rewrite Hcount.
Qed.

Lemma CleanupExpiredLocks_reclaims_witness :
  let '(err, logged, s') :=
    EventRepository.CleanupExpiredLocks example_cfg (5 + 4 * Minute) example_held in
  err = None ∧ logged = Some 1
  ∧ tickets s' !! 1%nat
    = Some (example_ticket 2 "S002" TicketAvailable (5 + 4 * Minute)).
Proof.
  pose proof (CleanupExpiredLocks_reclaims example_cfg (5 + 4 * Minute) 3
                example_held 1 (example_ticket 2 "S002" TicketLocked 5)
                eq_refl eq_refl) as H.
  cbv zeta in H.
  destruct (EventRepository.CleanupExpiredLocks example_cfg (5 + 4 * Minute)
              example_held) as [[err logged] s'].
  destruct H as (H1 & H2 & _ & _ & _ & _ & H7).
  split_and!; [exact H1 | exact H7 | exact H2].
Defined.

(** C8, as stated, fails.  With a hold lifetime of 90 seconds the code
    reclaims the holds older than one minute: a seat held for 70 seconds is
    not older than the lifetime, and is reclaimed.  And what is returned is
    the [nil] error, not the count (here 1) of the tickets reclaimed. *)
Lemma CleanupExpiredLocks_not_as_stated :
  let cfg := {| SeatLockDuration := 90 * Second; BookingExpiration := 15 * Minute |} in
  let x := example_ticket 1 "S001" TicketLocked 0 in
  let s := mkStore [] [] [x] [] 0 in
  let now := 70 * Second in
  ¬ (Ticket.UpdatedAt x < now - SeatLockDuration cfg)
  ∧ EventRepository.CleanupExpiredLocks cfg now s
    = (None, Some 1, mkStore [] [] [example_ticket 1 "S001" TicketAvailable now] [] 0).
Proof. split; [vm_compute; discriminate | reflexivity]. Qed.

(** ** The retry loop around a transaction *)

Section retry_invariant.
Context {W : Type} (maxRetries : Z).
Context (fn wait : W → option error * W) (I : W → Prop).
Hypothesis fn_fails : ∀ w e w', I w → fn w = (Some e, w') → I w'.
Hypothesis wait_keeps : ∀ w r w', I w → wait w = (r, w') → I w'.

(** A property that failed attempts and waits keep holds when the loop
    gives up, and held just before the attempt that succeeded. *)
Lemma retry_loop_invariant (n : nat) (i : Z) (err : option error) (w : W) :
  I w →
  match retry_loop maxRetries fn wait n i err w with
  | (None, w') => ∃ w0, I w0 ∧ fn w0 = (None, w')
  | (Some _, w') => I w'
  end.
Proof.
  revert i err w. induction n as [|n IH]; intros i err w Hw; cbn; [done|].
  destruct (fn w) as [[e|] w1] eqn:Hfn; [|by eauto].
  assert (Hw1 : I w1) by eauto.
  destruct (negb (isRetryableError e)); [done|].
  destruct (i <? maxRetries).
  - destruct (wait w1) as [[ce|] w2] eqn:Hwait.
    + eauto.
    + apply IH. eauto.
  - by apply IH.
Qed.
End retry_invariant.

Lemma same_tables_refl (s : Store) : same_tables s s.
Proof. done. Qed.

Lemma same_tables_rollback (s s0 s1 : Store) :
  same_tables s s0 → same_tables s (rollback s0 s1).
Proof. by intros (?&?&?&?). Qed.

Lemma WithTransaction_Err {A} (fn : Tx A) (s s' : Store) (e : error) :
  WithTransaction fn s = (Err e, s') → same_tables s s'.
Proof.
  unfold WithTransaction. destruct (fn s) as [[a|e'] s1]; [done|].
  intros [= _ <-]. done.
Qed.

(** [BookTickets] either fails and leaves the tables as they were, or
    commits exactly one run of [bookTicketsWithLock], started on the tables
    as they were. *)
Lemma BookTickets_cases (cfg : AppConfig) (env : BookingRepository.Env)
    (request : BookingRequest.t) (s : Store) :
  match BookingRepository.BookTickets cfg env request s with
  | (ob, None, s') =>
      ∃ k s0 b, same_tables s s0 ∧ ob = Some b
        ∧ BookingRepository.bookTicketsWithLock cfg
            (BookingRepository.clocks env k) request s0 = (Ok b, s')
  | (ob, Some _, s') => same_tables s s' ∧ ob = None
  end.
Proof.
  unfold BookingRepository.BookTickets, WithRetry.
  pose (I := λ w, same_tables s (BookingRepository.rs_store w)
                  ∧ BookingRepository.rs_booking w = None).
  pose proof (retry_loop_invariant 3 (BookingRepository.attempt cfg env request)
                (BookingRepository.wait env) I) as Hinv.
  specialize (Hinv ltac:(
    intros w e w' [Hs Hb]; unfold BookingRepository.attempt;
    destruct (WithTransaction _ _) as [[b|e'] s1] eqn:Htx; [done|];
    intros [= _ <-]; split; [|done]; cbn;
    apply WithTransaction_Err in Htx; destruct Hs as (?&?&?&?), Htx as (?&?&?&?);
    repeat split; congruence)).
  specialize (Hinv ltac:(by intros w r w' [Hs Hb] [= _ <-])).
  specialize (Hinv (Z.to_nat (3 + 1)) 0 None
                (BookingRepository.mkRetry s None 0 0) ltac:(done)).
  destruct (retry_loop _ _ _ _ _ _ _) as [[e|] w'].
  - done.
  - destruct Hinv as (w0 & [Hs Hb] & Hfn).
    unfold BookingRepository.attempt, WithTransaction in Hfn.
    destruct (BookingRepository.bookTicketsWithLock _ _ _ _) as [[b|e'] s1] eqn:Htx;
      [|done].
    injection Hfn as <-.
    cbn [BookingRepository.rs_booking BookingRepository.rs_store].
    exists (BookingRepository.rs_attempts w0), (BookingRepository.rs_store w0), b.
    by split_and!.
Qed.

(** The first attempt decides when its error is not one to retry on. *)
Lemma BookTickets_fails_at_once (cfg : AppConfig) (env : BookingRepository.Env)
    (request : BookingRequest.t) (s : Store) (e : error) :
  BookingRepository.bookTicketsWithLock cfg (BookingRepository.clocks env 0)
    request s = (Err e, s) →
  isRetryableError e = false →
  BookingRepository.BookTickets cfg env request s = (None, Some e, s).
Proof.
  intros Htx Hre. unfold BookingRepository.BookTickets, WithRetry.
  change (Z.to_nat (3 + 1)) with 4%nat. cbn [retry_loop].
  assert (Ha : BookingRepository.attempt cfg env request
                 (BookingRepository.mkRetry s None 0 0)
               = (Some e, BookingRepository.mkRetry s None 1 0)).
  { unfold BookingRepository.attempt, WithTransaction.
    cbn [BookingRepository.rs_store BookingRepository.rs_attempts
         BookingRepository.rs_waits].
    by rewrite Htx, rollback_same. }
  by rewrite Ha, Hre.
Qed.

Lemma GetEvent_Ok (eventID : Z) (s : Store) (event : Event.t) :
  EventRepository.GetEvent eventID s = Ok event →
  query_row (λ e, Event.ID e = eventID) (events s) = Some event.
Proof.
  unfold EventRepository.GetEvent. destruct (is_int4 eventID); [|done].
  by destruct (query_row _ _); intros [= ->].
Qed.

Lemma GetEvent_Ok_int4 (eventID : Z) (s : Store) (event : Event.t) :
  EventRepository.GetEvent eventID s = Ok event → is_int4 eventID = true.
Proof. unfold EventRepository.GetEvent. by destruct (is_int4 eventID). Qed.

(** ** Booking after the start of the event *)

Lemma bookTicketsWithLock_started (cfg : AppConfig) (clk : BookingRepository.Clock)
    (request : BookingRequest.t) (s : Store) (event : Event.t) :
  EventRepository.GetEvent (BookingRequest.EventID request) s = Ok event →
  Event.StartTime event < BookingRepository.now_check clk →
  BookingRepository.bookTicketsWithLock cfg clk request s
  = (Err (ErrNew "event has already started"), s).
Proof.
  intros Hev Hlt. pose proof (GetEvent_Ok_int4 _ _ _ Hev) as Hr.
  apply GetEvent_Ok in Hev.
  unfold BookingRepository.bookTicketsWithLock, tx_bind, tx_get.
  rewrite Hr, Hev. by destruct (Z.ltb_spec (Event.StartTime event)
                              (BookingRepository.now_check clk)); [|lia].
Qed.

(** C6, as the code has it.  A request for an existing event made strictly
    after its start time fails with "event has already started" at the
    first attempt, changes nothing, and the endpoint answers 400; one
    second after the start is such a time. *)
Theorem BookTickets_event_started (cfg : AppConfig) (env : BookingRepository.Env)
    (request : BookingRequest.t) (s : Store) (event : Event.t) :
  EventRepository.GetEvent (BookingRequest.EventID request) s = Ok event →
  Event.StartTime event < BookingRepository.now_check (BookingRepository.clocks env 0) →
  BookingRepository.BookTickets cfg env request s
  = (None, Some (ErrNew "event has already started"), s)
  ∧ (BookingHandler.valid_request request = true →
     BookingHandler.BookTickets cfg env request s
     = (BookingHandler.StatusBadRequest, Some "event has already started", s)).
Proof.
  intros Hev Hlt.
  assert (Hb : BookingRepository.BookTickets cfg env request s
               = (None, Some (ErrNew "event has already started"), s)).
  { apply BookTickets_fails_at_once; [|done].
    by apply bookTicketsWithLock_started with event. }
  split; [done|]. intros Hvalid.
  unfold BookingHandler.BookTickets. by rewrite Hvalid, Hev, Hb.
Qed.

Lemma BookTickets_event_started_witness :
  let now := Event.StartTime example_event + Second in
  BookingRepository.BookTickets example_cfg (example_env now)
    (BookingRequest.mk 1 1 1) example_held
  = (None, Some (ErrNew "event has already started"), example_held).
Proof.
  exact (proj1 (BookTickets_event_started example_cfg
                  (example_env (Event.StartTime example_event + Second))
                  (BookingRequest.mk 1 1 1) example_held example_event
                  eq_refl eq_refl)).
Defined.

(** C6, as stated, fails at the start time itself: the check is
    [time.Now().After(event.StartTime)], and a request made at exactly
    the start time is served. *)
Lemma BookTickets_at_start_time :
  let now := Event.StartTime example_event in
  now >= Event.StartTime example_event
  ∧ ∃ b s', BookingRepository.BookTickets example_cfg (example_env now)
              (BookingRequest.mk 1 1 1) example_held = (Some b, None, s').
Proof. split; [vm_compute; discriminate|]. do 2 eexists. vm_compute. reflexivity. Qed.

(** ** Booking without enough held seats *)

Lemma select_locked_length (eventID quantity : Z) (rows : list Ticket.t) :
  Z.of_nat (length (BookingRepository.select_locked eventID quantity rows))
  = Z.min (Z.max 0 quantity)
          (count_where (BookingRepository.is_locked_of eventID) rows).
Proof.
  unfold BookingRepository.select_locked, count_where.
  rewrite length_take.
  rewrite (Permutation_length (merge_sort_Permutation seat_le _)).
  lia.
Qed.

Lemma bookTicketsWithLock_insufficient (cfg : AppConfig)
    (clk : BookingRepository.Clock) (request : BookingRequest.t) (s : Store)
    (event : Event.t) :
  let found := count_where (BookingRepository.is_locked_of
                              (BookingRequest.EventID request)) (tickets s) in
  EventRepository.GetEvent (BookingRequest.EventID request) s = Ok event →
  BookingRepository.now_check clk <= Event.StartTime event →
  0 <= BookingRequest.Quantity request →
  found < BookingRequest.Quantity request →
  BookingRepository.bookTicketsWithLock cfg clk request s
  = (Err (ErrNew (BookingRepository.insufficient_message
                    found (BookingRequest.Quantity request))), s).
Proof.
  intros found Hev Hle Hq Hfound. pose proof (GetEvent_Ok_int4 _ _ _ Hev) as Hr.
  apply GetEvent_Ok in Hev.
  unfold BookingRepository.bookTicketsWithLock, tx_bind, tx_get.
  rewrite Hr, Hev.
  destruct (Z.ltb_spec (Event.StartTime event) (BookingRepository.now_check clk));
    [lia|].
  destruct (Z.ltb_spec (BookingRequest.Quantity request) 0); [lia|].
  rewrite length_fmap, select_locked_length.
  fold found.
  replace (Z.min (Z.max 0 (BookingRequest.Quantity request)) found) with found
    by lia.
  by destruct (Z.ltb_spec found (BookingRequest.Quantity request)); [|lia].
Qed.

(** The message for [found < need <= 10] is neither an error to retry on
    nor one the endpoint maps to 400. *)
Lemma insufficient_message_status (found need : Z) :
  0 <= found < need → need <= 10 →
  isRetryableError (ErrNew (BookingRepository.insufficient_message found need)) = false
  ∧ BookingHandler.error_status
      (ErrNew (BookingRepository.insufficient_message found need))
    = BookingHandler.StatusInternalServerError.
Proof.
  intros Hf Hn.
  assert (Hall : Forall (λ f, Forall (λ n,
            isRetryableError (ErrNew (BookingRepository.insufficient_message f n)) = false
            ∧ BookingHandler.error_status
                (ErrNew (BookingRepository.insufficient_message f n))
              = BookingHandler.StatusInternalServerError)
            (seqZ 1 10)) (seqZ 0 10)).
  { by_computation. }
  rewrite Forall_forall in Hall.
  specialize (Hall found ltac:(apply elem_of_seqZ; lia)).
  rewrite Forall_forall in Hall.
  apply Hall. apply elem_of_seqZ. lia.
Qed.

Lemma valid_request_quantity (request : BookingRequest.t) :
  BookingHandler.valid_request request = true →
  1 <= BookingRequest.Quantity request <= 10.
Proof.
  unfold BookingHandler.valid_request.
  intros H. repeat (apply andb_prop in H as [H ?]). lia.
Qed.

(** C3.  A valid request for an existing event that has not started, with
    fewer held seats than the quantity asked for, fails at the first
    attempt with the message that names the number found and the number
    needed, and nothing changes in the store; but the endpoint answers 500,
    not 400: it looks for "insufficient tickets" in a message that says
    "insufficient locked seats". *)
Theorem BookTickets_insufficient_held (cfg : AppConfig)
    (env : BookingRepository.Env) (request : BookingRequest.t) (s : Store)
    (event : Event.t) :
  let found := count_where (BookingRepository.is_locked_of
                              (BookingRequest.EventID request)) (tickets s) in
  let msg := BookingRepository.insufficient_message
               found (BookingRequest.Quantity request) in
  BookingHandler.valid_request request = true →
  EventRepository.GetEvent (BookingRequest.EventID request) s = Ok event →
  BookingRepository.now_check (BookingRepository.clocks env 0)
    <= Event.StartTime event →
  found < BookingRequest.Quantity request →
  BookingRepository.BookTickets cfg env request s = (None, Some (ErrNew msg), s)
  ∧ BookingHandler.BookTickets cfg env request s
    = (BookingHandler.StatusInternalServerError, Some msg, s).
Proof.
  intros found msg Hvalid Hev Hle Hfound.
  pose proof (valid_request_quantity request Hvalid) as Hq.
  assert (Hfound0 : 0 <= found) by (unfold found, count_where; lia).
  destruct (insufficient_message_status found (BookingRequest.Quantity request))
    as [Hre Hst]; [lia..|].
  assert (Hb : BookingRepository.BookTickets cfg env request s
               = (None, Some (ErrNew msg), s)).
  { apply BookTickets_fails_at_once; [|done].
    apply bookTicketsWithLock_insufficient with event; [done..|lia|done]. }
  split; [done|].
  unfold BookingHandler.BookTickets. rewrite Hvalid, Hev, Hb. cbn [negb].
  subst msg. by rewrite Hst.
Qed.

Lemma BookTickets_insufficient_held_witness :
  BookingHandler.BookTickets example_cfg (example_env 10)
    (BookingRequest.mk 1 1 3) example_store
  = (500, Some "insufficient locked seats for booking. Found 0 locked seats, need 3. Please select seats first",
     example_store).
Proof.
  exact (proj2 (BookTickets_insufficient_held example_cfg (example_env 10)
                  (BookingRequest.mk 1 1 3) example_store example_event
                  eq_refl eq_refl ltac:(vm_compute; discriminate) eq_refl)).
Defined.

(** ** Confirm *)

Lemma NoDup_included_same_length {A} (l k : list A) :
  NoDup l → (∀ x, x ∈ l → x ∈ k) → length l = length k → ∀ x, x ∈ k → x ∈ l.
Proof.
  intros Hnd Hsub Hlen x Hx.
  assert (Hperm : l ≡ₚ k).
  { apply submseteq_length_Permutation; [|lia].
    by apply NoDup_submseteq. }
  by rewrite Hperm.
Qed.

(** When the rows of the given ids that are in status [st] are as many as
    the ids, every id has such a row (ids are a primary key). *)
Lemma all_ids_matched (rows : list Ticket.t) (ids : list Z) (st : TicketStatus) :
  NoDup (Ticket.ID <$> rows) →
  count_where (λ x, Ticket.ID x ∈ ids ∧ Ticket.Status x = st) rows
  = Z.of_nat (length ids) →
  ∀ id, id ∈ ids → ∃ x, x ∈ rows ∧ Ticket.ID x = id ∧ Ticket.Status x = st.
Proof.
  intros Hnd Hcount id Hid.
  set (P := λ x, Ticket.ID x ∈ ids ∧ Ticket.Status x = st) in *.
  assert (Hin : id ∈ Ticket.ID <$> filter P rows).
  { apply (NoDup_included_same_length _ ids); [| | |done].
    - eapply sublist_NoDup; [exact Hnd|].
      apply fmap_sublist, sublist_filter.
    - intros y (x & -> & Hx)%list_elem_of_fmap.
      by apply list_elem_of_filter in Hx as [[? _] _].
    - rewrite length_fmap. unfold count_where in Hcount. lia. }
  apply list_elem_of_fmap in Hin as (x & -> & Hx).
  apply list_elem_of_filter in Hx as [[_ Hst] Hx]. eauto.
Qed.

Lemma key_unique {R K : Type} (key : R → K) (rows : list R) (x y : R) :
  NoDup (key <$> rows) → x ∈ rows → y ∈ rows → key x = key y → x = y.
Proof.
  induction rows as [|r rows IH]; [by intros _ ?%elem_of_nil|].
  rewrite fmap_cons, NoDup_cons. intros [Hr Hnd] Hx Hy Hk.
  apply elem_of_cons in Hx as [->|Hx], Hy as [->|Hy]; [done| | |by apply IH].
  - exfalso. apply Hr. rewrite Hk. by apply list_elem_of_fmap_2.
  - exfalso. apply Hr. rewrite <- Hk. by apply list_elem_of_fmap_2.
Qed.

Lemma query_row_Some {R} (P : R → Prop) `{!∀ r, Decision (P r)}
    (rows : list R) (r : R) :
  query_row P rows = Some r → r ∈ rows ∧ P r.
Proof.
  unfold query_row. intros Hh%head_Some_elem_of.
  apply list_elem_of_filter in Hh. tauto.
Qed.

Lemma query_row_update_where {R} (P : R → Prop) `{!∀ r, Decision (P r)}
    (f : R → R) (rows : list R) (r : R) :
  (∀ x, P x → P (f x)) →
  query_row P rows = Some r →
  query_row P (update_where P f rows) = Some (f r).
Proof.
  intros Hf. unfold query_row, update_where.
  induction rows as [|x rows IH]; [done|].
  rewrite fmap_cons, !filter_cons.
  destruct (decide (P x)) as [Hx|Hx].
  - rewrite decide_True by auto. cbn. by intros [= ->].
  - rewrite decide_False by done. apply IH.
Qed.

(** C4.  [ConfirmBooking] on an existing booking: it is rejected when the
    status is not ['pending'], and when [now] is strictly after
    [expires_at]; otherwise it fails with "some tickets could not be
    confirmed" when the tickets of the booking found ['reserved'] are not as
    many as [ticket_ids]; otherwise it succeeds, every ticket of
    [ticket_ids] was ['reserved'] and is now ['sold'], no other row of
    [tickets] or [events] changes, and the booking is ['confirmed']: the
    row of this id read back has status ['confirmed'] and the ticket ids,
    user, event, quantity and expiry it had, and so has every row of
    [bookings] with this id.  A rejected or failed call leaves the store as
    it was. *)
Theorem ConfirmBooking_transitions (now now_db bookingID : Z) (s : Store)
    (booking : Booking.t) :
  let ids := Booking.TicketIDs booking in
  let reserved := λ x, Ticket.ID x ∈ ids ∧ Ticket.Status x = TicketReserved in
  let r := BookingRepository.ConfirmBooking now now_db bookingID s in
  NoDup (Ticket.ID <$> tickets s) →
  Forall (λ id, 0 <= id <= MaxInt) ids →
  query_row (BookingRepository.is_booking bookingID) (bookings s) = Some booking →
  (Booking.Status booking ≠ BookingPending →
   r = (Err (ErrNew "booking is not in pending status"), s))
  ∧ (Booking.Status booking = BookingPending → Booking.ExpiresAt booking < now →
     r = (Err (ErrNew "booking has expired"), s))
  ∧ (Booking.Status booking = BookingPending → now <= Booking.ExpiresAt booking →
     count_where reserved (tickets s) ≠ Z.of_nat (length ids) →
     r = (Err (ErrNew "some tickets could not be confirmed"), s))
  ∧ (Booking.Status booking = BookingPending → now <= Booking.ExpiresAt booking →
     count_where reserved (tickets s) = Z.of_nat (length ids) →
     ∃ s', r = (Ok tt, s')
       ∧ (∀ id, id ∈ ids →
          ∃ x, x ∈ tickets s ∧ Ticket.ID x = id
               ∧ Ticket.Status x = TicketReserved
               ∧ Ticket.set_status TicketSold now_db x ∈ tickets s')
       ∧ tickets s' = update_where reserved (Ticket.set_status TicketSold now_db)
                        (tickets s)
       ∧ events s' = events s ∧ users s' = users s
       ∧ bookings s' = update_where (BookingRepository.is_booking bookingID)
                         (Booking.set_status BookingConfirmed now_db) (bookings s)
       ∧ query_row (BookingRepository.is_booking bookingID) (bookings s')
         = Some (Booking.set_status BookingConfirmed now_db booking)
       ∧ (∀ id, id ∈ ids →
          ∃ y, y ∈ tickets s' ∧ Ticket.ID y = id
               ∧ Ticket.Status y = TicketSold)
       ∧ (∀ y, y ∈ tickets s' → Ticket.ID y ∈ ids →
          Ticket.Status y = TicketSold)
       ∧ (∃ b', query_row (BookingRepository.is_booking bookingID) (bookings s')
                = Some b'
                ∧ Booking.Status b' = BookingConfirmed
                ∧ Booking.ID b' = bookingID
                ∧ Booking.TicketIDs b' = ids
                ∧ Booking.UserID b' = Booking.UserID booking
                ∧ Booking.EventID b' = Booking.EventID booking
                ∧ Booking.Quantity b' = Booking.Quantity booking
                ∧ Booking.ExpiresAt b' = Booking.ExpiresAt booking)
       ∧ (∀ b', b' ∈ bookings s' → Booking.ID b' = bookingID →
          Booking.Status b' = BookingConfirmed)).
Proof.
  intros ids reserved r Hnd Hrange Hq.
  assert (Hparse : parseTicketIDs (pg_array_text (Booking.TicketIDs booking)) = ids)
    by (by apply parseTicketIDs_pg_array_text).
  subst r. unfold BookingRepository.ConfirmBooking, WithTransaction,
    BookingRepository.confirmBookingTx, tx_bind, tx_get, tx_modify, tx_fail.
  rewrite Hq, Hparse. fold reserved.
  assert (Hcount : rows_affected reserved (tickets s)
                   = count_where reserved (tickets s)) by done.
  rewrite Hcount.
  split_and!.
  - intros Hst. rewrite decide_True by done. by rewrite rollback_same.
  - intros Hst Hexp. rewrite decide_False by (by intros ?).
    destruct (Z.ltb_spec (Booking.ExpiresAt booking) now); [|lia].
    by rewrite rollback_same.
  - intros Hst Hexp Hne. rewrite decide_False by (by intros ?).
    destruct (Z.ltb_spec (Booking.ExpiresAt booking) now); [lia|].
    destruct (Z.eqb_spec (count_where reserved (tickets s))
                (Z.of_nat (length ids))); [done|].
    cbn. unfold rollback. cbn. by rewrite set_seq_same.
  - intros Hst Hexp Heq. rewrite decide_False by (by intros ?).
    destruct (Z.ltb_spec (Booking.ExpiresAt booking) now); [lia|].
    destruct (Z.eqb_spec (count_where reserved (tickets s))
                (Z.of_nat (length ids))); [|done].
    cbn. eexists. split; [done|]. cbn. split_and!; try done.
    + intros id Hid.
      destruct (all_ids_matched (tickets s) ids TicketReserved Hnd Heq id Hid)
        as (x & Hx & Hidx & Hstx).
      exists x. split_and!; try done.
      unfold update_where. apply list_elem_of_fmap. exists x. split; [|done].
      rewrite decide_True; [done|]. split; [by rewrite Hidx|done].
    + by apply query_row_update_where.
    + intros id Hid.
      destruct (all_ids_matched (tickets s) ids TicketReserved Hnd Heq id Hid)
        as (x & Hx & Hidx & Hstx).
      exists (Ticket.set_status TicketSold now_db x). split_and!; try done.
      unfold update_where. apply list_elem_of_fmap. exists x. split; [|done].
      rewrite decide_True; [done|]. split; [by rewrite Hidx|done].
    + intros y Hy Hidy. unfold update_where in Hy.
      apply list_elem_of_fmap in Hy as (x & -> & Hx).
      destruct (decide (reserved x)) as [Hrx|Hrx]; [done|].
      destruct (all_ids_matched (tickets s) ids TicketReserved Hnd Heq _ Hidy)
        as (x' & Hx' & Hidx' & Hstx').
      assert (x' = x) as ->
        by (by apply (key_unique Ticket.ID (tickets s))).
      by destruct Hrx.
    + exists (Booking.set_status BookingConfirmed now_db booking).
      split; [by apply query_row_update_where|].
      apply query_row_Some in Hq as [_ Hidb].
      by split_and!.
    + intros b' Hb' Hidb'. unfold update_where in Hb'.
      apply list_elem_of_fmap in Hb' as (b & -> & Hb).
      by destruct (decide (BookingRepository.is_booking bookingID b)).
Qed.

Lemma ConfirmBooking_transitions_witness :
  ∃ s', BookingRepository.ConfirmBooking 20 21 1 example_booked = (Ok tt, s')
        ∧ tickets s' !! 1%nat = Some (example_ticket 2 "S002" TicketSold 21)
        ∧ query_row (BookingRepository.is_booking 1) (bookings s')
          = Some (Booking.set_status BookingConfirmed 21 example_booking)
        ∧ Ticket.Status <$> tickets s'
          = [TicketAvailable; TicketSold; TicketAvailable]
        ∧ (∃ b', query_row (BookingRepository.is_booking 1) (bookings s')
                 = Some b'
                 ∧ Booking.Status b' = BookingConfirmed
                 ∧ Booking.TicketIDs b' = [2])
        ∧ (∀ b', b' ∈ bookings s' → Booking.ID b' = 1 →
           Booking.Status b' = BookingConfirmed).
Proof.
  pose proof (ConfirmBooking_transitions 20 21 1 example_booked example_booking) as H.
  cbv zeta in H.
  destruct H as (_ & _ & _ & H); [ by_computation
                               | repeat constructor; vm_compute; discriminate
                               | reflexivity |].
  destruct H as (s' & Hr & _ & Ht & _ & _ & _ & Hb & _ & _ & Hc & Hall);
    [reflexivity | vm_compute; discriminate | reflexivity |].
  exists s'. split_and!; [exact Hr | by rewrite Ht | exact Hb | by rewrite Ht
                         | | exact Hall].
  destruct Hc as (b' & Hq & Hst & _ & Hids & _). by exists b'.
Defined.

(** ** Occurrence of a text in a message *)

Lemma string_app_cons (c : ascii) (a b : string) :
  String c a +:+ b = String c (a +:+ b).
Proof. done. Qed.

Lemma substring_skip (n m : nat) (c : ascii) (s : string) :
  String.substring (S n) m (String c s) = String.substring n m s.
Proof. done. Qed.

Lemma substring_at (pre sub post : string) :
  String.substring (String.length pre) (String.length sub) (pre +:+ sub +:+ post)
  = sub.
Proof.
  induction pre as [|c pre IH].
  - change ("" +:+ sub +:+ post) with (sub +:+ post).
    apply substring_whole_prefix.
  - rewrite string_app_cons. cbn [String.length]. by rewrite substring_skip.
Qed.

Lemma substring_head_split (m : nat) (s : string) :
  (m ≤ String.length s)%nat →
  ∃ post, s = String.substring 0 m s +:+ post.
Proof.
  revert s. induction m as [|m IH]; intros s Hm.
  - exists s. by destruct s.
  - destruct s as [|c s]; cbn [String.length] in Hm; [lia|].
    destruct (IH s ltac:(lia)) as (post & Hpost).
    exists post. cbn [String.substring]. rewrite string_app_cons. by f_equal.
Qed.

Lemma substring_split (i m : nat) (s : string) :
  (i + m ≤ String.length s)%nat →
  ∃ pre post, s = pre +:+ String.substring i m s +:+ post.
Proof.
  revert s. induction i as [|i IH]; intros s Him.
  - destruct (substring_head_split m s ltac:(lia)) as (post & Hpost).
    by exists "", post.
  - destruct s as [|c s]; cbn [String.length] in Him; [lia|].
    destruct (IH s ltac:(lia)) as (pre & post & Hs).
    exists (String c pre), post. rewrite substring_skip, string_app_cons. by f_equal.
Qed.

Lemma findSubstring_spec (s substr : string) :
  findSubstring s substr = true ↔ ∃ pre post, s = pre +:+ substr +:+ post.
Proof.
  unfold findSubstring. split.
  - destruct (Nat.leb_spec (String.length substr) (String.length s)) as [Hle|];
      [|done].
    intros (i & Hi & Heq)%List.existsb_exists.
    apply in_seq in Hi. apply String.eqb_eq in Heq.
    destruct (substring_split i (String.length substr) s ltac:(lia))
      as (pre & post & Hs).
    exists pre, post. by rewrite Heq in Hs.
  - intros (pre & post & ->).
    rewrite !string_app_length.
    destruct (Nat.leb_spec (String.length substr)
                (String.length pre + (String.length substr + String.length post)));
      [|lia].
    apply List.existsb_exists. exists (String.length pre). split.
    + apply in_seq. lia.
    + apply String.eqb_eq, substring_at.
Qed.

Lemma string_length_zero (s : string) : String.length s = 0%nat → s = "".
Proof. by destruct s. Qed.

Lemma contains_occurs (s substr : string) :
  contains s substr = true ↔ ∃ pre post, s = pre +:+ substr +:+ post.
Proof.
  unfold contains. split.
  - intros [Hle [Heq|[Hlt Hfind]%andb_prop]%orb_prop]%andb_prop.
    + apply String.eqb_eq in Heq as ->. exists "", "".
      by rewrite string_app_empty_r.
    + by apply findSubstring_spec.
  - intros (pre & post & Hs).
    assert (Hlen : String.length s
                   = (String.length pre + (String.length substr + String.length post))%nat)
      by (by rewrite Hs, !string_app_length).
    apply andb_true_intro. split; [apply Nat.leb_le; lia|].
    apply orb_true_intro.
    destruct (decide (String.length pre + String.length post = 0)%nat) as [Hz|Hnz].
    + left. apply String.eqb_eq.
      assert (pre = "") as -> by (apply string_length_zero; lia).
      assert (post = "") as -> by (apply string_length_zero; lia).
      by rewrite Hs, string_app_empty_r.
    + right. apply andb_true_intro. split; [apply Nat.ltb_lt; lia|].
      apply findSubstring_spec. eauto.
Qed.

(** ** The retry loop *)

(** What [isRetryableError] decides, said without it: an error is retried
    exactly when its message carries one of the six texts.  The test is on
    the text of the message alone. *)
Lemma isRetryableError_marked (e : error) :
  isRetryableError e = true ↔ marked e.
Proof.
  unfold isRetryableError, marked, retry_markers, occurs.
  rewrite !orb_true_iff, !contains_occurs. split.
  - intros H.
    repeat (destruct H as [H|H]);
      (eexists; split; [|exact H]); repeat constructor.
  - intros (m & Hm & H).
    repeat (apply elem_of_cons in Hm as [->|Hm]; [tauto|]).
    by apply elem_of_nil in Hm.
Qed.

Section retry_trace.
Context {W : Type} (maxRetries : Z) (fn wait : W → option error * W).

(** The loop run with and without the trace, [n] iterations being left
    at index [i]. *)
Lemma retry_loop_shape (n : nat) (i : Z) (err : option error) (w : W)
    (tr0 : list RetryEvent) :
  Z.of_nat n = Z.max 0 (maxRetries + 1 - i) →
  ∃ res w' tr,
    retry_loop maxRetries (traced EvCall fn) (traced EvWait wait) n i err (w, tr0)
    = (res, (w', tr0 ++ tr))
    ∧ retry_loop maxRetries fn wait n i err w = (res, w')
    ∧ retry_shape maxRetries n err tr res.
Proof.
  revert i err w tr0. induction n as [|n IH]; intros i err w tr0 Hn.
  - exists (Some (exhausted_error maxRetries err)), w, [].
    rewrite app_nil_r. split_and!; [done..|]. constructor.
  - cbn [retry_loop]. unfold traced at 1. destruct (fn w) as [[e|] w1] eqn:Hfn.
    + destruct (isRetryableError e) eqn:Hre; cbn [negb].
      * destruct (Z.ltb_spec i maxRetries) as [Hlt|Hge].
        -- unfold traced at 1. destruct (wait w1) as [[ce|] w2] eqn:Hwait.
           ++ exists (Some ce), w2, [EvCall (Some e); EvWait (Some ce)].
              rewrite <- app_assoc. split_and!; [done..|].
              destruct n as [|n]; [lia|]. by constructor.
           ++ destruct (IH (i + 1) (Some e) w2
                           ((tr0 ++ [EvCall (Some e)]) ++ [EvWait None]))
                as (res & w' & tr & Ht & Hp & Hs); [lia|].
              exists res, w', (EvCall (Some e) :: EvWait None :: tr).
              rewrite Ht, Hp, <- !app_assoc. split_and!; [done..|].
              destruct n as [|n]; [lia|]. by constructor.
        -- assert (n = 0%nat) as -> by lia.
           exists (Some (exhausted_error maxRetries (Some e))), w1,
                  [EvCall (Some e)].
           split_and!; [done..|]. by constructor.
      * exists (Some e), w1, [EvCall (Some e)].
        split_and!; [done..|]. by apply (shape_return _ _ _ (EvCall (Some e))).
    + exists None, w1, [EvCall None].
      split_and!; [done..|]. by apply (shape_return _ _ _ (EvCall None)).
Qed.

Lemma retry_shape_calls (n : nat) (err : option error) (tr : list RetryEvent)
    (res : option error) :
  retry_shape maxRetries n err tr res → (calls tr ≤ n)%nat.
Proof. induction 1; unfold calls in *; cbn; try lia. destruct ev; [cbn; lia|done]. Qed.

(** What follows an invocation of [fn], with [n] iterations left when the
    trace starts: nothing after a success and after an error that is not
    retryable, which are returned; after a retryable error a wait, unless
    the invocation was the last one, and then the error is returned
    wrapped. *)
Lemma retry_shape_call (n : nat) (err : option error) (tr : list RetryEvent)
    (res : option error) :
  retry_shape maxRetries n err tr res →
  ∀ tr1 r tr2, tr = tr1 ++ EvCall r :: tr2 →
  (calls tr1 < n)%nat
  ∧ match r with
    | None => tr2 = [] ∧ res = None
    | Some e =>
        if isRetryableError e then
          if decide (calls tr1 + 1 < n)%nat
          then ∃ r' tr3, tr2 = EvWait r' :: tr3
          else tr2 = [] ∧ res = Some (exhausted_error maxRetries (Some e))
        else tr2 = [] ∧ res = Some e
    end.
Proof.
  induction 1 as [err|n err ev0 Hc Ht|n err e ce Hre|n err e tr res Hre Hs IH|err e Hre];
    intros tr1 r tr2 Heq.
  - by destruct tr1.
  - destruct tr1 as [|? [|? ?]]; cbn [app] in Heq; simplify_eq.
    split; [unfold calls; cbn; lia|].
    destruct r as [e|]; [|done]. by rewrite Ht.
  - destruct tr1 as [|? [|? [|? ?]]]; cbn [app] in Heq; simplify_eq.
    split; [unfold calls; cbn; lia|]. rewrite Hre.
    rewrite decide_True by (unfold calls; cbn; lia). eauto.
  - destruct tr1 as [|? [|? tr1]]; cbn [app] in Heq; simplify_eq.
    + split; [unfold calls; cbn; lia|]. rewrite Hre.
      rewrite decide_True by (unfold calls; cbn; lia). eauto.
    + destruct (IH tr1 r tr2 eq_refl) as [Hlt Hr].
      split; [unfold calls in *; cbn; lia|].
      destruct r as [e'|]; [|done].
      destruct (isRetryableError e'); [|done].
      assert (Hc : calls (EvCall (Some e) :: EvWait None :: tr1) = S (calls tr1))
        by done.
      rewrite Hc.
      destruct (decide (calls tr1 + 1 < S n)%nat);
        [by rewrite decide_True by lia | by rewrite decide_False by lia].
  - destruct tr1 as [|? [|? ?]]; cbn [app] in Heq; simplify_eq.
    split; [unfold calls; cbn; lia|]. rewrite Hre.
    by rewrite decide_False by (unfold calls; cbn; lia).
Qed.

(** What comes before and after a wait: before it an invocation that
    returned a retryable error; after a wait cut short by the context
    nothing, the error of the context being returned; after a wait that
    elapsed an invocation. *)
Lemma retry_shape_wait (n : nat) (err : option error) (tr : list RetryEvent)
    (res : option error) :
  retry_shape maxRetries n err tr res →
  ∀ tr1 r tr2, tr = tr1 ++ EvWait r :: tr2 →
  (∃ tr0 e, tr1 = tr0 ++ [EvCall (Some e)] ∧ isRetryableError e = true)
  ∧ match r with
    | Some ce => tr2 = [] ∧ res = Some ce
    | None => ∃ r' tr3, tr2 = EvCall r' :: tr3
    end.
Proof.
  induction 1 as [err|n err ev0 Hc Ht|n err e ce Hre|n err e tr res Hre Hs IH|err e Hre];
    intros tr1 r tr2 Heq.
  - by destruct tr1.
  - destruct tr1 as [|? [|? ?]]; simplify_eq/=.
  - destruct tr1 as [|? [|? [|? ?]]]; simplify_eq/=.
    split; [by exists [], e|done].
  - destruct tr1 as [|? [|? tr1]]; simplify_eq/=.
    + split; [by exists [], e|].
      inversion Hs; subst; eauto. destruct ev; [eauto|done].
    + destruct (IH tr1 r tr2 eq_refl) as [(tr0 & e' & -> & He') Hr].
      split; [|done]. by exists (EvCall (Some e) :: EvWait None :: tr0), e'.
  - destruct tr1 as [|? [|? ?]]; simplify_eq/=.
Qed.

Lemma retry_shape_nil (n : nat) (err : option error) (res : option error) :
  retry_shape maxRetries n err [] res →
  n = 0%nat ∧ res = Some (exhausted_error maxRetries err).
Proof. by inversion 1. Qed.
End retry_trace.

(** C7.  A run of [WithRetry], observed as the sequence of its
    invocations of [fn] and of its waits.  [fn] is invoked at most
    [maxRetries + 1] times.  A success ends the run.  An error whose
    message carries none of the texts "40001", "40P01", "deadlock",
    "serialization failure", "connection", "timeout" ends the run and is
    returned as it is.  An error whose message carries one of them is
    followed by a wait while fewer than [maxRetries] invocations came
    before it; otherwise it is the invocation number [maxRetries + 1],
    the run ends and the error is returned under "operation failed after
    N retries: ".  A wait comes only after an invocation that returned an
    error with one of the texts; cut short by the context it ends the run
    with the error of the context, otherwise an invocation follows.  A run
    without any invocation has [maxRetries < 0].  The observation does not
    change the run.

    Which errors are retried is thus decided by the text of the message,
    against the comment of [isRetryableError], which speaks of the error
    codes of the store: a failure that is no conflict is retried when its
    text happens to carry one of the six, as the message of the store for
    a user id such as 40001000000 does. *)
Theorem WithRetry_by_message {W : Type} (maxRetries : Z)
    (fn wait : W → option error * W) (w : W) :
  ∃ res w' tr,
    WithRetry maxRetries (traced EvCall fn) (traced EvWait wait) (w, [])
    = (res, (w', tr))
    ∧ WithRetry maxRetries fn wait w = (res, w')
    ∧ Z.of_nat (calls tr) <= Z.max 0 (maxRetries + 1)
    ∧ (∀ tr1 r tr2, tr = tr1 ++ EvCall r :: tr2 →
       match r with
       | None => tr2 = [] ∧ res = None
       | Some e =>
           (¬ marked e → tr2 = [] ∧ res = Some e)
           ∧ (marked e →
              if decide (Z.of_nat (calls tr1) < maxRetries)
              then ∃ r' tr3, tr2 = EvWait r' :: tr3
              else Z.of_nat (calls tr1) = maxRetries
                   ∧ tr2 = []
                   ∧ res = Some (ErrWrap ("operation failed after "
                                          +:+ itoa maxRetries +:+ " retries: ") e))
       end)
    ∧ (∀ tr1 r tr2, tr = tr1 ++ EvWait r :: tr2 →
       (∃ tr0 e, tr1 = tr0 ++ [EvCall (Some e)] ∧ marked e)
       ∧ match r with
         | Some ce => tr2 = [] ∧ res = Some ce
         | None => ∃ r' tr3, tr2 = EvCall r' :: tr3
         end)
    ∧ (tr = [] →
       maxRetries < 0
       ∧ res = Some (ErrNew ("operation failed after " +:+ itoa maxRetries
                             +:+ " retries: " +:+ "%!w(<nil>)"))).
Proof.
  unfold WithRetry.
  destruct (retry_loop_shape maxRetries fn wait (Z.to_nat (maxRetries + 1)) 0
              None w []) as (res & w' & tr & Ht & Hp & Hs); [lia|].
  exists res, w', tr. split_and!; try done.
  - apply retry_shape_calls in Hs. lia.
  - intros tr1 r tr2 Heq.
    destruct (retry_shape_call _ _ _ _ _ Hs tr1 r tr2 Heq) as [Hlt Hr].
    destruct r as [e|]; [|done].
    destruct (isRetryableError e) eqn:Hre.
    + apply isRetryableError_marked in Hre. split; [done|]. intros _.
      destruct (decide (calls tr1 + 1 < Z.to_nat (maxRetries + 1))%nat).
      * by rewrite decide_True by lia.
      * rewrite decide_False by lia. split; [lia|done].
    + split; [done|]. intros Hm%isRetryableError_marked. congruence.
  - intros tr1 r tr2 Heq.
    destruct (retry_shape_wait _ _ _ _ _ Hs tr1 r tr2 Heq)
      as [(tr0 & e & -> & He%isRetryableError_marked) Hr].
    split; [by exists tr0, e|done].
  - intros ->. apply retry_shape_nil in Hs as [Hn ->]. split; [lia|].
    unfold exhausted_error, Errorf_w. by rewrite string_app_assoc, string_app_assoc.
Qed.

Lemma WithRetry_by_message_witness :
  let request := BookingRequest.mk 40001000000 1 1 in
  let e := ErrWrap "failed to create booking: " (pq_int4_parameter 40001000000) in
  let failed := Some (ErrWrap "operation failed after 3 retries: " e) in
  marked e
  ∧ (∃ w',
       WithRetry 3
         (traced EvCall (BookingRepository.attempt example_cfg (example_env 10)
                           request))
         (traced EvWait (BookingRepository.wait (example_env 10)))
         (BookingRepository.mkRetry example_held None 0 0, [])
       = (failed,
          (w', [EvCall (Some e); EvWait None; EvCall (Some e); EvWait None;
                EvCall (Some e); EvWait None; EvCall (Some e)])))
  ∧ BookingRepository.BookTickets example_cfg (example_env 10) request
      example_held
    = (None, failed, example_held).
Proof.
  intros request e failed.
  destruct (WithRetry_by_message 3
              (BookingRepository.attempt example_cfg (example_env 10) request)
              (BookingRepository.wait (example_env 10))
              (BookingRepository.mkRetry example_held None 0 0))
    as (res & w' & tr & Ht & Hp & _ & Hcall & Hwait & _).
  assert (Htr : tr = [EvCall (Some e); EvWait None; EvCall (Some e); EvWait None;
                      EvCall (Some e); EvWait None; EvCall (Some e)]
                ∧ res = failed).
  { vm_compute in Ht. by injection Ht as <- _ <-. }
  destruct Htr as [-> ->].
  split_and!.
  - by destruct (Hwait [EvCall (Some e)] None
                   [EvCall (Some e); EvWait None; EvCall (Some e); EvWait None;
                    EvCall (Some e)] eq_refl)
      as [(tr0 & e' & [_ [= <-]]%(app_inj_tail [] tr0) & Hm) _].
  - by exists w'.
  - unfold BookingRepository.BookTickets. fold request. rewrite Hp.
    vm_compute in Hp. by injection Hp as <-.
Defined.

(** ** Book *)

(** What a run of [bookTicketsWithLock] that returns a booking has done. *)
Lemma bookTicketsWithLock_Ok (cfg : AppConfig) (clk : BookingRepository.Clock)
    (request : BookingRequest.t) (s s' : Store) (b : Booking.t) :
  let eventID := BookingRequest.EventID request in
  let quantity := BookingRequest.Quantity request in
  let rows := BookingRepository.select_locked eventID quantity (tickets s) in
  BookingRepository.bookTicketsWithLock cfg clk request s = (Ok b, s') →
  ∃ event,
    query_row (λ e, Event.ID e = eventID) (events s) = Some event
    ∧ BookingRepository.now_check clk <= Event.StartTime event
    ∧ 0 < quantity
    ∧ Z.of_nat (length rows) = quantity
    ∧ b = Booking.mk (bookings_id_seq s + 1) (BookingRequest.UserID request)
            eventID (Ticket.ID <$> rows) quantity
            (PrimFloat.mul (Event.Price event) (float64_of_int quantity))
            BookingPending
            (BookingRepository.generateBookingRef (BookingRepository.now_ref clk))
            (BookingRepository.now_db clk) (BookingRepository.now_db clk)
            (BookingRepository.now_expiry clk + BookingExpiration cfg)
    ∧ s' = mkStore (users s)
             (update_where (λ e, Event.ID e = eventID)
                (λ e, Event.set_available (Event.AvailableTickets e + - quantity)
                        (BookingRepository.now_db clk) e) (events s))
             (update_where (λ x, Ticket.ID x ∈ Ticket.ID <$> rows)
                (Ticket.set_status TicketReserved (BookingRepository.now_db clk))
                (tickets s))
             (bookings s ++ [b]) (bookings_id_seq s + 1)
    ∧ BookingRequest.UserID request ∈ users s
    ∧ ¬ (bookings_id_seq s + 1 ∈ Booking.ID <$> bookings s)
    ∧ Forall (λ e, 0 <= Event.AvailableTickets e - quantity)
             (filter (λ e, Event.ID e = eventID) (events s)).
Proof.
  intros eventID quantity rows.
  unfold BookingRepository.bookTicketsWithLock, tx_bind, tx_get.
  fold eventID quantity.
  destruct (is_int4 eventID); cbn [negb]; [|done].
  destruct (query_row _ (events s)) as [event|] eqn:Hev; [|done].
  destruct (Z.ltb_spec (Event.StartTime event) (BookingRepository.now_check clk));
    [done|].
  destruct (Z.ltb_spec quantity 0); [done|].
  fold rows. rewrite length_fmap.
  destruct (Z.ltb_spec (Z.of_nat (length rows)) quantity) as [|Hlen]; [done|].
  assert (Hlen' : Z.of_nat (length rows) = quantity).
  { pose proof (select_locked_length eventID quantity (tickets s)) as Hl.
    fold rows in Hl. lia. }
  unfold tx_modify, wrap_err, BookingRepository.update_available, tx_bind, tx_get,
    tx_fail.
  cbn [events set_tickets].
  destruct (decide (Exists _ _)) as [|Hcheck]; [done|].
  apply not_Exists_Forall in Hcheck; [|intros ?; apply _].
  unfold BookingRepository.insert_booking, tx_bind, tx_get, tx_modify, tx_fail,
    tx_ret.
  cbn [Booking.Quantity Booking.TotalAmount Booking.BookingRef Booking.UserID
       bookings_id_seq bookings users set_seq set_events set_tickets set_bookings
       events tickets].
  destruct (is_int4 (BookingRequest.UserID request)); cbn [negb]; [|done].
  destruct (is_int4 (bookings_id_seq s + 1)); cbn [negb]; [|done].
  destruct (Z.ltb_spec 0 quantity); cbn [negb]; [|done].
  destruct (PrimFloat.leb _ _); cbn [negb]; [|done].
  destruct (decide (_ ∈ Booking.ID <$> _)) as [|Hfresh]; [done|].
  destruct (decide (_ ∈ Booking.BookingRef <$> _)); [done|].
  destruct (decide (_ ∈ users s)) as [Hu|]; [|done].
  intros [= <- <-]. exists event. split_and!; try done.
  eapply Forall_impl; [exact Hcheck|]. intros e He. cbn in He. lia.
Qed.

(** A run that returns a booking has passed the store's reading of the
    event id, of the user id and of the booking id as [INTEGER]s. *)
Lemma bookTicketsWithLock_Ok_int4 (cfg : AppConfig) (clk : BookingRepository.Clock)
    (request : BookingRequest.t) (s s' : Store) (b : Booking.t) :
  BookingRepository.bookTicketsWithLock cfg clk request s = (Ok b, s') →
  is_int4 (BookingRequest.EventID request) = true
  ∧ is_int4 (BookingRequest.UserID request) = true
  ∧ is_int4 (bookings_id_seq s + 1) = true.
Proof.
  unfold BookingRepository.bookTicketsWithLock, tx_bind, tx_get.
  destruct (is_int4 (BookingRequest.EventID request)); cbn [negb]; [|done].
  destruct (query_row _ (events s)) as [event|] eqn:Hev; [|done].
  destruct (Z.ltb_spec (Event.StartTime event) (BookingRepository.now_check clk));
    [done|].
  destruct (Z.ltb_spec (BookingRequest.Quantity request) 0); [done|].
  destruct (_ <? BookingRequest.Quantity request); [done|].
  unfold tx_modify, wrap_err, BookingRepository.update_available, tx_bind, tx_get,
    tx_fail.
  cbn [events set_tickets].
  destruct (decide (Exists _ _)); [done|].
  unfold BookingRepository.insert_booking, tx_bind, tx_get, tx_modify, tx_fail,
    tx_ret.
  cbn [Booking.Quantity Booking.TotalAmount Booking.BookingRef Booking.UserID
       bookings_id_seq bookings users set_seq set_events set_tickets set_bookings
       events tickets].
  destruct (is_int4 (BookingRequest.UserID request)); cbn [negb]; [|done].
  by destruct (is_int4 (bookings_id_seq s + 1)).
Qed.

(** The rows taken by [select_locked] are the first of the held tickets of
    the event sorted by seat; the rest come after them. *)
Lemma select_locked_lowest (eventID quantity : Z) (rows : list Ticket.t) :
  let sel := BookingRepository.select_locked eventID quantity rows in
  ∃ rest,
    filter (BookingRepository.is_locked_of eventID) rows ≡ₚ sel ++ rest
    ∧ StronglySorted seat_le (sel ++ rest).
Proof.
  intros sel. unfold BookingRepository.select_locked in sel.
  set (held := filter (BookingRepository.is_locked_of eventID) rows) in *.
  exists (drop (Z.to_nat quantity) (merge_sort seat_le held)).
  subst sel. rewrite take_drop. split.
  - by rewrite merge_sort_Permutation.
  - apply StronglySorted_merge_sort; apply _.
Qed.

(** C2.  A call of [BookTickets] that returns no error returns a booking
    whose [ticket_ids] are the ids of [quantity] tickets that were held
    (['locked']) for the event when the call started, in ascending order of
    [seat_no], every other held ticket of the event having a seat that is
    not lower (and a different one, seats being unique within the event);
    the booking is ['pending'], its [quantity] is the length of
    [ticket_ids], its [total_amount] is the price of the event times the
    quantity, and its [expires_at] is the clock reading of the attempt that
    succeeded plus the booking lifetime. *)
Theorem BookTickets_exact_match (cfg : AppConfig) (env : BookingRepository.Env)
    (request : BookingRequest.t) (s s' : Store) (ob : option Booking.t) :
  let eventID := BookingRequest.EventID request in
  BookingRepository.BookTickets cfg env request s = (ob, None, s') →
  ∃ b k event rows rest,
    ob = Some b
    ∧ EventRepository.GetEvent eventID s = Ok event
    ∧ Booking.TicketIDs b = Ticket.ID <$> rows
    ∧ Z.of_nat (length rows) = BookingRequest.Quantity request
    ∧ filter (BookingRepository.is_locked_of eventID) (tickets s) ≡ₚ rows ++ rest
    ∧ StronglySorted seat_le rows
    ∧ (∀ x y, x ∈ rows → y ∈ rest → seat_le x y)
    ∧ (NoDup (Ticket.SeatNo <$> filter (λ x, Ticket.EventID x = eventID) (tickets s)) →
       ∀ x y, x ∈ rows → y ∈ rest → Ticket.SeatNo x ≠ Ticket.SeatNo y)
    ∧ Booking.Status b = BookingPending
    ∧ Booking.EventID b = eventID
    ∧ Booking.UserID b = BookingRequest.UserID request
    ∧ Booking.Quantity b = BookingRequest.Quantity request
    ∧ Booking.Quantity b = Z.of_nat (length (Booking.TicketIDs b))
    ∧ Booking.TotalAmount b
      = PrimFloat.mul (Event.Price event) (float64_of_int (Booking.Quantity b))
    ∧ Booking.ExpiresAt b
      = BookingRepository.now_expiry (BookingRepository.clocks env k)
        + BookingExpiration cfg.
Proof.
  intros eventID Hbook.
  pose proof (BookTickets_cases cfg env request s) as Hc. rewrite Hbook in Hc.
  destruct Hc as (k & s0 & b & (Hu & He & Ht & Hb) & -> & Htx).
  pose proof (bookTicketsWithLock_Ok_int4 _ _ _ _ _ _ Htx) as (Hr4 & _).
  apply bookTicketsWithLock_Ok in Htx
    as (event & Hev & _ & Hq & Hlen & Hbk & _ & _ & _ & _).
  fold eventID in Hev, Hlen, Hbk, Hr4. rewrite Ht in Hlen, Hbk. rewrite He in Hev.
  destruct (select_locked_lowest eventID (BookingRequest.Quantity request)
              (tickets s)) as (rest & Hperm & Hsorted).
  set (rows := BookingRepository.select_locked eventID
                 (BookingRequest.Quantity request) (tickets s)) in *.
  exists b, k, event, rows, rest. subst b. cbn.
  split_and!; try done.
  - unfold EventRepository.GetEvent. by rewrite Hr4, Hev.
  - by apply StronglySorted_app_1_l in Hsorted.
  - intros x y Hx Hy. by eapply StronglySorted_app_1_elem_of.
  - intros Hnd x y Hx Hy Heq.
    assert (Hnd' : NoDup (Ticket.SeatNo <$> (rows ++ rest))).
    { rewrite <- Hperm. eapply sublist_NoDup; [exact Hnd|].
      apply fmap_sublist.
      assert (Hsub : ∀ l : list Ticket.t,
                sublist (filter (BookingRepository.is_locked_of eventID) l)
                        (filter (λ x, Ticket.EventID x = eventID) l)).
      { induction l as [|z l IH]; [done|]. rewrite !filter_cons.
        destruct (decide (BookingRepository.is_locked_of eventID z)) as [[Hz _]|Hz].
        - rewrite decide_True by done. by constructor.
        - destruct (decide (Ticket.EventID z = eventID)); [by constructor|done]. }
      apply Hsub. }
    rewrite fmap_app in Hnd'. apply NoDup_app in Hnd' as (_ & Hdisj & _).
    apply (Hdisj (Ticket.SeatNo x)).
    + apply list_elem_of_fmap. eauto.
    + rewrite Heq. apply list_elem_of_fmap. eauto.
  - by rewrite length_fmap.
Qed.

Lemma BookTickets_exact_match_witness :
  ∃ b k event rows rest,
    Some example_booking = Some b
    ∧ EventRepository.GetEvent 1 example_held = Ok event
    ∧ Booking.TicketIDs b = Ticket.ID <$> rows
    ∧ Z.of_nat (length rows) = 1
    ∧ filter (BookingRepository.is_locked_of 1) (tickets example_held) ≡ₚ rows ++ rest
    ∧ Booking.TotalAmount b
      = PrimFloat.mul (Event.Price event) (float64_of_int (Booking.Quantity b))
    ∧ Booking.ExpiresAt b
      = BookingRepository.now_expiry (BookingRepository.clocks (example_env 10) k)
        + BookingExpiration example_cfg.
Proof.
  destruct (BookTickets_exact_match example_cfg (example_env 10)
              (BookingRequest.mk 1 1 1) example_held example_booked
              (Some example_booking) eq_refl)
    as (b & k & event & rows & rest & H1 & H2 & H3 & H4 & H5 & _ & _ & _
        & _ & _ & _ & _ & _ & H6 & H7).
  exists b, k, event, rows, rest. by split_and!.
Defined.

(** ** Hold and cancel *)

Lemma LockSeat_cases (now eventID : Z) (seatNo : string) (s : Store) :
  (∃ e, EventRepository.LockSeat now eventID seatNo s = (Err e, s))
  ∨ (∃ row,
       query_row (EventRepository.is_seat eventID seatNo) (tickets s) = Some row
       ∧ Ticket.Status row = TicketAvailable
       ∧ EventRepository.LockSeat now eventID seatNo s
         = (Ok tt, set_tickets
                     (update_where (EventRepository.is_seat eventID seatNo)
                        (Ticket.set_status TicketLocked now)) s)).
Proof.
  unfold EventRepository.LockSeat, WithTransaction, EventRepository.lockSeatTx,
    tx_bind, tx_get, tx_fail, tx_modify, tx_ret.
  destruct (query_row _ _) as [row|] eqn:Hq.
  - destruct (decide (Ticket.Status row ≠ TicketAvailable)) as [Hst|Hst].
    + left. eexists. by rewrite rollback_same.
    + destruct (Z.eqb_spec (rows_affected (EventRepository.is_seat eventID seatNo)
                             (tickets s)) 0).
      * left. eexists. unfold rollback. cbn. by rewrite set_seq_same.
      * right. exists row. split_and!; try done.
        by destruct (decide (Ticket.Status row = TicketAvailable)).
  - left. eexists. by rewrite rollback_same.
Qed.

Lemma CancelBooking_cases (now_db bookingID : Z) (s : Store) (booking : Booking.t) :
  let ids := Booking.TicketIDs booking in
  Forall (λ id, 0 <= id <= MaxInt) ids →
  Forall (λ e, 0 <= Event.AvailableTickets e + Booking.Quantity booking)
         (filter (λ e, Event.ID e = Booking.EventID booking) (events s)) →
  query_row (BookingRepository.is_booking bookingID) (bookings s) = Some booking →
  BookingRepository.CancelBooking now_db bookingID s
  = if decide (Booking.Status booking = BookingCancelled)
    then (Err (ErrNew "booking is already cancelled"), s)
    else (Ok tt,
          mkStore (users s)
            (update_where (λ e, Event.ID e = Booking.EventID booking)
               (λ e, Event.set_available
                       (Event.AvailableTickets e + Booking.Quantity booking)
                       now_db e) (events s))
            (update_where (λ x, Ticket.ID x ∈ ids)
               (Ticket.set_status TicketAvailable now_db) (tickets s))
            (update_where (BookingRepository.is_booking bookingID)
               (Booking.set_status BookingCancelled now_db) (bookings s))
            (bookings_id_seq s)).
Proof.
  intros ids Hrange Hcheck Hq.
  unfold BookingRepository.CancelBooking, WithTransaction,
    BookingRepository.cancelBookingTx, tx_bind, tx_get, tx_fail.
  rewrite Hq. destruct (decide (Booking.Status booking = BookingCancelled)).
  { by rewrite rollback_same. }
  rewrite parseTicketIDs_pg_array_text by done. fold ids.
  unfold tx_modify, wrap_err, BookingRepository.update_available, tx_bind, tx_get,
    tx_fail.
  cbn [events set_tickets].
  destruct (decide (Exists _ _)) as [Hex|_]; [|done].
  exfalso. apply Exists_exists in Hex as (e & He & Hneg).
  rewrite Forall_forall in Hcheck. apply Hcheck in He. cbn in Hneg. lia.
Qed.

Lemma update_where_twice {R} (P : R → Prop) `{!∀ r, Decision (P r)}
    (f g : R → R) (rows : list R) :
  (∀ r, P r → P (f r)) →
  update_where P g (update_where P f rows)
  = update_where P (g ∘ f) rows.
Proof.
  intros Hf. unfold update_where. rewrite <- list_fmap_compose.
  apply list_fmap_ext. intros _ r _. cbn.
  destruct (decide (P r)) as [Hr|Hr].
  - by rewrite decide_True by auto.
  - by rewrite decide_False by done.
Qed.

Lemma select_locked_subset (eventID quantity : Z) (rows : list Ticket.t) (x : Ticket.t) :
  x ∈ BookingRepository.select_locked eventID quantity rows →
  x ∈ rows ∧ BookingRepository.is_locked_of eventID x.
Proof.
  unfold BookingRepository.select_locked. intros Hx.
  apply elem_of_take in Hx as (i & Hx & _).
  apply list_elem_of_lookup_2 in Hx.
  rewrite merge_sort_Permutation in Hx.
  apply list_elem_of_filter in Hx. tauto.
Qed.

(** C5.  A hold on a seat, a booking and the cancellation of that booking:
    the cancellation succeeds, every ticket the booking names is back to
    ['available'], and the counter of every event is what it was before the
    hold.  And [CancelBooking] on an existing booking, in a store that
    satisfies the checks of the schema, is rejected exactly when the
    booking is already ['cancelled']. *)
Theorem hold_book_cancel_roundtrip (cfg : AppConfig) (env : BookingRepository.Env)
    (now_hold now_cancel eventID : Z) (seatNo : string)
    (request : BookingRequest.t) (s0 s1 s2 : Store) (b : Booking.t)
    (now_c id_c : Z) (s_c : Store) (b_c : Booking.t) :
  Forall (λ x, 0 <= Ticket.ID x <= MaxInt) (tickets s0) →
  EventRepository.LockSeat now_hold eventID seatNo s0 = (Ok tt, s1) →
  BookingRequest.EventID request = eventID →
  BookingRepository.BookTickets cfg env request s1 = (Some b, None, s2) →
  Forall (λ id, 0 <= id <= MaxInt) (Booking.TicketIDs b_c) →
  Forall (λ e, 0 <= Event.AvailableTickets e) (events s_c) →
  0 < Booking.Quantity b_c →
  query_row (BookingRepository.is_booking id_c) (bookings s_c) = Some b_c →
  (∃ s3,
     BookingRepository.CancelBooking now_cancel (Booking.ID b) s2 = (Ok tt, s3)
     ∧ (∀ i x, tickets s0 !! i = Some x → Ticket.ID x ∈ Booking.TicketIDs b →
        tickets s3 !! i
        = Some (Ticket.set_status TicketAvailable now_cancel x))
     ∧ (∀ id, id ∈ Booking.TicketIDs b → ∃ x, x ∈ tickets s0 ∧ Ticket.ID x = id)
     ∧ Event.AvailableTickets <$> events s3 = Event.AvailableTickets <$> events s0
     ∧ Event.ID <$> events s3 = Event.ID <$> events s0
     ∧ query_row (BookingRepository.is_booking (Booking.ID b)) (bookings s3)
       = Some (Booking.set_status BookingCancelled now_cancel b))
  ∧ ((Booking.Status b_c = BookingCancelled
      ∧ BookingRepository.CancelBooking now_c id_c s_c
        = (Err (ErrNew "booking is already cancelled"), s_c))
     ∨ (Booking.Status b_c ≠ BookingCancelled
        ∧ ∃ s', BookingRepository.CancelBooking now_c id_c s_c = (Ok tt, s'))).
Proof.
  intros Hrange Hhold Hreq Hbook Hrange_c Hcheck_c Hq_c Hquery_c.
  split.
  - destruct (LockSeat_cases now_hold eventID seatNo s0)
      as [(e & He)|(row & Hrow & Hst & Hs1)]; [congruence|].
    rewrite Hs1 in Hhold. injection Hhold as <-.
    pose proof (BookTickets_cases cfg env request
                  (set_tickets (update_where (EventRepository.is_seat eventID seatNo)
                     (Ticket.set_status TicketLocked now_hold)) s0)) as Hc.
    rewrite Hbook in Hc.
    destruct Hc as (k & s1' & b' & (Hu & He & Ht & Hb) & [= <-] & Htx).
    apply bookTicketsWithLock_Ok in Htx
      as (event & Hev & _ & Hq & Hlen & Hbk & Hs2 & _ & Hfresh & Hcheck).
    rewrite Hreq in *. cbn [set_tickets tickets events bookings] in *.
    rewrite ?Ht, ?He, ?Hb in *.
    set (held := update_where (EventRepository.is_seat eventID seatNo)
                   (Ticket.set_status TicketLocked now_hold) (tickets s0)) in *.
    set (rows := BookingRepository.select_locked eventID
                   (BookingRequest.Quantity request) held) in *.
    assert (Hids : Booking.TicketIDs b = Ticket.ID <$> rows) by (by subst b).
    assert (Hbid : Booking.ID b = bookings_id_seq s1' + 1) by (by subst b).
    assert (Hbev : Booking.EventID b = eventID) by (by subst b).
    assert (Hbq : Booking.Quantity b = BookingRequest.Quantity request) by (by subst b).
    (* the ids of the booking are ids of tickets of [s0] *)
    assert (Hexists : ∀ id, id ∈ Booking.TicketIDs b →
              ∃ x, x ∈ tickets s0 ∧ Ticket.ID x = id).
    { intros id Hid. rewrite Hids in Hid.
      apply list_elem_of_fmap in Hid as (y & -> & Hy).
      apply select_locked_subset in Hy as [Hy _].
      apply update_where_elem in Hy as (x & Hx & ->).
      exists x. split; [done|]. by destruct (decide _). }
    assert (Hrange_b : Forall (λ id, 0 <= id <= MaxInt) (Booking.TicketIDs b)).
    { apply Forall_forall. intros id (x & Hx & <-)%Hexists.
      rewrite Forall_forall in Hrange. by apply Hrange. }
    (* the new booking is the one found under its id *)
    assert (Hfind : query_row (BookingRepository.is_booking (Booking.ID b)) (bookings s2)
                    = Some b).
    { rewrite Hs2. cbn [bookings]. unfold query_row. rewrite filter_app.
      assert (Hnone : filter (BookingRepository.is_booking (Booking.ID b)) (bookings s0) = []).
      { apply filter_none. intros y Hy Hyb. apply Hfresh.
        rewrite <- Hbid, <- Hyb. apply list_elem_of_fmap. eauto. }
      rewrite Hnone, filter_cons, decide_True by done. done. }
    rewrite (CancelBooking_cases now_cancel (Booking.ID b) s2 b Hrange_b);
      [|clear Hfind|exact Hfind].
    2:{ rewrite Hs2, Hbev, Hbq. cbn [events].
        apply Forall_forall. intros e' He'.
        apply list_elem_of_filter in He' as [Hid' He'].
        apply update_where_elem in He' as (e0 & He0 & ->).
        destruct (decide (Event.ID e0 = eventID)) as [Hid0|Hid0].
        - cbn. rewrite Forall_forall in Hcheck.
          specialize (Hcheck e0 ltac:(by apply list_elem_of_filter)). lia.
        - done. }
    rewrite decide_False by (by subst b).
    eexists. split; [done|]. rewrite Hs2. cbn [tickets events bookings].
    split_and!.
    + intros i x Hx Hin. rewrite !update_where_lookup.
      subst held. rewrite update_where_lookup, Hx. cbn.
      f_equal. rewrite <- Hids.
      destruct (decide (EventRepository.is_seat eventID seatNo x)).
      * rewrite (decide_True (P := Ticket.ID (Ticket.set_status TicketLocked now_hold x)
                                   ∈ Booking.TicketIDs b)) by exact Hin.
        by rewrite decide_True by exact Hin.
      * rewrite (decide_True (P := Ticket.ID x ∈ Booking.TicketIDs b)) by exact Hin.
        by rewrite decide_True by exact Hin.
    + done.
    + rewrite Hbev, Hbq. rewrite update_where_twice by done.
      unfold update_where. rewrite <- list_fmap_compose.
      apply list_fmap_ext. intros _ e0 _. cbn.
      destruct (decide (Event.ID e0 = eventID)); cbn; [lia|done].
    + rewrite Hbev, Hbq. rewrite update_where_twice by done.
      unfold update_where. rewrite <- list_fmap_compose.
      apply list_fmap_ext. intros _ e0 _. cbn.
      by destruct (decide (Event.ID e0 = eventID)).
    + apply query_row_update_where; [done|]. by rewrite Hs2 in Hfind.
  - rewrite (CancelBooking_cases now_c id_c s_c b_c Hrange_c); [|clear Hquery_c|done].
    2:{ apply Forall_forall. intros e [_ He]%list_elem_of_filter.
        rewrite Forall_forall in Hcheck_c. apply Hcheck_c in He. lia. }
    destruct (decide (Booking.Status b_c = BookingCancelled)); [by left|].
    right. eauto.
Qed.

Lemma hold_book_cancel_roundtrip_witness :
  ∃ s3,
    BookingRepository.CancelBooking 30 1 example_booked = (Ok tt, s3)
    ∧ tickets s3 !! 1%nat = Some (example_ticket 2 "S002" TicketAvailable 30)
    ∧ Event.AvailableTickets <$> events s3 = [3].
Proof.
  destruct (hold_book_cancel_roundtrip example_cfg (example_env 10) 5 30 1 "S002"
              (BookingRequest.mk 1 1 1) example_store example_held example_booked
              example_booking 30 1 example_booked example_booking)
    as [(s3 & H1 & H2 & _ & H4 & _) _].
  - repeat constructor; vm_compute; discriminate.
  - reflexivity.
  - reflexivity.
  - reflexivity.
  - repeat constructor; vm_compute; discriminate.
  - repeat constructor; vm_compute; discriminate.
  - reflexivity.
  - reflexivity.
  - exists s3. split_and!; [exact H1 | | exact H4].
    apply (H2 1%nat (example_ticket 2 "S002" TicketAvailable 0)); [reflexivity|].
    apply (bool_decide_unpack _). reflexivity.
Defined.

(** ** The consistency of the store *)

Section counting.
Context {R : Type} (P Q : R → Prop) `{!∀ r, Decision (P r)} `{!∀ r, Decision (Q r)}.
Context (f : R → R).

(** An update that does not move rows in or out of [Q]. *)
Lemma count_where_update_same (rows : list R) :
  (∀ x, x ∈ rows → P x → (Q (f x) ↔ Q x)) →
  count_where Q (update_where P f rows) = count_where Q rows.
Proof.
  intros Hsame. unfold count_where, update_where. f_equal.
  induction rows as [|x rows IH]; [done|].
  rewrite fmap_cons, !filter_cons.
  assert (IH' : length (filter Q ((λ r, if decide (P r) then f r else r) <$> rows))
                = length (filter Q rows)).
  { apply IH. intros y Hy. apply Hsame. by right. }
  destruct (decide (P x)) as [HP|HP].
  - specialize (Hsame x ltac:(left) HP).
    destruct (decide (Q (f x))), (decide (Q x)); cbn; try lia; tauto.
  - destruct (decide (Q x)); cbn; lia.
Qed.

(** An update that moves the rows it touches out of [Q]. *)
Lemma count_where_update_leave (rows : list R) :
  (∀ x, x ∈ rows → P x → Q x ∧ ¬ Q (f x)) →
  count_where Q (update_where P f rows) = count_where Q rows - count_where P rows.
Proof.
  intros Hmove. unfold count_where, update_where.
  induction rows as [|x rows IH]; [done|].
  rewrite fmap_cons, !filter_cons.
  specialize (IH ltac:(intros y Hy; apply Hmove; by right)).
  destruct (decide (P x)) as [HP|HP].
  - destruct (Hmove x ltac:(left) HP) as [HQ HQ'].
    rewrite (decide_False (P := Q (f x))), (decide_True (P := Q x)) by done.
    cbn [length]. lia.
  - destruct (decide (Q x)); cbn [length]; lia.
Qed.

(** An update that moves the rows it touches into [Q]. *)
Lemma count_where_update_enter (rows : list R) :
  (∀ x, x ∈ rows → P x → ¬ Q x ∧ Q (f x)) →
  count_where Q (update_where P f rows) = count_where Q rows + count_where P rows.
Proof.
  intros Hmove. unfold count_where, update_where.
  induction rows as [|x rows IH]; [done|].
  rewrite fmap_cons, !filter_cons.
  specialize (IH ltac:(intros y Hy; apply Hmove; by right)).
  destruct (decide (P x)) as [HP|HP].
  - destruct (Hmove x ltac:(left) HP) as [HQ HQ'].
    rewrite (decide_True (P := Q (f x))), (decide_False (P := Q x)) by done.
    cbn [length]. lia.
  - destruct (decide (Q x)); cbn [length]; lia.
Qed.
End counting.

Section keys.
Context {R K : Type} `{!EqDecision K} (key : R → K).

(** The rows named by a duplicate-free list of keys that all exist are as
    many as the keys. *)
Lemma count_where_keys (rows : list R) (ids : list K) :
  NoDup (key <$> rows) → NoDup ids →
  (∀ id, id ∈ ids → ∃ x, x ∈ rows ∧ key x = id) →
  count_where (λ x, key x ∈ ids) rows = Z.of_nat (length ids).
Proof.
  intros Hnd Hids Hex. unfold count_where. f_equal.
  rewrite <- (length_fmap key).
  apply Permutation_length, NoDup_Permutation; [|done|].
  - eapply sublist_NoDup; [exact Hnd|]. apply fmap_sublist, sublist_filter.
  - intros id. split.
    + intros (x & -> & Hx)%list_elem_of_fmap.
      by apply list_elem_of_filter in Hx as [? _].
    + intros Hid. destruct (Hex id Hid) as (x & Hx & <-).
      apply list_elem_of_fmap_2. by apply list_elem_of_filter.
Qed.

(** The one row of a key, and the update of that row. *)
Lemma query_row_split (P : R → Prop) `{!∀ r, Decision (P r)}
    (rows : list R) (id : K) (r : R) (f : R → R) :
  (∀ x, P x ↔ key x = id) →
  NoDup (key <$> rows) →
  query_row P rows = Some r →
  ∃ l1 l2, rows = l1 ++ r :: l2 ∧ key r = id
    ∧ (∀ x, x ∈ l1 ++ l2 → key x ≠ id)
    ∧ update_where P f rows = l1 ++ f r :: l2.
Proof.
  intros HP Hnd Hq. unfold query_row in Hq.
  assert (Hin : r ∈ filter P rows).
  { destruct (filter _ rows); [done|]. injection Hq as ->. left. }
  apply list_elem_of_filter in Hin as [Hk%HP Hin].
  apply list_elem_of_split in Hin as (l1 & l2 & ->).
  exists l1, l2.
  assert (Hother : ∀ x, x ∈ l1 ++ l2 → key x ≠ id).
  { intros x Hx Hkx. rewrite fmap_app, fmap_cons in Hnd.
    apply NoDup_app in Hnd as (_ & Hdisj & Hnd2).
    apply NoDup_cons in Hnd2 as [Hr2 _].
    apply elem_of_app in Hx as [Hx|Hx].
    - apply (Hdisj (key x)); [by apply list_elem_of_fmap_2|].
      rewrite Hkx, <- Hk. left.
    - apply Hr2. rewrite Hk, <- Hkx. by apply list_elem_of_fmap_2. }
  split_and!; try done.
  unfold update_where. rewrite fmap_app, fmap_cons, decide_True by (by apply HP).
  assert (Hid : ∀ l : list R, (∀ x, x ∈ l → key x ≠ id) →
            (λ r, if decide (P r) then f r else r) <$> l = l).
  { intros l Hl. rewrite <- (list_fmap_id l) at 2. apply list_fmap_ext.
    intros _ x Hx%list_elem_of_lookup_2. cbn.
    rewrite decide_False; [done|]. intros Hx'%HP. by apply (Hl x). }
  rewrite !Hid; [done| |]; intros x Hx; apply Hother, elem_of_app; auto.
Qed.
End keys.

Lemma update_status_IDs (P : Ticket.t → Prop) `{!∀ x, Decision (P x)}
    (st : TicketStatus) (now : Z) (rows : list Ticket.t) :
  Ticket.ID <$> update_where P (Ticket.set_status st now) rows = Ticket.ID <$> rows.
Proof.
  unfold update_where. rewrite <- list_fmap_compose. apply list_fmap_ext.
  intros _ x _. cbn. by destruct (decide (P x)).
Qed.

Lemma update_status_seat_keys (P : Ticket.t → Prop) `{!∀ x, Decision (P x)}
    (st : TicketStatus) (now : Z) (rows : list Ticket.t) :
  seat_key <$> update_where P (Ticket.set_status st now) rows = seat_key <$> rows.
Proof.
  unfold update_where. rewrite <- list_fmap_compose. apply list_fmap_ext.
  intros _ x _. cbn. by destruct (decide (P x)).
Qed.

Lemma ticket_keys_ok_update (P : Ticket.t → Prop) `{!∀ x, Decision (P x)}
    (st : TicketStatus) (now : Z) (s : Store) :
  ticket_keys_ok s →
  ticket_keys_ok (set_tickets (update_where P (Ticket.set_status st now)) s).
Proof.
  intros (Hnd & Hrange & Hseat). unfold ticket_keys_ok. cbn [tickets set_tickets].
  rewrite update_status_IDs, update_status_seat_keys. split_and!; try done.
  apply Forall_forall. intros x' (x & Hx & ->)%update_where_elem.
  rewrite Forall_forall in Hrange. apply Hrange in Hx.
  by destruct (decide (P x)).
Qed.

(** A booking stays [booking_ok] when the tickets that are updated and
    were taken are given a status of a taken ticket. *)
Lemma booking_ok_update (P : Ticket.t → Prop) `{!∀ x, Decision (P x)}
    (st : TicketStatus) (now : Z) (rows : list Ticket.t) (b : Booking.t) :
  (∀ x, x ∈ rows → P x → is_taken_by b (Ticket.ID x) x →
        st = TicketReserved ∨ st = TicketSold) →
  booking_ok rows b →
  booking_ok (update_where P (Ticket.set_status st now) rows) b.
Proof.
  intros Hst [Hq Hids]. split; [done|].
  eapply Forall_impl; [exact Hids|]. intros id Hex. cbn in Hex.
  apply Exists_exists in Hex as (x & Hx & Hid & Hev & Htaken).
  apply Exists_exists.
  exists (if decide (P x) then Ticket.set_status st now x else x). split.
  - unfold update_where. by apply list_elem_of_fmap_2'  with x.
  - destruct (decide (P x)) as [HP|HP]; [|done].
    split_and!; try done. cbn. by apply (Hst x).
Qed.

Lemma consistent_same_tables (s s' : Store) :
  same_tables s s' → consistent s → consistent s'.
Proof.
  intros (Hu & He & Ht & Hb).
  unfold consistent, ticket_keys_ok, booking_keys_ok, counter_is_open, bookings_ok.
  by rewrite Hu || rewrite He, Ht, Hb.
Qed.

(** Hold, release and reclaim: an update of tickets that are ['available']
    or ['locked'] to one of these two statuses. *)
Lemma consistent_open_update (P : Ticket.t → Prop) `{!∀ x, Decision (P x)}
    (st : TicketStatus) (now : Z) (s : Store) :
  (∀ x, x ∈ tickets s → P x →
        Ticket.Status x = TicketAvailable ∨ Ticket.Status x = TicketLocked) →
  st = TicketAvailable ∨ st = TicketLocked →
  consistent s →
  consistent (set_tickets (update_where P (Ticket.set_status st now)) s).
Proof.
  intros Hopen Hst (Hkeys & Hbkeys & Hcount & Hbook & Hnd).
  refine (conj _ (conj _ (conj _ (conj _ _)))).
  - by apply ticket_keys_ok_update.
  - done.
  - unfold counter_is_open in *. cbn [events tickets set_tickets].
    eapply Forall_impl; [exact Hcount|]. intros e He. cbn in He. rewrite He.
    symmetry. apply count_where_update_same. intros x Hx HP.
    specialize (Hopen x Hx HP). unfold is_open_of. cbn. tauto.
  - cbn [bookings tickets set_tickets].
    eapply Forall_impl; [exact Hbook|]. intros b Hb Hact. cbn in Hb.
    apply booking_ok_update; [|by apply Hb].
    intros x Hx HP (_ & _ & Htaken). specialize (Hopen x Hx HP).
    destruct Hopen as [Ho|Ho], Htaken as [Ht|Ht]; congruence.
  - done.
Qed.

Lemma NoDup_submseteq_l {A} (l k : list A) : l ⊆+ k → NoDup k → NoDup l.
Proof.
  intros (k' & Hk)%submseteq_Permutation Hnd.
  rewrite Hk in Hnd. by apply NoDup_app in Hnd as [? _].
Qed.

Lemma elem_of_concat {A} (x : A) (ls : list (list A)) :
  x ∈ concat ls ↔ ∃ l, l ∈ ls ∧ x ∈ l.
Proof.
  induction ls as [|l0 ls IH]; cbn [concat].
  - split; [by intros ?%elem_of_nil|]. by intros (l & ?%elem_of_nil & _).
  - rewrite elem_of_app, IH. split.
    + intros [Hx|(l & Hl & Hx)]; [exists l0; split; [left|done]|].
      exists l. split; [by right|done].
    + intros (l & [->|Hl]%elem_of_cons & Hx); [by left|]. right. eauto.
Qed.

(** A ticket named by a booking that is not cancelled is ['reserved'] or
    ['sold']. *)
Lemma active_booking_ticket (s : Store) (b : Booking.t) (x : Ticket.t) :
  consistent s → b ∈ bookings s → active b →
  x ∈ tickets s → Ticket.ID x ∈ Booking.TicketIDs b →
  is_taken_by b (Ticket.ID x) x.
Proof.
  intros ((Hnd & _) & _ & _ & Hbook & _) Hb Hact Hx Hid.
  rewrite Forall_forall in Hbook. destruct (Hbook b Hb Hact) as [_ Hids].
  rewrite Forall_forall in Hids. specialize (Hids _ Hid).
  apply Exists_exists in Hids as (y & Hy & Hty).
  assert (x = y) as -> by (apply (key_unique Ticket.ID (tickets s)); try done; by destruct Hty).
  done.
Qed.

Lemma booking_ok_update_untouched (P : Ticket.t → Prop) `{!∀ x, Decision (P x)}
    (f : Ticket.t → Ticket.t) (rows : list Ticket.t) (b : Booking.t) :
  (∀ x, x ∈ rows → P x → Ticket.ID x ∈ Booking.TicketIDs b → False) →
  booking_ok rows b → booking_ok (update_where P f rows) b.
Proof.
  intros Hno [Hq Hids]. split; [done|].
  rewrite Forall_forall in Hids. apply Forall_forall. intros id Hid.
  specialize (Hids id Hid).
  apply Exists_exists in Hids as (x & Hx & Hidx & Hev & Htaken).
  apply Exists_exists. exists x. split; [|done].
  unfold update_where. apply list_elem_of_fmap. exists x. split; [|done].
  rewrite decide_False; [done|]. intros HP. apply (Hno x Hx HP). by rewrite Hidx.
Qed.

(** ** Hold, release, reclaim *)

Lemma consistent_LockSeat (now eventID : Z) (seatNo : string) (s : Store) :
  consistent s → consistent (EventRepository.LockSeat now eventID seatNo s).2.
Proof.
  intros Hs.
  destruct (LockSeat_cases now eventID seatNo s) as [(e & ->)|(row & Hq & Hst & ->)];
    [done|].
  apply consistent_open_update; [|by right|done].
  intros x Hx [Hev Hseat]. left.
  apply query_row_Some in Hq as [Hrow [Hev' Hseat']].
  destruct Hs as ((_ & _ & Hkey) & _).
  assert (x = row) as ->; [|done].
  apply (key_unique seat_key (tickets s)); try done.
  unfold seat_key. congruence.
Qed.

Lemma consistent_UnlockSeat (now eventID : Z) (seatNo : string) (s : Store) :
  consistent s → consistent (EventRepository.UnlockSeat now eventID seatNo s).2.
Proof.
  intros Hs. apply consistent_open_update; [|by left|done].
  intros x _ [_ Hst]. by right.
Qed.

Lemma consistent_CleanupExpiredLocks (cfg : AppConfig) (now : Z) (s : Store) :
  consistent s → consistent (EventRepository.CleanupExpiredLocks cfg now s).2.
Proof.
  intros Hs. apply consistent_open_update; [|by left|done].
  intros x _ [Hst _]. by right.
Qed.

(** ** Book *)

Lemma select_locked_submseteq (eventID quantity : Z) (rows : list Ticket.t) :
  BookingRepository.select_locked eventID quantity rows ⊆+ rows.
Proof.
  unfold BookingRepository.select_locked.
  etrans; [apply submseteq_take|].
  etrans; [apply Permutation_submseteq, merge_sort_Permutation|].
  apply sublist_submseteq, sublist_filter.
Qed.

Lemma consistent_bookTicketsWithLock (cfg : AppConfig)
    (clk : BookingRepository.Clock) (request : BookingRequest.t)
    (s s' : Store) (b : Booking.t) :
  consistent s →
  BookingRepository.bookTicketsWithLock cfg clk request s = (Ok b, s') →
  consistent s'.
Proof.
  intros Hs Htx. pose proof Hs as (Hkeys & Hbkeys & Hcount & Hbook & Hnd).
  apply bookTicketsWithLock_Ok in Htx
    as (event & Hev & _ & Hq & Hlen & Hb & -> & _ & Hfresh & _).
  set (eventID := BookingRequest.EventID request) in *.
  set (quantity := BookingRequest.Quantity request) in *.
  set (sel := BookingRepository.select_locked eventID quantity (tickets s)) in *.
  set (ids := Ticket.ID <$> sel) in *.
  set (now := BookingRepository.now_db clk) in *.
  assert (Hsel : ∀ y, y ∈ sel → y ∈ tickets s ∧ BookingRepository.is_locked_of eventID y)
    by (intros y; apply select_locked_subset).
  assert (Hids_nd : NoDup ids).
  { eapply NoDup_submseteq_l; [|apply Hkeys].
    apply fmap_submseteq, select_locked_submseteq. }
  assert (Hnamed : ∀ x, x ∈ tickets s → Ticket.ID x ∈ ids → x ∈ sel).
  { intros x Hx (y & Hid & Hy)%list_elem_of_fmap.
    assert (x = y) as ->; [|done].
    apply (key_unique Ticket.ID (tickets s)); try done; [apply Hkeys|by apply Hsel]. }
  assert (Hcount_ids : count_where (λ x, Ticket.ID x ∈ ids) (tickets s) = quantity).
  { rewrite (count_where_keys Ticket.ID);
      [unfold ids; by rewrite length_fmap|apply Hkeys|done|].
    intros id (y & -> & Hy)%list_elem_of_fmap. exists y. split; [by apply Hsel|done]. }
  assert (Hbids : Booking.TicketIDs b = ids) by (by subst b).
  assert (Hbact : active b) by (by subst b).
  refine (conj _ (conj _ (conj _ (conj _ _)))).
  - by apply (ticket_keys_ok_update _ _ _ s).
  - unfold booking_keys_ok. cbn [bookings]. rewrite fmap_app.
    apply NoDup_app. split_and!; [done| |apply NoDup_singleton].
    intros id Hid Hid'. apply list_elem_of_singleton in Hid'. subst id.
    apply Hfresh. by subst b.
  - unfold counter_is_open in *. cbn [events tickets].
    apply Forall_forall. intros e' (e & He & ->)%update_where_elem.
    rewrite Forall_forall in Hcount. specialize (Hcount e He). cbn in Hcount.
    destruct (decide (Event.ID e = eventID)) as [Heid|Heid].
    + cbn [Event.AvailableTickets Event.ID Event.set_available].
      rewrite count_where_update_leave.
      * rewrite Hcount_ids, Hcount. lia.
      * intros x Hx Hin. apply Hnamed in Hin; [|done].
        destruct (Hsel x Hin) as [_ [Hxe Hxs]].
        unfold is_open_of. cbn. split; [split; [congruence|by right]|].
        intros [_ [?|?]]; congruence.
    + rewrite count_where_update_same; [done|].
      intros x Hx Hin. apply Hnamed in Hin; [|done].
      destruct (Hsel x Hin) as [_ [Hxe Hxs]].
      unfold is_open_of. cbn. split; intros [? _]; congruence.
  - cbn [bookings tickets]. apply Forall_app. split.
    + eapply Forall_impl; [exact Hbook|]. intros b0 Hb0 Hact. cbn in Hb0.
      apply booking_ok_update; [by left|by apply Hb0].
    + apply Forall_singleton. intros _. split.
      * subst b. cbn. subst ids. rewrite length_fmap. lia.
      * rewrite Hbids. apply Forall_forall.
        intros id (y & -> & Hy)%list_elem_of_fmap.
        destruct (Hsel y Hy) as [Hyt [Hye Hys]].
        apply Exists_exists. exists (Ticket.set_status TicketReserved now y). split.
        -- unfold update_where. apply list_elem_of_fmap. exists y. split; [|done].
           rewrite decide_True; [done|]. by apply list_elem_of_fmap_2.
        -- split_and!; [done|by subst b|by left].
  - cbn [bookings]. rewrite filter_app, filter_cons, decide_True by done.
    rewrite filter_nil, fmap_app, concat_app. cbn. rewrite app_nil_r, Hbids.
    apply NoDup_app. split_and!; [done| |done].
    intros id (l & Hl & Hid)%elem_of_concat Hid'.
    apply list_elem_of_fmap in Hl as (b0 & -> & Hb0).
    apply list_elem_of_filter in Hb0 as [Hact Hb0].
    apply list_elem_of_fmap in Hid' as (y & -> & Hy).
    destruct (Hsel y Hy) as [Hyt [_ Hys]].
    destruct (active_booking_ticket s b0 y Hs Hb0 Hact Hyt Hid) as (_ & _ & [?|?]);
      congruence.
Qed.

Lemma consistent_BookTickets (cfg : AppConfig) (env : BookingRepository.Env)
    (request : BookingRequest.t) (s : Store) :
  consistent s → consistent (BookingRepository.BookTickets cfg env request s).2.
Proof.
  intros Hs. pose proof (BookTickets_cases cfg env request s) as Hc.
  destruct (BookingRepository.BookTickets cfg env request s) as [[ob [e|]] s'].
  - destruct Hc as [Hsame _]. by apply (consistent_same_tables s).
  - destruct Hc as (k & s0 & b & Hsame & _ & Htx).
    eapply consistent_bookTicketsWithLock; [|exact Htx].
    by apply (consistent_same_tables s).
Qed.

(** ** Confirm and cancel *)

Lemma ConfirmBooking_cases (now now_db bookingID : Z) (s : Store) :
  (∃ e, BookingRepository.ConfirmBooking now now_db bookingID s = (Err e, s))
  ∨ (∃ (booking : Booking.t) (ids : list Z),
       query_row (BookingRepository.is_booking bookingID) (bookings s) = Some booking
       ∧ Booking.Status booking = BookingPending
       ∧ BookingRepository.ConfirmBooking now now_db bookingID s
         = (Ok tt,
            mkStore (users s) (events s)
              (update_where (λ x, Ticket.ID x ∈ ids ∧ Ticket.Status x = TicketReserved)
                 (Ticket.set_status TicketSold now_db) (tickets s))
              (update_where (BookingRepository.is_booking bookingID)
                 (Booking.set_status BookingConfirmed now_db) (bookings s))
              (bookings_id_seq s))).
Proof.
  unfold BookingRepository.ConfirmBooking, WithTransaction,
    BookingRepository.confirmBookingTx, tx_bind, tx_get, tx_modify, tx_fail.
  destruct (query_row _ _) as [booking|] eqn:Hq;
    [|left; eexists; by rewrite rollback_same].
  destruct (decide (Booking.Status booking ≠ BookingPending)) as [Hst|Hst];
    [left; eexists; by rewrite rollback_same|].
  destruct (Z.ltb_spec (Booking.ExpiresAt booking) now);
    [left; eexists; by rewrite rollback_same|].
  destruct (Z.eqb_spec
              (rows_affected
                 (λ x, Ticket.ID x ∈ parseTicketIDs (pg_array_text (Booking.TicketIDs booking))
                       ∧ Ticket.Status x = TicketReserved) (tickets s))
              (Z.of_nat (length (parseTicketIDs (pg_array_text (Booking.TicketIDs booking))))));
    cbn [negb].
  - right. exists booking, (parseTicketIDs (pg_array_text (Booking.TicketIDs booking))).
    split_and!; try done.
    by destruct (decide (Booking.Status booking = BookingPending)).
  - left. eexists. unfold rollback. cbn. by rewrite set_seq_same.
Qed.

Lemma CancelBooking_total (now_db bookingID : Z) (s : Store) :
  (∃ e, BookingRepository.CancelBooking now_db bookingID s = (Err e, s))
  ∨ (∃ booking,
       query_row (BookingRepository.is_booking bookingID) (bookings s) = Some booking
       ∧ Booking.Status booking ≠ BookingCancelled
       ∧ BookingRepository.CancelBooking now_db bookingID s
         = (Ok tt,
            mkStore (users s)
              (update_where (λ e, Event.ID e = Booking.EventID booking)
                 (λ e, Event.set_available
                         (Event.AvailableTickets e + Booking.Quantity booking)
                         now_db e) (events s))
              (update_where
                 (λ x, Ticket.ID x ∈ parseTicketIDs (pg_array_text (Booking.TicketIDs booking)))
                 (Ticket.set_status TicketAvailable now_db) (tickets s))
              (update_where (BookingRepository.is_booking bookingID)
                 (Booking.set_status BookingCancelled now_db) (bookings s))
              (bookings_id_seq s))).
Proof.
  unfold BookingRepository.CancelBooking, WithTransaction,
    BookingRepository.cancelBookingTx, tx_bind, tx_get, tx_fail.
  destruct (query_row _ _) as [booking|] eqn:Hq;
    [|left; eexists; by rewrite rollback_same].
  destruct (decide (Booking.Status booking = BookingCancelled)) as [Hst|Hst];
    [left; eexists; by rewrite rollback_same|].
  unfold tx_modify, wrap_err, BookingRepository.update_available, tx_bind, tx_get,
    tx_fail.
  cbn [events set_tickets].
  destruct (decide (Exists _ _)).
  - left. eexists. unfold rollback. cbn. by rewrite set_seq_same.
  - right. exists booking. by split_and!.
Qed.

Lemma booking_keys_update (P : Booking.t → Prop) `{!∀ x, Decision (P x)}
    (st : BookingStatus) (now : Z) (rows : list Booking.t) :
  Booking.ID <$> update_where P (Booking.set_status st now) rows = Booking.ID <$> rows.
Proof.
  unfold update_where. rewrite <- list_fmap_compose. apply list_fmap_ext.
  intros _ x _. cbn. by destruct (decide (P x)).
Qed.

Lemma consistent_ConfirmBooking (now now_db bookingID : Z) (s : Store) :
  consistent s →
  consistent (BookingRepository.ConfirmBooking now now_db bookingID s).2.
Proof.
  intros Hs. pose proof Hs as (Hkeys & Hbkeys & Hcount & Hbook & Hnd).
  destruct (ConfirmBooking_cases now now_db bookingID s)
    as [(e & ->)|(booking & ids & Hq & Hst & ->)]; [done|].
  cbn [snd].
  destruct (query_row_split Booking.ID (BookingRepository.is_booking bookingID)
              (bookings s) bookingID booking
              (Booking.set_status BookingConfirmed now_db) ltac:(done) Hbkeys Hq)
    as (l1 & l2 & Hsplit & Hid & Hother & Hupd).
  rewrite Hupd.
  assert (Hact : active booking) by (unfold active; congruence).
  refine (conj _ (conj _ (conj _ (conj _ _)))).
  - by apply (ticket_keys_ok_update _ _ _ s).
  - unfold booking_keys_ok in *. cbn [bookings].
    rewrite Hsplit in Hbkeys. by rewrite fmap_app, fmap_cons in *.
  - unfold counter_is_open in *. cbn [events tickets].
    eapply Forall_impl; [exact Hcount|]. intros e He. cbn in He. rewrite He.
    symmetry. apply count_where_update_same. intros x Hx [_ Hres].
    unfold is_open_of. cbn. split; intros [_ [?|?]]; congruence.
  - cbn [bookings tickets]. rewrite Hsplit in Hbook.
    apply Forall_app in Hbook as [Hb1 Hb2]. apply Forall_cons in Hb2 as [Hb Hb2].
    assert (Hkeep : ∀ b0, booking_ok (tickets s) b0 →
              booking_ok (update_where
                (λ x, Ticket.ID x ∈ ids ∧ Ticket.Status x = TicketReserved)
                (Ticket.set_status TicketSold now_db) (tickets s)) b0).
    { intros b0. apply booking_ok_update. by right. }
    apply Forall_app. split; [|apply Forall_cons; split].
    + eapply Forall_impl; [exact Hb1|]. cbn. auto.
    + intros _. destruct (Hkeep booking (Hb Hact)) as [Hq' Hids']. by split.
    + eapply Forall_impl; [exact Hb2|]. cbn. auto.
  - cbn [bookings]. rewrite Hsplit in Hnd.
    rewrite filter_app, filter_cons, decide_True in Hnd by done.
    rewrite filter_app, filter_cons, decide_True by done.
    by rewrite fmap_app, fmap_cons in *.
Qed.

Lemma consistent_CancelBooking (now_db bookingID : Z) (s : Store) :
  consistent s →
  consistent (BookingRepository.CancelBooking now_db bookingID s).2.
Proof.
  intros Hs. pose proof Hs as (Hkeys & Hbkeys & Hcount & Hbook & Hnd).
  destruct (CancelBooking_total now_db bookingID s)
    as [(e & ->)|(booking & Hq & Hst & ->)]; [done|].
  cbn [snd].
  destruct (query_row_split Booking.ID (BookingRepository.is_booking bookingID)
              (bookings s) bookingID booking
              (Booking.set_status BookingCancelled now_db) ltac:(done) Hbkeys Hq)
    as (l1 & l2 & Hsplit & Hid & Hother & Hupd).
  rewrite Hupd.
  assert (Hact : active booking) by done.
  assert (Hin : booking ∈ bookings s) by (by apply query_row_Some in Hq as [? _]).
  set (ids := Booking.TicketIDs booking) in *.
  assert (Hbok : booking_ok (tickets s) booking).
  { rewrite Forall_forall in Hbook. by apply Hbook. }
  destruct Hbok as [Hquant Hexist]. fold ids in Hquant, Hexist.
  rewrite Forall_forall in Hexist.
  assert (Hrange : Forall (λ id, 0 <= id <= MaxInt) ids).
  { apply Forall_forall. intros id Hidin.
    specialize (Hexist id Hidin). apply Exists_exists in Hexist as (x & Hx & <- & _).
    destruct Hkeys as (_ & Hr & _). rewrite Forall_forall in Hr. by apply Hr. }
  rewrite parseTicketIDs_pg_array_text by done.
  (* the ids of the booking, and those of the other active bookings *)
  rewrite Hsplit in Hnd.
  rewrite filter_app, filter_cons, decide_True in Hnd by done.
  rewrite fmap_app, fmap_cons, concat_app, concat_cons in Hnd. fold ids in Hnd.
  apply NoDup_app in Hnd as (Hnd1 & Hdisj1 & Hnd23).
  apply NoDup_app in Hnd23 as (Hids_nd & Hdisj2 & Hnd2).
  assert (Htaken : ∀ x, x ∈ tickets s → Ticket.ID x ∈ ids →
            is_taken_by booking (Ticket.ID x) x).
  { intros x Hx Hidx. by apply (active_booking_ticket s). }
  assert (Hcount_ids : count_where (λ x, Ticket.ID x ∈ ids) (tickets s)
                       = Booking.Quantity booking).
  { rewrite Hquant. apply (count_where_keys Ticket.ID); [apply Hkeys|done|].
    intros id Hidin. specialize (Hexist id Hidin).
    apply Exists_exists in Hexist as (x & Hx & Hidx & _). eauto. }
  refine (conj _ (conj _ (conj _ (conj _ _)))).
  - by apply (ticket_keys_ok_update _ _ _ s).
  - unfold booking_keys_ok in *. cbn [bookings].
    rewrite Hsplit in Hbkeys. by rewrite fmap_app, fmap_cons in *.
  - unfold counter_is_open in *. cbn [events tickets].
    apply Forall_forall. intros e' (e & He & ->)%update_where_elem.
    rewrite Forall_forall in Hcount. specialize (Hcount e He). cbn in Hcount.
    destruct (decide (Event.ID e = Booking.EventID booking)) as [Heid|Heid].
    + cbn [Event.AvailableTickets Event.ID Event.set_available].
      rewrite count_where_update_enter.
      * rewrite Hcount_ids, Hcount. lia.
      * intros x Hx Hidx. destruct (Htaken x Hx Hidx) as (_ & Hxe & Hxs).
        unfold is_open_of. cbn. split; [|split; [congruence|by left]].
        intros [_ [?|?]]; destruct Hxs; congruence.
    + rewrite count_where_update_same; [done|].
      intros x Hx Hidx. destruct (Htaken x Hx Hidx) as (_ & Hxe & Hxs).
      unfold is_open_of. cbn. split; intros [? _]; congruence.
  - cbn [bookings tickets]. rewrite Hsplit in Hbook.
    apply Forall_app in Hbook as [Hb1 Hb2]. apply Forall_cons in Hb2 as [_ Hb2].
    assert (Hkeep : ∀ l, Forall (λ b0, active b0 → booking_ok (tickets s) b0) l →
              (∀ id, id ∈ concat (Booking.TicketIDs <$> filter active l) → id ∉ ids) →
              Forall (λ b0, active b0 →
                booking_ok (update_where (λ x, Ticket.ID x ∈ ids)
                  (Ticket.set_status TicketAvailable now_db) (tickets s)) b0) l).
    { intros l Hl Hdisj. apply Forall_forall. intros b0 Hb0 Hact0.
      rewrite Forall_forall in Hl.
      apply booking_ok_update_untouched; [|by apply Hl].
      intros x Hx Hidx Hidx0. apply (Hdisj (Ticket.ID x)); [|done].
      apply elem_of_concat. exists (Booking.TicketIDs b0). split; [|done].
      apply list_elem_of_fmap_2. by apply list_elem_of_filter. }
    apply Forall_app. split; [|apply Forall_cons; split].
    + apply Hkeep; [done|]. intros id Hid1 Hidb. apply (Hdisj1 id Hid1).
      apply elem_of_app. by left.
    + intros Hcancelled. by destruct Hcancelled.
    + apply Hkeep; [done|]. intros id Hid2 Hidb. by apply (Hdisj2 id).
  - cbn [bookings].
    rewrite filter_app, filter_cons, decide_False by (intros Hc; by apply Hc).
    rewrite fmap_app, concat_app. apply NoDup_app. split_and!; [done| |done].
    intros id Hid1 Hid2. apply (Hdisj1 id Hid1). apply elem_of_app. by right.
Qed.

Lemma commit_consistent (cfg : AppConfig) (m : Mutation) (s : Store) :
  consistent s → consistent (commit cfg m s).
Proof.
  intros Hs. destruct m; cbn [commit].
  - by apply consistent_LockSeat.
  - by apply consistent_UnlockSeat.
  - by apply consistent_CleanupExpiredLocks.
  - by apply consistent_BookTickets.
  - by apply consistent_ConfirmBooking.
  - by apply consistent_CancelBooking.
Qed.

(** C1, as the code has it.  Every core mutation, whether it succeeds or
    fails, takes a consistent store to a consistent store; so in every
    state committed by a sequence of mutations that starts from a
    consistent store, the counter of every event is the number of its
    tickets that are ['available'] or ['locked']. *)
Theorem commit_keeps_counter (cfg : AppConfig) (ms : list Mutation) (s : Store) :
  consistent s →
  consistent (run cfg ms s)
  ∧ Forall (λ e, Event.AvailableTickets e
                 = count_where (is_open_of (Event.ID e)) (tickets (run cfg ms s)))
           (events (run cfg ms s)).
Proof.
  intros Hs.
  assert (Hc : consistent (run cfg ms s)).
  { revert s Hs. induction ms as [|m ms IH]; intros s Hs; [done|].
    cbn [run fold_left]. apply IH. by apply commit_consistent. }
  split; [done|]. apply Hc.
Qed.

Lemma commit_keeps_counter_witness :
  counter_is_open
    (run example_cfg
       [hold 5 1 "S002"; book (example_env 10) (BookingRequest.mk 1 1 1);
        confirm 20 21 1; reclaim_stale 400; cancel 30 1; release 31 1 "S002"]
       example_store).
Proof.
  apply (commit_keeps_counter example_cfg
           [hold 5 1 "S002"; book (example_env 10) (BookingRequest.mk 1 1 1);
            confirm 20 21 1; reclaim_stale 400; cancel 30 1; release 31 1 "S002"]
           example_store).
  by_computation.
Defined.

(** C1, as stated, fails.  In a store where the counter of the event is the
    number of its ['available'] tickets, a hold takes one ticket out of
    ['available'] and leaves the counter as it was. *)
Lemma hold_breaks_available_count :
  counter_is_available example_store
  ∧ consistent example_store
  ∧ ¬ counter_is_available (commit example_cfg (hold 5 1 "S002") example_store).
Proof. split_and!; by_computation. Qed.

(* ================================================================== *)
(** * Further properties of the code *)

(** ** Substring search: [contains] and [findSubstring] *)

(** X1.  [contains s substr] holds exactly when [substr] occurs in [s]:
    when [s] is some prefix, then [substr], then some suffix.  In
    particular every string contains the empty string, although the
    loop of [findSubstring] is not entered when the two lengths agree. *)
Theorem contains_spec (s substr : string) :
  (contains s substr = true ↔ ∃ pre post, s = pre +:+ substr +:+ post)
  ∧ contains s "" = true.
Proof.
  split; [apply contains_occurs|].
  apply contains_occurs. by exists "", s.
Qed.

Lemma contains_prefixed (prefix s substr : string) :
  contains s substr = true → contains (prefix +:+ s) substr = true.
Proof.
  rewrite !contains_occurs. intros (pre & post & ->).
  exists (prefix +:+ pre), post. by rewrite string_app_assoc.
Qed.

(** X2.  Wrapping an error ([fmt.Errorf("...: %w", err)]) never hides
    that it can be retried: whatever the prefix, the wrapped error is
    retryable when its cause is. *)
Theorem isRetryableError_wrapped (prefix : string) (e : error) :
  isRetryableError e = true → isRetryableError (ErrWrap prefix e) = true.
Proof.
  unfold isRetryableError. cbn [Error].
  rewrite !orb_true_iff.
  intros H; repeat destruct H as [H|H];
    apply (contains_prefixed prefix) in H; tauto.
Qed.

Lemma isRetryableError_wrapped_witness :
  isRetryableError
    (ErrWrap "failed to lock tickets: " (ErrNew "pq: deadlock detected")) = true.
Proof. by apply isRetryableError_wrapped. Defined.

(** ** The ticket-id codec on arbitrary text *)

Lemma all_digits_app (a b : string) :
  all_digits (a +:+ b) = all_digits a && all_digits b.
Proof.
  induction a as [|c a IH]; [done|].
  rewrite string_app_cons. cbn [all_digits]. by rewrite IH, andb_assoc.
Qed.

Lemma Atoi_digits_range (sign : Z) (d : string) (v : Z) :
  Atoi_digits sign d = Some v → MinInt <= v <= MaxInt.
Proof.
  unfold Atoi_digits. destruct d as [|c d]; [done|].
  destruct (NilEmpty.uint_of_string _) as [u|]; [|done].
  cbv zeta.
  destruct (_ && _) eqn:Hr; [|done].
  intros [= <-]. apply andb_prop in Hr as [?%Z.leb_le ?%Z.leb_le]. done.
Qed.

Lemma Atoi_range (s : string) (v : Z) :
  Atoi s = Some v → MinInt <= v <= MaxInt.
Proof.
  unfold Atoi. destruct s as [|c s]; [done|].
  destruct c as [[] [] [] [] [] [] [] []]; apply Atoi_digits_range.
Qed.

Lemma Z_of_uint_nonneg (u : Decimal.uint) : 0 <= Z.of_uint u.
Proof. unfold Z.of_uint. lia. Qed.

Lemma Atoi_all_digits (s : string) (v : Z) :
  all_digits s = true → Atoi s = Some v → 0 <= v <= MaxInt.
Proof.
  intros Hd Hv. pose proof (Atoi_range s v Hv) as [_ Hmax]. split; [|done].
  destruct s as [|c s]; [done|].
  cbn [all_digits] in Hd. apply andb_prop in Hd as [Hc _].
  rewrite Atoi_digit_first in Hv by done.
  unfold Atoi_digits in Hv.
  destruct (NilEmpty.uint_of_string _) as [u|]; [|done].
  cbv zeta in Hv. destruct (_ && _); [|done].
  injection Hv as <-. pose proof (Z_of_uint_nonneg u). lia.
Qed.

Lemma append_parsed_range (acc : list Z) (cur : string) :
  all_digits cur = true →
  Forall (λ id, 0 <= id <= MaxInt) acc →
  Forall (λ id, 0 <= id <= MaxInt) (append_parsed acc cur).
Proof.
  intros Hd Hacc. unfold append_parsed.
  destruct (Atoi cur) as [v|] eqn:Hv; [|done].
  apply Forall_app. split; [done|].
  apply Forall_singleton. by apply Atoi_all_digits with cur.
Qed.

Lemma parse_loop_range (s : string) (acc : list Z) (cur : string) :
  all_digits cur = true →
  Forall (λ id, 0 <= id <= MaxInt) acc →
  Forall (λ id, 0 <= id <= MaxInt) (parse_loop s acc cur).1
  ∧ all_digits (parse_loop s acc cur).2 = true.
Proof.
  revert acc cur. induction s as [|c s IH]; intros acc cur Hd Hacc; [done|].
  cbn [parse_loop].
  destruct (is_digit c) eqn:Hc.
  - apply IH; [|done]. rewrite all_digits_app, Hd. cbn. by rewrite Hc.
  - destruct (Ascii.eqb c ","); [|by apply IH].
    destruct (String.eqb cur ""); apply IH; try done.
    by apply append_parsed_range.
Qed.

Lemma parseTicketIDs_ints (ticketIDsStr : string) :
  Forall (λ id, 0 <= id <= MaxInt) (parseTicketIDs ticketIDsStr).
Proof.
  unfold parseTicketIDs.
  destruct (_ <? 3)%nat; [done|]. cbv zeta.
  destruct (_ =? 0)%nat; [done|].
  pose proof (parse_loop_range
                (String.substring 1 (String.length ticketIDsStr - 2) ticketIDsStr)
                [] "" eq_refl (Forall_nil_2 _)) as [Hacc Hcur].
  destruct (parse_loop _ [] "") as [acc cur]. cbn [fst snd] in *.
  destruct (String.eqb cur ""); [done|].
  by apply append_parsed_range.
Qed.

(** X3.  Whatever text [parseTicketIDs] is given, every id it returns is
    a non-negative [int]: a sign is skipped like any other byte that is
    neither a digit nor a comma, and a run of digits too long for an
    [int] is dropped. *)
Theorem parseTicketIDs_range (ticketIDsStr : string) (id : Z) :
  id ∈ parseTicketIDs ticketIDsStr → 0 <= id <= MaxInt.
Proof.
  pose proof (parseTicketIDs_ints ticketIDsStr) as Hall.
  rewrite Forall_forall in Hall. apply Hall.
Qed.

Lemma parseTicketIDs_range_witness :
  parseTicketIDs "{-7,+8,99999999999999999999,x9}" = [7; 8; 9]
  ∧ 0 <= 7 <= MaxInt.
Proof.
  split; [reflexivity|].
  apply (parseTicketIDs_range "{-7,+8,99999999999999999999,x9}" 7).
  by_computation.
Defined.

(** ** Listings: pagination, the events of a page, the free seats *)

Lemma wrap_int_id (z : Z) : MinInt <= z <= MaxInt → middleware.wrap_int z = z.
Proof.
  unfold MinInt, MaxInt, middleware.wrap_int. intros Hz.
  rewrite Z.mod_small; lia.
Qed.

Lemma StronglySorted_take {A : Type} (R : relation A) (n : nat) (l : list A) :
  StronglySorted R l → StronglySorted R (take n l).
Proof.
  intros Hl. rewrite <- (take_drop n l) in Hl.
  by apply StronglySorted_app_1_l in Hl.
Qed.

Lemma StronglySorted_drop {A : Type} (R : relation A) (n : nat) (l : list A) :
  StronglySorted R l → StronglySorted R (drop n l).
Proof.
  intros Hl. rewrite <- (take_drop n l) in Hl.
  by apply StronglySorted_app_1_r in Hl.
Qed.

Lemma Pagination_page_limit (pageQuery limitQuery : option string) :
  let '(page, limit, offset) := middleware.Pagination pageQuery limitQuery in
  1 <= page <= MaxInt ∧ 1 <= limit <= 100
  ∧ offset = middleware.wrap_int ((page - 1) * limit).
Proof.
  unfold middleware.Pagination. cbv zeta.
  split_and!; try done.
  - destruct (Atoi (default "1" pageQuery)) as [p|] eqn:Hp; [|done].
    destruct (Z.ltb_spec p 1); lia.
  - destruct (Atoi (default "1" pageQuery)) as [p|] eqn:Hp; [|done].
    apply Atoi_range in Hp as [_ Hp]. destruct (Z.ltb_spec p 1); [done|lia].
  - destruct (Atoi (default "20" limitQuery)) as [l|]; [|done].
    destruct (Z.ltb_spec l 1), (Z.ltb_spec 100 l); cbn; lia.
  - destruct (Atoi (default "20" limitQuery)) as [l|]; [|done].
    destruct (Z.ltb_spec l 1), (Z.ltb_spec 100 l); cbn; lia.
Qed.

(** X4.  [Pagination] always sets a page of at least 1 and a limit between
    1 and 100, whatever the query holds; the offset is that of the page,
    [(page - 1) * limit], as long as this product is an [int], and it is
    then not negative. *)
Theorem Pagination_bounds (pageQuery limitQuery : option string) :
  let '(page, limit, offset) := middleware.Pagination pageQuery limitQuery in
  1 <= page <= MaxInt ∧ 1 <= limit <= 100
  ∧ ((page - 1) * limit <= MaxInt → offset = (page - 1) * limit ∧ 0 <= offset).
Proof.
  pose proof (Pagination_page_limit pageQuery limitQuery) as H.
  destruct (middleware.Pagination pageQuery limitQuery) as [[page limit] offset].
  destruct H as (Hp & Hl & ->). split_and!; try tauto.
  intros Hmax. rewrite wrap_int_id by (unfold MinInt, MaxInt in *; nia).
  split; [done|nia].
Qed.

(** X5.  The events listing: when the offset of the page is an [int], the
    answer is 200 with the events of that page, which are at most [limit]
    (hence at most 100) events of the store in ascending order of start
    time; when the product wraps around to a negative [int], the store
    refuses the negative OFFSET and the answer is 500. *)
Theorem GetEvents_page (pageQuery limitQuery : option string) (s : Store) :
  let '(page, limit, offset) := middleware.Pagination pageQuery limitQuery in
  ((page - 1) * limit <= MaxInt →
   ∃ l, middleware.GetEvents pageQuery limitQuery s
        = (BookingHandler.StatusOK, Some l)
        ∧ l = take (Z.to_nat limit)
                (drop (Z.to_nat ((page - 1) * limit))
                   (merge_sort EventRepository.start_le (events s)))
        ∧ (length l ≤ 100)%nat
        ∧ StronglySorted EventRepository.start_le l
        ∧ l ⊆ events s)
  ∧ (offset < 0 →
     middleware.GetEvents pageQuery limitQuery s
     = (BookingHandler.StatusInternalServerError, None)).
Proof.
  pose proof (Pagination_page_limit pageQuery limitQuery) as H.
  unfold middleware.GetEvents.
  destruct (middleware.Pagination pageQuery limitQuery) as [[page limit] offset].
  destruct H as (Hp & Hl & ->). unfold EventRepository.GetEvents.
  destruct (Z.ltb_spec limit 0) as [|_]; [lia|]. split.
  - intros Hmax. rewrite wrap_int_id by (unfold MinInt, MaxInt in *; nia).
    destruct (Z.ltb_spec ((page - 1) * limit) 0) as [|_]; [nia|].
    eexists. split; [done|]. split; [done|]. split_and!.
    + rewrite length_take. lia.
    + apply StronglySorted_take, StronglySorted_drop,
        StronglySorted_merge_sort; apply _.
    + intros x Hx. apply subseteq_take, subseteq_drop in Hx.
      by rewrite merge_sort_Permutation in Hx.
  - intros Hneg. by destruct (Z.ltb_spec (middleware.wrap_int ((page - 1) * limit)) 0);
      [|lia].
Qed.

Lemma GetEvents_page_witness :
  middleware.GetEvents (Some "1") (Some "10") example_store
  = (200, Some [example_event])
  ∧ middleware.GetEvents (Some "9223372036854775807") (Some "100") example_store
    = (500, None).
Proof.
  split.
  - destruct (proj1 (GetEvents_page (Some "1") (Some "10") example_store)
                ltac:(by vm_compute)) as (l & -> & -> & _).
    by vm_compute.
  - exact (proj2 (GetEvents_page (Some "9223372036854775807") (Some "100")
                    example_store) eq_refl).
Defined.

Lemma tickets_limit_range (limitQuery : option string) :
  1 <= EventHandler.tickets_limit limitQuery <= 100.
Proof.
  unfold EventHandler.tickets_limit.
  destruct (Atoi (default "50" limitQuery)) as [l|]; [|lia].
  destruct (Z.leb_spec l 0), (Z.ltb_spec 100 l); cbn; lia.
Qed.

(** X6.  The free seats of an event, for a numeric event id.  The limit
    used is between 1 and 100.  When the id is an [INTEGER] of the store
    the answer is 200, with at most [limit] tickets: they are tickets of
    the store, of that event and ['available'], in ascending seat order,
    as many as the limit allows, and every free seat of the event that is
    left out is not lower than any listed one.  When the id is outside
    the [INTEGER] range the store refuses the parameter and the answer is
    500. *)
Theorem GetAvailableTickets_listing (eventIDStr : string) (eventID : Z)
    (limitQuery : option string) (s : Store) :
  Atoi eventIDStr = Some eventID →
  let limit := EventHandler.tickets_limit limitQuery in
  let free := filter (λ x, Ticket.EventID x = eventID
                           ∧ Ticket.Status x = TicketAvailable) (tickets s) in
  1 <= limit <= 100
  ∧ if is_int4 eventID then
      ∃ l, EventHandler.GetAvailableTickets eventIDStr limitQuery s
           = (BookingHandler.StatusOK, Some l)
           ∧ length l = (Z.to_nat limit `min` length free)%nat
           ∧ StronglySorted seat_le l
           ∧ l ⊆ free
           ∧ (∀ x y, x ∈ l → y ∈ free → ¬ (y ∈ l) → seat_le x y)
    else
      EventHandler.GetAvailableTickets eventIDStr limitQuery s
      = (BookingHandler.StatusInternalServerError, None).
Proof.
  intros Hid limit free. pose proof (tickets_limit_range limitQuery) as Hl.
  split; [done|].
  unfold EventHandler.GetAvailableTickets, EventRepository.GetAvailableTickets.
  rewrite Hid. fold limit. fold free.
  destruct (is_int4 eventID); cbn [negb]; [|done].
  destruct (Z.ltb_spec limit 0) as [|_]; [lia|].
  eexists. split; [done|].
  assert (Hs : StronglySorted seat_le (merge_sort seat_le free))
    by (apply StronglySorted_merge_sort; apply _).
  split_and!.
  - by rewrite length_take, merge_sort_Permutation.
  - by apply StronglySorted_take.
  - intros x Hx. apply subseteq_take in Hx.
    by rewrite merge_sort_Permutation in Hx.
  - intros x y Hx Hy Hny.
    rewrite <- (merge_sort_Permutation seat_le free) in Hy.
    rewrite <- (take_drop (Z.to_nat limit) (merge_sort seat_le free)) in Hy, Hs.
    apply elem_of_app in Hy as [Hy|Hy]; [done|].
    by apply (StronglySorted_app_1_elem_of _ _ _ _ _ Hs).
Qed.

Lemma GetAvailableTickets_listing_witness :
  (∃ l, EventHandler.GetAvailableTickets "1" (Some "2") example_store
        = (200, Some l)
        ∧ length l = 2%nat)
  ∧ EventHandler.GetAvailableTickets "3000000000" None example_store
    = (500, None).
Proof.
  split.
  - destruct (GetAvailableTickets_listing "1" 1 (Some "2") example_store eq_refl)
      as (_ & l & H1 & H3 & _).
    exists l. split; [exact H1|]. rewrite H3. by vm_compute.
  - exact (proj2 (GetAvailableTickets_listing "3000000000" 3000000000 None
                    example_store eq_refl)).
Defined.

(** ** Holds: exclusion, the answer of the handler, expiry *)

Lemma query_row_fmap {R} (P : R → Prop) `{!∀ r, Decision (P r)}
    (g : R → R) (rows : list R) :
  (∀ x, P (g x) ↔ P x) →
  query_row P (g <$> rows) = g <$> query_row P rows.
Proof.
  intros Hg. unfold query_row.
  induction rows as [|x rows IH]; [done|].
  rewrite fmap_cons, !filter_cons.
  destruct (decide (P x)) as [Hx|Hx].
  - by rewrite decide_True by (by apply Hg).
  - by rewrite decide_False by (by rewrite Hg).
Qed.

Lemma query_row_update_other {R} (P Q : R → Prop) `{!∀ r, Decision (P r)}
    `{!∀ r, Decision (Q r)} (f : R → R) (rows : list R) :
  (∀ x, P (f x) ↔ P x) →
  query_row P (update_where Q f rows)
  = (λ r, if decide (Q r) then f r else r) <$> query_row P rows.
Proof.
  intros Hf. unfold update_where. apply query_row_fmap.
  intros x. by destruct (decide (Q x)).
Qed.

Lemma query_row_affected {R} (P : R → Prop) `{!∀ r, Decision (P r)}
    (rows : list R) (r : R) :
  query_row P rows = Some r → 0 < rows_affected P rows.
Proof.
  unfold query_row, rows_affected. destruct (filter P rows); [done|].
  cbn [length]. lia.
Qed.

Lemma is_seat_set_status (eventID : Z) (seatNo : string) (st : TicketStatus)
    (now : Z) (x : Ticket.t) :
  EventRepository.is_seat eventID seatNo (Ticket.set_status st now x)
  ↔ EventRepository.is_seat eventID seatNo x.
Proof. done. Qed.

(** What [LockSeat] returns and leaves, by the row of the seat. *)
Lemma LockSeat_outcome (now eventID : Z) (seatNo : string) (s : Store) :
  EventRepository.LockSeat now eventID seatNo s
  = match query_row (EventRepository.is_seat eventID seatNo) (tickets s) with
    | None => (Err (ErrWrap "seat not found: " ErrNoRows), s)
    | Some row =>
        if decide (Ticket.Status row = TicketAvailable) then
          (Ok tt, set_tickets
                    (update_where (EventRepository.is_seat eventID seatNo)
                       (Ticket.set_status TicketLocked now)) s)
        else
          (Err (ErrNew ("seat is no longer available (current status: "
                        +:+ status_text (Ticket.Status row) +:+ ")")), s)
    end.
Proof.
  unfold EventRepository.LockSeat, WithTransaction, EventRepository.lockSeatTx,
    tx_bind, tx_get, tx_fail, tx_modify, tx_ret.
  destruct (query_row _ _) as [row|] eqn:Hq; [|by rewrite rollback_same].
  apply query_row_affected in Hq.
  destruct (decide (Ticket.Status row ≠ TicketAvailable)) as [Hst|Hst].
  - rewrite decide_False by done. by rewrite rollback_same.
  - rewrite decide_True by (by destruct (decide (Ticket.Status row = TicketAvailable))).
    by destruct (Z.eqb_spec (rows_affected (EventRepository.is_seat eventID seatNo)
                              (tickets s)) 0); [lia|].
Qed.

Lemma LockSeat_Ok_row (now eventID : Z) (seatNo : string) (s s1 : Store) :
  EventRepository.LockSeat now eventID seatNo s = (Ok tt, s1) →
  ∃ row,
    query_row (EventRepository.is_seat eventID seatNo) (tickets s) = Some row
    ∧ Ticket.Status row = TicketAvailable
    ∧ s1 = set_tickets (update_where (EventRepository.is_seat eventID seatNo)
                          (Ticket.set_status TicketLocked now)) s
    ∧ query_row (EventRepository.is_seat eventID seatNo) (tickets s1)
      = Some (Ticket.set_status TicketLocked now row).
Proof.
  rewrite LockSeat_outcome.
  destruct (query_row _ (tickets s)) as [row|] eqn:Hq; [|done].
  destruct (decide (Ticket.Status row = TicketAvailable)); [|done].
  intros [= <-]. exists row. split_and!; try done.
  cbn [tickets set_tickets]. by apply query_row_update_where.
Qed.

(** X7.  A hold excludes every other hold of the same seat: once
    [LockSeat] has succeeded, a second [LockSeat] on that seat fails with
    the message that names the status ['locked'], and changes nothing. *)
Theorem LockSeat_exclusive (now1 now2 eventID : Z) (seatNo : string)
    (s s1 : Store) :
  EventRepository.LockSeat now1 eventID seatNo s = (Ok tt, s1) →
  EventRepository.LockSeat now2 eventID seatNo s1
  = (Err (ErrNew "seat is no longer available (current status: locked)"), s1).
Proof.
  intros (row & _ & _ & _ & Hq)%LockSeat_Ok_row.
  by rewrite LockSeat_outcome, Hq.
Qed.

Lemma LockSeat_exclusive_witness :
  ∃ s1, EventRepository.LockSeat 5 1 "S002" example_store = (Ok tt, s1)
        ∧ EventRepository.LockSeat 6 1 "S002" s1
          = (Err (ErrNew "seat is no longer available (current status: locked)"), s1).
Proof.
  eexists. split; [reflexivity|].
  apply (LockSeat_exclusive 5 6 1 "S002" example_store). reflexivity.
Defined.



(** X9.  How long a hold lasts, when the hold lifetime is a whole number
    of minutes: after a hold taken at [t1] and a run of
    [CleanupExpiredLocks] at [now], the seat can be held again exactly
    when [t1] lies more than the lifetime before [now]; otherwise the seat
    is still ['locked'] and a new hold is refused. *)
Theorem hold_expires (cfg : AppConfig) (k t1 now t3 eventID : Z) (seatNo : string)
    (s s1 : Store) :
  SeatLockDuration cfg = k * Minute →
  EventRepository.LockSeat t1 eventID seatNo s = (Ok tt, s1) →
  let s2 := (EventRepository.CleanupExpiredLocks cfg now s1).2 in
  if decide (t1 < now - SeatLockDuration cfg)
  then
    EventRepository.LockSeat t3 eventID seatNo s2
    = (Ok tt, set_tickets (update_where (EventRepository.is_seat eventID seatNo)
                             (Ticket.set_status TicketLocked t3)) s2)
  else
    EventRepository.LockSeat t3 eventID seatNo s2
    = (Err (ErrNew "seat is no longer available (current status: locked)"), s2).
Proof.
  intros Hk (row & _ & _ & _ & Hq)%LockSeat_Ok_row s2.
  pose proof (lockDurationMinutes_whole cfg k Hk) as Hm.
  assert (Hq2 : query_row (EventRepository.is_seat eventID seatNo) (tickets s2)
                = Some (if decide (EventRepository.is_expired_lock cfg now
                                     (Ticket.set_status TicketLocked t1 row))
                        then Ticket.set_status TicketAvailable now
                               (Ticket.set_status TicketLocked t1 row)
                        else Ticket.set_status TicketLocked t1 row)).
  { subst s2. unfold EventRepository.CleanupExpiredLocks.
    cbn [snd tickets set_tickets].
    rewrite query_row_update_other by (intros; apply is_seat_set_status).
    by rewrite Hq. }
  rewrite !LockSeat_outcome, Hq2.
  destruct (decide (EventRepository.is_expired_lock cfg now _)) as [[_ He]|He];
    unfold EventRepository.is_expired_lock in He;
    cbn [Ticket.Status Ticket.UpdatedAt Ticket.set_status] in He; rewrite Hm in He.
  - by rewrite decide_True by done.
  - rewrite decide_False; [done|]. intros Hlt. by apply He.
Qed.

Lemma hold_expires_witness :
  ∃ s1 s3,
    EventRepository.LockSeat 5 1 "S002" example_store = (Ok tt, s1)
    ∧ EventRepository.LockSeat (5 + 4 * Minute) 1 "S002"
        (EventRepository.CleanupExpiredLocks example_cfg (5 + 4 * Minute) s1).2
      = (Ok tt, s3).
Proof.
  eexists _, _. split; [reflexivity|].
  exact (hold_expires example_cfg 3 5 (5 + 4 * Minute) (5 + 4 * Minute) 1 "S002"
           example_store _ eq_refl eq_refl).
Defined.

(** ** Bookings: reading one back, and the end of its life *)

Lemma query_row_appended {R} (P : R → Prop) `{!∀ r, Decision (P r)}
    (rows : list R) (r : R) :
  (∀ x, x ∈ rows → ¬ P x) → P r → query_row P (rows ++ [r]) = Some r.
Proof.
  intros Hno Hr. unfold query_row.
  rewrite filter_app, (filter_none P rows Hno), filter_cons, decide_True by done.
  done.
Qed.

(** X10.  A booking that [BookTickets] returned can be read back: on a
    store whose ticket ids are non-negative [int]s, [GetBooking] on the id
    of the returned booking finds a booking with the same id, user, event,
    ticket ids, quantity and reference, in status ['pending']. *)
Theorem GetBooking_after_BookTickets (cfg : AppConfig)
    (env : BookingRepository.Env) (request : BookingRequest.t)
    (s s' : Store) (b : Booking.t) :
  Forall (λ x, 0 <= Ticket.ID x <= MaxInt) (tickets s) →
  BookingRepository.BookTickets cfg env request s = (Some b, None, s') →
  ∃ b', BookingRepository.GetBooking (Booking.ID b) s' = Ok b'
        ∧ Booking.ID b' = Booking.ID b
        ∧ Booking.UserID b' = BookingRequest.UserID request
        ∧ Booking.EventID b' = BookingRequest.EventID request
        ∧ Booking.TicketIDs b' = Booking.TicketIDs b
        ∧ Booking.Quantity b' = BookingRequest.Quantity request
        ∧ Booking.Status b' = BookingPending
        ∧ Booking.BookingRef b' = Booking.BookingRef b.
Proof.
  intros Hrange Hbook.
  pose proof (BookTickets_cases cfg env request s) as Hc. rewrite Hbook in Hc.
  destruct Hc as (k & s0 & b0 & (_ & _ & Htk & _) & [= <-] & Htx).
  pose proof (bookTicketsWithLock_Ok_int4 _ _ _ _ _ _ Htx) as (_ & _ & Hid4).
  apply bookTicketsWithLock_Ok in Htx
    as (event & _ & _ & _ & _ & Hb & -> & _ & Hfresh & _).
  set (rows := BookingRepository.select_locked (BookingRequest.EventID request)
                 (BookingRequest.Quantity request) (tickets s0)) in *.
  assert (Hid4' : is_int4 (Booking.ID b) = true) by (by rewrite Hb).
  assert (Hids : Forall (λ id, 0 <= id <= MaxInt) (Booking.TicketIDs b)).
  { rewrite Hb. cbn [Booking.TicketIDs]. rewrite Forall_fmap.
    rewrite Forall_forall in Hrange |- *. intros x Hx. apply Hrange.
    rewrite <- Htk. by apply select_locked_subset in Hx as [Hx _]. }
  unfold BookingRepository.GetBooking. rewrite Hid4'. cbn [negb bookings].
  rewrite (query_row_appended _ _ b).
  - rewrite (parseTicketIDs_pg_array_text _ Hids).
    eexists. split; [done|]. by rewrite Hb.
  - intros x Hx Hid. apply Hfresh. unfold BookingRepository.is_booking in Hid.
    rewrite Hb in Hid. cbn [Booking.ID] in Hid. rewrite <- Hid.
    by apply list_elem_of_fmap_2.
  - done.
Qed.

Lemma GetBooking_after_BookTickets_witness :
  ∃ b s' b',
    BookingRepository.BookTickets example_cfg (example_env 10)
      (BookingRequest.mk 1 1 1) example_held = (Some b, None, s')
    ∧ BookingRepository.GetBooking (Booking.ID b) s' = Ok b'
    ∧ Booking.TicketIDs b' = [2].
Proof.
  eexists _, _.
  destruct (GetBooking_after_BookTickets example_cfg (example_env 10)
              (BookingRequest.mk 1 1 1) example_held _ _
              ltac:(by_computation) eq_refl)
    as (b' & H1 & _ & _ & _ & H5 & _).
  exists b'. split; [reflexivity|]. split; [exact H1 | exact H5].
Defined.

Lemma ConfirmBooking_not_pending (now now_db bookingID : Z) (s : Store)
    (booking : Booking.t) :
  query_row (BookingRepository.is_booking bookingID) (bookings s) = Some booking →
  Booking.Status booking ≠ BookingPending →
  BookingRepository.ConfirmBooking now now_db bookingID s
  = (Err (ErrNew "booking is not in pending status"), s).
Proof.
  intros Hq Hst.
  unfold BookingRepository.ConfirmBooking, WithTransaction,
    BookingRepository.confirmBookingTx, tx_bind, tx_get, tx_fail.
  rewrite Hq, decide_True by done. by rewrite rollback_same.
Qed.

Lemma CancelBooking_cancelled (now_db bookingID : Z) (s : Store)
    (booking : Booking.t) :
  query_row (BookingRepository.is_booking bookingID) (bookings s) = Some booking →
  Booking.Status booking = BookingCancelled →
  BookingRepository.CancelBooking now_db bookingID s
  = (Err (ErrNew "booking is already cancelled"), s).
Proof.
  intros Hq Hst.
  unfold BookingRepository.CancelBooking, WithTransaction,
    BookingRepository.cancelBookingTx, tx_bind, tx_get, tx_fail.
  rewrite Hq, decide_True by done. by rewrite rollback_same.
Qed.

Lemma is_booking_set_status (bookingID : Z) (st : BookingStatus) (now : Z)
    (b : Booking.t) :
  BookingRepository.is_booking bookingID b →
  BookingRepository.is_booking bookingID (Booking.set_status st now b).
Proof. done. Qed.

(** X11.  A booking is confirmed once: after [ConfirmBooking] has
    succeeded, a second [ConfirmBooking] of the same booking fails with
    "booking is not in pending status" and changes nothing. *)
Theorem ConfirmBooking_once (now now_db now' now_db' bookingID : Z)
    (s s1 : Store) :
  BookingRepository.ConfirmBooking now now_db bookingID s = (Ok tt, s1) →
  BookingRepository.ConfirmBooking now' now_db' bookingID s1
  = (Err (ErrNew "booking is not in pending status"), s1).
Proof.
  intros Hok.
  destruct (ConfirmBooking_cases now now_db bookingID s)
    as [(e & He)|(booking & ids & Hq & _ & Hs1)]; [congruence|].
  rewrite Hok in Hs1. injection Hs1 as ->.
  eapply ConfirmBooking_not_pending; [|shelve].
  cbn [bookings]. apply query_row_update_where; [|exact Hq].
  intros x. apply is_booking_set_status.
  Unshelve. done.
Qed.

Lemma ConfirmBooking_once_witness :
  ∃ s1, BookingRepository.ConfirmBooking 20 21 1 example_booked = (Ok tt, s1)
        ∧ BookingRepository.ConfirmBooking 30 31 1 s1
          = (Err (ErrNew "booking is not in pending status"), s1).
Proof.
  eexists. split; [reflexivity|].
  apply (ConfirmBooking_once 20 21 30 31 1 example_booked). reflexivity.
Defined.

(** X12.  Cancellation is final: after [CancelBooking] has succeeded, the
    booking can neither be cancelled again ("booking is already
    cancelled") nor confirmed ("booking is not in pending status"), and
    both attempts change nothing. *)
Theorem CancelBooking_final (now_db now' now_db' bookingID : Z) (s s1 : Store) :
  BookingRepository.CancelBooking now_db bookingID s = (Ok tt, s1) →
  BookingRepository.CancelBooking now_db' bookingID s1
  = (Err (ErrNew "booking is already cancelled"), s1)
  ∧ BookingRepository.ConfirmBooking now' now_db' bookingID s1
    = (Err (ErrNew "booking is not in pending status"), s1).
Proof.
  intros Hok.
  destruct (CancelBooking_total now_db bookingID s)
    as [(e & He)|(booking & Hq & _ & Hs1)]; [congruence|].
  rewrite Hok in Hs1. injection Hs1 as ->.
  assert (Hq1 : query_row (BookingRepository.is_booking bookingID)
                  (update_where (BookingRepository.is_booking bookingID)
                     (Booking.set_status BookingCancelled now_db) (bookings s))
                = Some (Booking.set_status BookingCancelled now_db booking)).
  { apply query_row_update_where; [|exact Hq].
    intros x. apply is_booking_set_status. }
  split.
  - by eapply CancelBooking_cancelled; [exact Hq1|].
  - by eapply ConfirmBooking_not_pending; [exact Hq1|].
Qed.

Lemma CancelBooking_final_witness :
  ∃ s1, BookingRepository.CancelBooking 21 1 example_booked = (Ok tt, s1)
        ∧ BookingRepository.CancelBooking 31 1 s1
          = (Err (ErrNew "booking is already cancelled"), s1).
Proof.
  eexists. split; [reflexivity|].
  apply (CancelBooking_final 21 30 31 1 example_booked). reflexivity.
Defined.

(** ** [BookTickets] and the retry loop around it *)

Lemma bookTicketsWithLock_Err_final (cfg : AppConfig) (clk : BookingRepository.Clock)
    (request : BookingRequest.t) (s s' : Store) (e : error) :
  BookingRequest.Quantity request <= 10 →
  is_int4 (BookingRequest.EventID request) = true →
  is_int4 (BookingRequest.UserID request) = true →
  BookingRepository.bookTicketsWithLock cfg clk request s = (Err e, s') →
  isRetryableError e = false.
Proof.
  intros Hq He4 Hu4.
  unfold BookingRepository.bookTicketsWithLock, tx_bind, tx_get.
  set (eventID := BookingRequest.EventID request) in *.
  set (quantity := BookingRequest.Quantity request) in *.
  rewrite He4. cbn [negb].
  destruct (query_row _ (events s)) as [event|] eqn:Hev;
    [|by intros [= <- _]].
  destruct (Z.ltb_spec (Event.StartTime event) (BookingRepository.now_check clk));
    [by intros [= <- _]|].
  destruct (Z.ltb_spec quantity 0); [by intros [= <- _]|].
  rewrite length_fmap.
  destruct (Z.ltb_spec (Z.of_nat (length
              (BookingRepository.select_locked eventID quantity (tickets s))))
              quantity) as [Hlen|Hlen].
  { intros [= <- _]. apply insufficient_message_status; lia. }
  unfold tx_modify, wrap_err, BookingRepository.update_available, tx_bind, tx_get,
    tx_fail.
  cbn [events set_tickets].
  destruct (decide (Exists _ _)) as [|Hcheck]; [by intros [= <- _]|].
  unfold BookingRepository.insert_booking, tx_bind, tx_get, tx_modify, tx_fail,
    tx_ret.
  cbn [Booking.Quantity Booking.TotalAmount Booking.BookingRef Booking.UserID
       bookings_id_seq bookings users set_seq set_events set_tickets set_bookings
       events tickets].
  rewrite Hu4. cbn [negb].
  destruct (is_int4 (bookings_id_seq s + 1)); cbn [negb]; [|by intros [= <- _]].
  destruct (Z.ltb_spec 0 quantity); cbn [negb]; [|by intros [= <- _]].
  destruct (PrimFloat.leb _ _); cbn [negb]; [|by intros [= <- _]].
  destruct (decide (_ ∈ Booking.ID <$> _)); [by intros [= <- _]|].
  destruct (decide (_ ∈ Booking.BookingRef <$> _)); [by intros [= <- _]|].
  destruct (decide (_ ∈ users s)); [done|by intros [= <- _]].
Qed.

(** X13.  For a request of at most ten seats whose event id and user id
    are [INTEGER]s of the store, the retry loop around the booking
    transaction never goes round: every error the transaction itself can
    raise is final, so [BookTickets] is one run of the transaction,
    committed when it succeeds and rolled back when not.  (An id outside
    the [INTEGER] range is quoted in the error of the store, and is
    retried on when its digits spell one of the markers.) *)
Theorem BookTickets_single_attempt (cfg : AppConfig) (env : BookingRepository.Env)
    (request : BookingRequest.t) (s : Store) :
  BookingRequest.Quantity request <= 10 →
  is_int4 (BookingRequest.EventID request) = true →
  is_int4 (BookingRequest.UserID request) = true →
  BookingRepository.BookTickets cfg env request s
  = match WithTransaction
            (BookingRepository.bookTicketsWithLock cfg
               (BookingRepository.clocks env 0) request) s with
    | (Ok b, s') => (Some b, None, s')
    | (Err e, s') => (None, Some e, s')
    end.
Proof.
  intros Hq He4 Hu4. unfold BookingRepository.BookTickets, WithRetry.
  change (Z.to_nat (3 + 1)) with 4%nat. cbn [retry_loop].
  unfold BookingRepository.attempt at 1.
  cbn [BookingRepository.rs_store BookingRepository.rs_attempts
       BookingRepository.rs_waits].
  unfold WithTransaction.
  destruct (BookingRepository.bookTicketsWithLock _ _ _ _) as [[b|e] s1] eqn:Htx;
    [done|].
  by rewrite (bookTicketsWithLock_Err_final _ _ _ _ _ _ Hq He4 Hu4 Htx).
Qed.

Lemma BookTickets_single_attempt_witness :
  BookingRepository.BookTickets example_cfg (example_env 10)
    (BookingRequest.mk 1 1 3) example_held
  = (None,
     Some (ErrNew "insufficient locked seats for booking. Found 1 locked seats, need 3. Please select seats first"),
     example_held).
Proof.
  exact (BookTickets_single_attempt example_cfg (example_env 10)
           (BookingRequest.mk 1 1 3) example_held ltac:(by cbn) eq_refl eq_refl).
Defined.

Lemma attempt_insufficient (cfg : AppConfig) (env : BookingRepository.Env)
    (request : BookingRequest.t) (s : Store) (event : Event.t) (k w : nat) :
  let found := count_where (BookingRepository.is_locked_of
                              (BookingRequest.EventID request)) (tickets s) in
  EventRepository.GetEvent (BookingRequest.EventID request) s = Ok event →
  BookingRepository.now_check (BookingRepository.clocks env k)
  <= Event.StartTime event →
  0 <= BookingRequest.Quantity request →
  found < BookingRequest.Quantity request →
  BookingRepository.attempt cfg env request (BookingRepository.mkRetry s None k w)
  = (Some (ErrNew (BookingRepository.insufficient_message found
                     (BookingRequest.Quantity request))),
     BookingRepository.mkRetry s None (S k) w).
Proof.
  intros found Hev Hle Hq Hfound.
  unfold BookingRepository.attempt, WithTransaction.
  cbn [BookingRepository.rs_store BookingRepository.rs_attempts
       BookingRepository.rs_waits].
  rewrite (bookTicketsWithLock_insufficient cfg _ request s event Hev Hle Hq Hfound).
  by rewrite rollback_same.
Qed.

(** X14.  Whether a failed attempt is retried is read off the text of its
    error.  The message of a request that asks for more seats than are
    held carries the two numbers, and when this text happens to contain
    one of the markers of a retryable error (such as the digits 40001)
    the attempt is repeated until the retries are used up: [BookTickets]
    then returns the message wrapped in "operation failed after 3
    retries: ", and the store is unchanged. *)
Theorem BookTickets_retries_on_message (cfg : AppConfig)
    (env : BookingRepository.Env) (request : BookingRequest.t) (s : Store)
    (event : Event.t) :
  let found := count_where (BookingRepository.is_locked_of
                              (BookingRequest.EventID request)) (tickets s) in
  let e := ErrNew (BookingRepository.insufficient_message found
                     (BookingRequest.Quantity request)) in
  EventRepository.GetEvent (BookingRequest.EventID request) s = Ok event →
  (∀ k, BookingRepository.now_check (BookingRepository.clocks env k)
        <= Event.StartTime event) →
  (∀ k, BookingRepository.ctx_done env k = None) →
  0 <= found < BookingRequest.Quantity request →
  isRetryableError e = true →
  BookingRepository.BookTickets cfg env request s
  = (None, Some (ErrWrap "operation failed after 3 retries: " e), s).
Proof.
  intros found e Hev Hclk Hctx [H0 Hfound] Hre.
  assert (Hq : 0 <= BookingRequest.Quantity request) by lia.
  pose proof (λ k w, attempt_insufficient cfg env request s event k w
                       Hev (Hclk k) Hq Hfound) as Ha.
  fold found in Ha. fold e in Ha.
  assert (Hloop : ∀ n i err k w, ∃ k' w',
            retry_loop 3 (BookingRepository.attempt cfg env request)
              (BookingRepository.wait env) (S n) i err
              (BookingRepository.mkRetry s None k w)
            = (Some (ErrWrap "operation failed after 3 retries: " e),
               BookingRepository.mkRetry s None k' w')).
  { induction n as [|n IH]; intros i err k w.
    - cbn [retry_loop]. rewrite Ha, Hre. cbn [negb].
      unfold BookingRepository.wait. rewrite Hctx.
      destruct (i <? 3); eauto.
    - change (retry_loop 3 ?f ?g (S (S n)) i err ?st)
        with (match f st with
              | (None, w1) => (None, w1)
              | (Some e0, w1) =>
                  if negb (isRetryableError e0) then (Some e0, w1)
                  else if i <? 3 then
                    match g w1 with
                    | (Some ctx_err, w2) => (Some ctx_err, w2)
                    | (None, w2) => retry_loop 3 f g (S n) (i + 1) (Some e0) w2
                    end
                  else retry_loop 3 f g (S n) (i + 1) (Some e0) w1
              end).
      rewrite Ha, Hre. cbn [negb].
      unfold BookingRepository.wait. rewrite Hctx.
      cbn [BookingRepository.rs_store BookingRepository.rs_booking
           BookingRepository.rs_attempts BookingRepository.rs_waits].
      destruct (i <? 3); apply IH. }
  unfold BookingRepository.BookTickets, WithRetry.
  change (Z.to_nat (3 + 1)) with 4%nat.
  destruct (Hloop 3%nat 0 None 0%nat 0%nat) as (k' & w' & ->). done.
Qed.

Lemma BookTickets_retries_on_message_witness :
  ∃ msg,
    BookingRepository.BookTickets example_cfg (example_env 10)
      (BookingRequest.mk 1 1 40001) example_held
    = (None, Some (ErrWrap "operation failed after 3 retries: " (ErrNew msg)),
       example_held).
Proof.
  eexists.
  exact (BookTickets_retries_on_message example_cfg (example_env 10)
           (BookingRequest.mk 1 1 40001) example_held example_event
           eq_refl ltac:(intros k; by vm_compute) (λ k, eq_refl)
           ltac:(by vm_compute) ltac:(by vm_compute)).
Defined.

(** ** The mutations together: failures, the ticket state machine *)

(** X15.  A mutation that returns an error leaves every table as it
    was. *)
Theorem failed_mutation_changes_nothing (cfg : AppConfig) (m : Mutation)
    (s : Store) (e : error) :
  returned_error cfg m s = Some e → same_tables s (commit cfg m s).
Proof.
  destruct m as [now eventID seatNo|now eventID seatNo|now|env request
                 |now now_db bookingID|now_db bookingID];
    cbn [returned_error commit].
  - destruct (LockSeat_cases now eventID seatNo s) as [(e' & ->)|(row & _ & _ & ->)];
      done.
  - done.
  - done.
  - pose proof (BookTickets_cases cfg env request s) as Hc.
    destruct (BookingRepository.BookTickets cfg env request s) as [[ob [e'|]] s'];
      [|done].
    by destruct Hc.
  - destruct (ConfirmBooking_cases now now_db bookingID s)
      as [(e' & ->)|(booking & ids & _ & _ & ->)]; done.
  - destruct (CancelBooking_total now_db bookingID s)
      as [(e' & ->)|(booking & _ & _ & ->)]; done.
Qed.

Lemma failed_mutation_changes_nothing_witness :
  same_tables example_held (commit example_cfg (hold 20 1 "S002") example_held).
Proof.
  apply (failed_mutation_changes_nothing example_cfg (hold 20 1 "S002") example_held
           (ErrNew "seat is no longer available (current status: locked)")).
  reflexivity.
Defined.

Lemma update_status_edges (m : Mutation) (P : Ticket.t → Prop)
    `{!∀ x, Decision (P x)} (st : TicketStatus) (now : Z) (rows : list Ticket.t) :
  (∀ x, x ∈ rows → P x → edge m (Ticket.Status x) st) →
  Forall2 (λ x y, Ticket.ID y = Ticket.ID x
                  ∧ Ticket.EventID y = Ticket.EventID x
                  ∧ Ticket.SeatNo y = Ticket.SeatNo x
                  ∧ (y = x ∨ edge m (Ticket.Status x) (Ticket.Status y)))
    rows (update_where P (Ticket.set_status st now) rows).
Proof.
  intros Hedge. unfold update_where. apply Forall2_fmap_r, Forall_Forall2_diag.
  apply Forall_forall. intros x Hx. unfold compose.
  case_decide as HP; [|repeat split; auto].
  split_and!; try done. right. by apply Hedge.
Qed.

Lemma same_tickets_edges (m : Mutation) (rows : list Ticket.t) :
  Forall2 (λ x y, Ticket.ID y = Ticket.ID x
                  ∧ Ticket.EventID y = Ticket.EventID x
                  ∧ Ticket.SeatNo y = Ticket.SeatNo x
                  ∧ (y = x ∨ edge m (Ticket.Status x) (Ticket.Status y)))
    rows rows.
Proof. apply Forall_Forall2_diag, Forall_forall. intros x _. repeat split; auto. Qed.

(** X16.  The ticket state machine.  On a consistent store a mutation
    neither adds nor removes a ticket, never changes the id, the event or
    the seat of one, and changes the status of a ticket only along its own
    edge: a hold from ['available'] to ['locked'], a release and the
    reclaim from ['locked'] to ['available'], a booking from ['locked'] to
    ['reserved'], a confirmation from ['reserved'] to ['sold'], and a
    cancellation from ['reserved'] or ['sold'] to ['available']. *)
Theorem ticket_transitions (cfg : AppConfig) (m : Mutation) (s : Store) :
  consistent s →
  Forall2 (λ x y, Ticket.ID y = Ticket.ID x
                  ∧ Ticket.EventID y = Ticket.EventID x
                  ∧ Ticket.SeatNo y = Ticket.SeatNo x
                  ∧ (y = x ∨ edge m (Ticket.Status x) (Ticket.Status y)))
    (tickets s) (tickets (commit cfg m s)).
Proof.
  intros Hs. pose proof Hs as ((Hids & Hrange & Hseats) & Hbkeys & _ & Hbook & _).
  destruct m as [now eventID seatNo|now eventID seatNo|now|env request
                 |now now_db bookingID|now_db bookingID];
    cbn [commit].
  - destruct (LockSeat_cases now eventID seatNo s)
      as [(e' & ->)|(row & Hq & Hst & ->)]; [apply same_tickets_edges|].
    cbn [snd tickets set_tickets]. apply update_status_edges.
    intros x Hx [He Hseat]. apply query_row_Some in Hq as [Hrow [He' Hseat']].
    assert (x = row) as ->.
    { apply (key_unique seat_key (tickets s)); try done.
      unfold seat_key. congruence. }
    done.
  - cbn [EventRepository.UnlockSeat snd tickets set_tickets].
    apply update_status_edges. by intros x _ [_ Hl].
  - cbn [EventRepository.CleanupExpiredLocks snd tickets set_tickets].
    apply update_status_edges. by intros x _ [Hl _].
  - pose proof (BookTickets_cases cfg env request s) as Hc.
    destruct (BookingRepository.BookTickets cfg env request s) as [[ob [e'|]] s'];
      cbn [snd].
    + destruct Hc as [(_ & _ & -> & _) _]. apply same_tickets_edges.
    + destruct Hc as (k & s0 & b & (_ & _ & Htk & _) & _ & Htx).
      apply bookTicketsWithLock_Ok in Htx as (event & _ & _ & _ & _ & _ & -> & _).
      cbn [tickets]. rewrite Htk. apply update_status_edges.
      intros x Hx (y & Hxy & Hy)%list_elem_of_fmap.
      apply select_locked_subset in Hy as [Hy [_ Hl]].
      assert (x = y) as -> by (by apply (key_unique Ticket.ID (tickets s))).
      done.
  - destruct (ConfirmBooking_cases now now_db bookingID s)
      as [(e' & ->)|(booking & ids & _ & _ & ->)]; [apply same_tickets_edges|].
    cbn [snd tickets]. apply update_status_edges. by intros x _ [_ Hr].
  - destruct (CancelBooking_total now_db bookingID s)
      as [(e' & ->)|(booking & Hq & Hst & ->)]; [apply same_tickets_edges|].
    cbn [snd tickets]. apply update_status_edges.
    intros x Hx Hid.
    apply query_row_Some in Hq as [Hin _].
    assert (Hbok : booking_ok (tickets s) booking).
    { rewrite Forall_forall in Hbook. by apply Hbook. }
    destruct Hbok as [_ Hexist].
    assert (Hr : Forall (λ id, 0 <= id <= MaxInt) (Booking.TicketIDs booking)).
    { rewrite Forall_forall in Hexist. rewrite Forall_forall in Hrange.
      apply Forall_forall. intros id Hidin.
      specialize (Hexist id Hidin).
      apply Exists_exists in Hexist as (y & Hy & <- & _). by apply Hrange. }
    rewrite parseTicketIDs_pg_array_text in Hid by done.
    destruct (active_booking_ticket s booking x Hs Hin Hst Hx Hid) as (_ & _ & Ht).
    done.
Qed.

Lemma ticket_transitions_witness :
  Forall2 (λ x y, Ticket.ID y = Ticket.ID x
                  ∧ Ticket.EventID y = Ticket.EventID x
                  ∧ Ticket.SeatNo y = Ticket.SeatNo x
                  ∧ (y = x ∨ (Ticket.Status x = TicketAvailable
                              ∧ Ticket.Status y = TicketLocked)))
    (tickets example_store)
    (tickets (commit example_cfg (hold 5 1 "S002") example_store)).
Proof.
  apply (ticket_transitions example_cfg (hold 5 1 "S002") example_store).
  by_computation.
Defined.

(** ** After any sequence of mutations *)

Lemma run_consistent (cfg : AppConfig) (ms : list Mutation) (s : Store) :
  consistent s → consistent (run cfg ms s).
Proof.
  revert s. induction ms as [|m ms IH]; intros s Hs; [done|].
  cbn [run fold_left]. apply IH. by apply commit_consistent.
Qed.

Lemma NoDup_concat_filter_disjoint {A B} (f : A → list B) (P : A → Prop)
    `{!∀ a, Decision (P a)} (l : list A) (i j : nat) (a b : A) (x : B) :
  NoDup (concat (f <$> filter P l)) →
  l !! i = Some a → l !! j = Some b → i ≠ j → P a → P b →
  x ∈ f a → ¬ (x ∈ f b).
Proof.
  revert i j. induction l as [|c l IH]; intros i j Hnd Hi Hj Hij Ha Hb Hxa Hxb;
    [done|].
  rewrite filter_cons in Hnd.
  destruct i as [|i], j as [|j]; [done| | |].
  - injection Hi as ->. rewrite decide_True in Hnd by done.
    rewrite fmap_cons, concat_cons in Hnd.
    apply NoDup_app in Hnd as (_ & Hdisj & _). apply (Hdisj x Hxa).
    apply elem_of_concat. exists (f b). split; [|done].
    apply list_elem_of_fmap_2, list_elem_of_filter. split; [done|].
    by eapply list_elem_of_lookup_2.
  - injection Hj as ->. rewrite decide_True in Hnd by done.
    rewrite fmap_cons, concat_cons in Hnd.
    apply NoDup_app in Hnd as (_ & Hdisj & _). apply (Hdisj x Hxb).
    apply elem_of_concat. exists (f a). split; [|done].
    apply list_elem_of_fmap_2, list_elem_of_filter. split; [done|].
    by eapply list_elem_of_lookup_2.
  - apply (IH i j); try done; [|lia].
    destruct (decide (P c)); [|done].
    rewrite fmap_cons, concat_cons in Hnd. by apply NoDup_app in Hnd as (_ & _ & ?).
Qed.

(** X17.  No double booking: in every state committed by a sequence of
    mutations that starts from a consistent store, two different bookings
    that are not cancelled never name the same ticket. *)
Theorem no_double_booking (cfg : AppConfig) (ms : list Mutation) (s : Store)
    (i j : nat) (b1 b2 : Booking.t) (id : Z) :
  consistent s →
  bookings (run cfg ms s) !! i = Some b1 →
  bookings (run cfg ms s) !! j = Some b2 →
  i ≠ j →
  Booking.Status b1 ≠ BookingCancelled →
  Booking.Status b2 ≠ BookingCancelled →
  id ∈ Booking.TicketIDs b1 → ¬ (id ∈ Booking.TicketIDs b2).
Proof.
  intros Hs Hi Hj Hij H1 H2.
  destruct (run_consistent cfg ms s Hs) as (_ & _ & _ & _ & Hnd).
  by apply (NoDup_concat_filter_disjoint Booking.TicketIDs active
              (bookings (run cfg ms s)) i j).
Qed.

Lemma no_double_booking_witness :
  let s' := run example_cfg
              [hold 5 1 "S001"; book (example_env 10) (BookingRequest.mk 1 1 1);
               hold 11 1 "S002"; book (example_env 12) (BookingRequest.mk 1 1 1)]
              example_store in
  ∃ b1 b2, bookings s' !! 0%nat = Some b1 ∧ bookings s' !! 1%nat = Some b2
           ∧ Booking.TicketIDs b1 = [1] ∧ ¬ (1 ∈ Booking.TicketIDs b2).
Proof.
  intros s'. eexists _, _. split; [reflexivity|]. split; [reflexivity|].
  split; [reflexivity|].
  eapply (no_double_booking example_cfg
           [hold 5 1 "S001"; book (example_env 10) (BookingRequest.mk 1 1 1);
            hold 11 1 "S002"; book (example_env 12) (BookingRequest.mk 1 1 1)]
           example_store 0 1 _ _ 1);
    [by_computation | reflexivity | reflexivity | done | done | done
    | by_computation].
Defined.

Lemma query_row_exists {R} (P : R → Prop) `{!∀ r, Decision (P r)}
    (rows : list R) (x : R) :
  x ∈ rows → P x → ∃ r, query_row P rows = Some r.
Proof.
  intros Hx HP. unfold query_row.
  assert (Hin : x ∈ filter P rows) by (by apply list_elem_of_filter).
  destruct (filter P rows); [by apply elem_of_nil in Hin|]. eauto.
Qed.

(** X18.  A booked seat cannot be held: in every state committed by a
    sequence of mutations that starts from a consistent store, a ticket
    named by a booking that is not cancelled is ['reserved'] or ['sold'],
    and [LockSeat] on its seat fails with the message that names this
    status, changing nothing. *)
Theorem booked_seat_not_held (cfg : AppConfig) (ms : list Mutation) (s : Store)
    (b : Booking.t) (x : Ticket.t) (now : Z) :
  consistent s →
  let s' := run cfg ms s in
  b ∈ bookings s' → Booking.Status b ≠ BookingCancelled →
  x ∈ tickets s' → Ticket.ID x ∈ Booking.TicketIDs b →
  (Ticket.Status x = TicketReserved ∨ Ticket.Status x = TicketSold)
  ∧ EventRepository.LockSeat now (Ticket.EventID x) (Ticket.SeatNo x) s'
    = (Err (ErrNew ("seat is no longer available (current status: "
                    +:+ status_text (Ticket.Status x) +:+ ")")), s').
Proof.
  intros Hs s' Hb Hact Hx Hid.
  pose proof (run_consistent cfg ms s Hs) as Hs'. fold s' in Hs'.
  destruct (active_booking_ticket s' b x Hs' Hb Hact Hx Hid) as (_ & _ & Hst).
  split; [done|].
  rewrite LockSeat_outcome.
  destruct (query_row_exists
              (EventRepository.is_seat (Ticket.EventID x) (Ticket.SeatNo x))
              (tickets s') x Hx ltac:(done)) as (row & Hq).
  rewrite Hq. apply query_row_Some in Hq as [Hrow [He Hseat]].
  assert (row = x) as ->.
  { destruct Hs' as ((_ & _ & Hseats) & _).
    apply (key_unique seat_key (tickets s')); try done.
    unfold seat_key. congruence. }
  rewrite decide_False; [done|]. by destruct Hst as [-> | ->].
Qed.

Lemma booked_seat_not_held_witness :
  EventRepository.LockSeat 20 1 "S002" example_booked
  = (Err (ErrNew "seat is no longer available (current status: reserved)"),
     example_booked).
Proof.
  exact (proj2 (booked_seat_not_held example_cfg [] example_booked example_booking
                  (example_ticket 2 "S002" TicketReserved 10) 20
                  ltac:(by_computation) ltac:(by constructor) ltac:(done)
                  ltac:(by do 2 constructor) ltac:(by constructor))).
Defined.

(** ** Creating an event *)

Lemma insert_ticket_Ok (now eventID : Z) (seatNo : string)
    (q q' : EventRepository.Sequences) (s s' : Store) :
  EventRepository.insert_ticket now eventID seatNo (q, s) = (Ok tt, (q', s')) →
  let id := EventRepository.tickets_id_seq q + 1 in
  q' = EventRepository.mkSequences (EventRepository.events_id_seq q) id
  ∧ s' = set_tickets
           (λ rows, rows ++ [Ticket.mk id eventID seatNo TicketAvailable now]) s
  ∧ ¬ (id ∈ Ticket.ID <$> tickets s)
  ∧ ¬ ((eventID, seatNo) ∈ seat_key <$> tickets s)
  ∧ eventID ∈ Event.ID <$> events s.
Proof.
  unfold EventRepository.insert_ticket.
  destruct (decide (_ ∈ Ticket.ID <$> _)); [done|].
  destruct (decide (_ ∈ _ <$> tickets s)); [done|].
  destruct (decide (_ ∈ Event.ID <$> _)); [|done].
  by intros [= <- <-].
Qed.

Lemma create_tickets_Ok (now eventID : Z) (len : nat) (start : Z)
    (q q' : EventRepository.Sequences) (s s' : Store) :
  EventRepository.create_tickets now eventID (seqZ start (Z.of_nat len)) (q, s)
  = (Ok tt, (q', s')) →
  q' = EventRepository.mkSequences (EventRepository.events_id_seq q)
         (EventRepository.tickets_id_seq q + Z.of_nat len)
  ∧ s' = set_tickets
           (λ rows, rows ++
              ((λ i, Ticket.mk (EventRepository.tickets_id_seq q + (i - start + 1))
                       eventID (EventRepository.seatNo_of i) TicketAvailable now)
               <$> seqZ start (Z.of_nat len))) s
  ∧ (NoDup (Ticket.ID <$> tickets s) → NoDup (Ticket.ID <$> tickets s'))
  ∧ (NoDup (seat_key <$> tickets s) → NoDup (seat_key <$> tickets s')).
Proof.
  revert start q s. induction len as [|len IH]; intros start q s.
  - cbn. intros [= <- <-]. split_and!; try done.
    + destruct q. cbn. f_equal. lia.
    + destruct s. unfold set_tickets. cbn. by rewrite app_nil_r.
  - rewrite seqZ_cons by lia.
    replace (Z.pred (Z.of_nat (S len))) with (Z.of_nat len) by lia.
    cbn [EventRepository.create_tickets].
    destruct (EventRepository.insert_ticket _ _ _ _) as [[[]|e] [q1 s1]] eqn:Hins;
      [|done].
    apply insert_ticket_Ok in Hins as (-> & -> & Hid & Hkey & _).
    intros (-> & -> & Hnd1 & Hnd2)%IH.
    cbn [EventRepository.tickets_id_seq EventRepository.events_id_seq
         tickets set_tickets] in *.
    split_and!.
    + f_equal. lia.
    + unfold set_tickets. cbn. f_equal. rewrite <- app_assoc. f_equal.
      cbn [app fmap list_fmap]. f_equal; [f_equal; lia|].
      apply list_fmap_ext. intros _ i _. f_equal. lia.
    + intros Hnd. apply Hnd1. rewrite fmap_app. apply NoDup_app.
      split_and!; [done| |apply NoDup_singleton].
      intros x Hx ->%list_elem_of_singleton. by apply Hid.
    + intros Hnd. apply Hnd2. rewrite fmap_app. apply NoDup_app.
      split_and!; [done| |apply NoDup_singleton].
      intros x Hx ->%list_elem_of_singleton. by apply Hkey.
Qed.

Lemma CreateEvent_Ok (now : Z) (event ev : Event.t)
    (q q' : EventRepository.Sequences) (s s' : Store) :
  EventRepository.CreateEvent now event (q, s) = (Ok ev, (q', s')) →
  let total := Event.TotalTickets event in
  let eventID := EventRepository.events_id_seq q + 1 in
  0 < total
  ∧ ev = Event.mk eventID (Event.Name event) (Event.StartTime event) total total
           (Event.Price event) now
  ∧ ¬ (eventID ∈ Event.ID <$> events s)
  ∧ q' = EventRepository.mkSequences eventID
           (EventRepository.tickets_id_seq q + total)
  ∧ s' = mkStore (users s) (events s ++ [ev])
           (tickets s ++
              ((λ i, Ticket.mk (EventRepository.tickets_id_seq q + i) eventID
                       (EventRepository.seatNo_of i) TicketAvailable now)
               <$> seqZ 1 total))
           (bookings s) (bookings_id_seq s)
  ∧ (NoDup (Ticket.ID <$> tickets s) → NoDup (Ticket.ID <$> tickets s'))
  ∧ (NoDup (seat_key <$> tickets s) → NoDup (seat_key <$> tickets s')).
Proof.
  unfold EventRepository.CreateEvent, EventRepository.createEventTx.
  destruct (Z.ltb_spec 0 (Event.TotalTickets event)) as [Hpos|]; cbn [negb]; [|done].
  destruct (PrimFloat.leb 0 (Event.Price event)); cbn [negb]; [|done].
  destruct (decide (_ ∈ Event.ID <$> events s)) as [|Hfresh]; [done|].
  destruct (EventRepository.create_tickets _ _ _ _) as [[[]|e] [q1 s1]] eqn:Hct;
    [|done].
  intros [= <- <- <-].
  rewrite <- (Z2Nat.id (Event.TotalTickets event)) in Hct by lia.
  apply create_tickets_Ok in Hct as (-> & -> & Hnd1 & Hnd2).
  rewrite Z2Nat.id in * by lia.
  cbn [EventRepository.tickets_id_seq EventRepository.events_id_seq
       tickets set_tickets set_events] in *.
  split_and!; try done.
  unfold set_tickets, set_events. cbn. f_equal. f_equal.
  apply list_fmap_ext. intros _ i _. f_equal. lia.
Qed.

Lemma count_where_app {R} (P : R → Prop) `{!∀ r, Decision (P r)} (a b : list R) :
  count_where P (a ++ b) = count_where P a + count_where P b.
Proof. unfold count_where. rewrite filter_app, length_app. lia. Qed.

Lemma count_where_all {R} (P : R → Prop) `{!∀ r, Decision (P r)} (rows : list R) :
  (∀ r, r ∈ rows → P r) → count_where P rows = Z.of_nat (length rows).
Proof.
  intros Hall. unfold count_where. f_equal. f_equal.
  induction rows as [|r rows IH]; [done|].
  rewrite filter_cons, decide_True by (apply Hall; left).
  f_equal. apply IH. intros r' Hr'. apply Hall. by right.
Qed.

Lemma count_where_zero {R} (P : R → Prop) `{!∀ r, Decision (P r)} (rows : list R) :
  (∀ r, r ∈ rows → ¬ P r) → count_where P rows = 0.
Proof. intros Hno. unfold count_where. by rewrite filter_none. Qed.

(** X19.  What a successful [CreateEvent] leaves, on a store whose tickets
    all belong to events of the store: the event is added with all its
    tickets on the counter; its tickets are exactly one per index from 1
    to [total_tickets], in this order, with consecutive ids, the seat
    labels of the indices and the status ['available'], so that the
    counter is the number of its available tickets; users and bookings
    are untouched, and again every ticket belongs to an event. *)
Theorem CreateEvent_creates (now : Z) (event ev : Event.t)
    (q q' : EventRepository.Sequences) (s s' : Store) :
  (∀ x, x ∈ tickets s → Ticket.EventID x ∈ Event.ID <$> events s) →
  EventRepository.CreateEvent now event (q, s) = (Ok ev, (q', s')) →
  Event.ID ev = EventRepository.events_id_seq q + 1
  ∧ Event.AvailableTickets ev = Event.TotalTickets event
  ∧ 0 < Event.TotalTickets event
  ∧ events s' = events s ++ [ev]
  ∧ filter (λ x, Ticket.EventID x = Event.ID ev) (tickets s')
    = (λ i, Ticket.mk (EventRepository.tickets_id_seq q + i) (Event.ID ev)
              (EventRepository.seatNo_of i) TicketAvailable now)
      <$> seqZ 1 (Event.TotalTickets event)
  ∧ count_where (is_available_of (Event.ID ev)) (tickets s')
    = Event.AvailableTickets ev
  ∧ users s' = users s ∧ bookings s' = bookings s
  ∧ (∀ x, x ∈ tickets s' → Ticket.EventID x ∈ Event.ID <$> events s').
Proof.
  intros Href (Hpos & -> & Hfresh & -> & -> & _)%CreateEvent_Ok.
  cbn [Event.ID Event.AvailableTickets events tickets users bookings].
  set (eventID := EventRepository.events_id_seq q + 1) in *.
  set (new := (λ i, Ticket.mk (EventRepository.tickets_id_seq q + i) eventID
                      (EventRepository.seatNo_of i) TicketAvailable now)
              <$> seqZ 1 (Event.TotalTickets event)).
  assert (Hold : ∀ x, x ∈ tickets s → Ticket.EventID x ≠ eventID).
  { intros x Hx Heq. apply Hfresh. rewrite <- Heq. by apply Href. }
  assert (Hnew : ∀ x, x ∈ new → Ticket.EventID x = eventID
                                ∧ Ticket.Status x = TicketAvailable).
  { by intros x (i & -> & _)%list_elem_of_fmap. }
  split_and!; try done.
  - rewrite filter_app, (filter_none _ (tickets s)) by done.
    cbn [app]. induction new as [|x new' IH]; [done|].
    rewrite filter_cons, decide_True by (apply Hnew; left).
    f_equal. apply IH. intros y Hy. apply Hnew. by right.
  - rewrite count_where_app, (count_where_zero _ (tickets s)),
      (count_where_all _ new).
    + subst new. rewrite length_fmap, length_seqZ. lia.
    + intros x Hx. apply Hnew, Hx.
    + intros x Hx [Heq _]. by apply (Hold x).
  - intros x [Hx|Hx]%elem_of_app; rewrite fmap_app.
    + apply elem_of_app. left. by apply Href.
    + apply elem_of_app. right. apply Hnew in Hx as [-> _]. cbn. left.
Qed.

Lemma CreateEvent_creates_witness :
  ∃ ev q' s',
    EventRepository.CreateEvent 7 (Event.mk 0 "Show" (1440 * Minute) 3 0 100%float 0)
      (EventRepository.mkSequences 0 0, mkStore [1] [] [] [] 0)
    = (Ok ev, (q', s'))
    ∧ Event.AvailableTickets ev = 3
    ∧ tickets s' = [example_ticket 1 "S001" TicketAvailable 7;
                    example_ticket 2 "S002" TicketAvailable 7;
                    example_ticket 3 "S003" TicketAvailable 7].
Proof.
  eexists _, _, _. split; [reflexivity|].
  split; [|reflexivity].
  refine (proj1 (proj2 (CreateEvent_creates 7
                          (Event.mk 0 "Show" (1440 * Minute) 3 0 100%float 0) _
                          (EventRepository.mkSequences 0 0) _
                          (mkStore [1] [] [] [] 0) _ _ eq_refl))).
  by intros x ?%elem_of_nil.
Defined.

(** X20.  [CreateEvent] keeps a store consistent: when every ticket
    belongs to an event of the store and the ticket ids it draws are
    non-negative [int]s, a successful creation takes a consistent store
    to a consistent store, and if the counter of every event was the
    number of its ['available'] tickets, it still is. *)
Theorem CreateEvent_consistent (now : Z) (event ev : Event.t)
    (q q' : EventRepository.Sequences) (s s' : Store) :
  consistent s →
  (∀ x, x ∈ tickets s → Ticket.EventID x ∈ Event.ID <$> events s) →
  0 <= EventRepository.tickets_id_seq q →
  EventRepository.tickets_id_seq q + Event.TotalTickets event <= MaxInt →
  EventRepository.CreateEvent now event (q, s) = (Ok ev, (q', s')) →
  consistent s' ∧ (counter_is_available s → counter_is_available s').
Proof.
  intros ((Hids & Hrange & Hseats) & Hbkeys & Hcount & Hbook & Hnd) Href Hq0 Hqmax
    (Hpos & -> & Hfresh & -> & -> & Hnd1 & Hnd2)%CreateEvent_Ok.
  cbn [tickets] in Hnd1, Hnd2.
  set (eventID := EventRepository.events_id_seq q + 1) in *.
  set (total := Event.TotalTickets event) in *.
  set (new := (λ i, Ticket.mk (EventRepository.tickets_id_seq q + i) eventID
                      (EventRepository.seatNo_of i) TicketAvailable now)
              <$> seqZ 1 total) in *.
  assert (Hold : ∀ x, x ∈ tickets s → Ticket.EventID x ≠ eventID).
  { intros x Hx Heq. apply Hfresh. rewrite <- Heq. by apply Href. }
  assert (Hnew : ∀ x, x ∈ new → Ticket.EventID x = eventID
                                ∧ Ticket.Status x = TicketAvailable
                                ∧ 0 <= Ticket.ID x <= MaxInt).
  { intros x (i & -> & Hi%elem_of_seqZ)%list_elem_of_fmap. cbn.
    split_and!; try done; lia. }
  assert (Hlen : Z.of_nat (length new) = total).
  { subst new. rewrite length_fmap, length_seqZ. lia. }
  assert (Hcounts : ∀ (P : Z → Ticket.t → Prop) `{!∀ id x, Decision (P id x)},
            (∀ id x, P id x → Ticket.EventID x = id) →
            (∀ x, x ∈ new → P eventID x) →
            Forall (λ e, Event.AvailableTickets e
                         = count_where (P (Event.ID e)) (tickets s)) (events s) →
            Forall (λ e, Event.AvailableTickets e
                         = count_where (P (Event.ID e)) (tickets s ++ new))
              (events s ++ [Event.mk eventID (Event.Name event)
                              (Event.StartTime event) total total
                              (Event.Price event) now])).
  { intros P HPdec HPev HPnew Hc. apply Forall_app. split.
    - rewrite Forall_forall in Hc |- *. intros e He.
      rewrite count_where_app, (count_where_zero _ new), Z.add_0_r; [by apply Hc|].
      intros x Hx HP%HPev. apply Hnew in Hx as [Hx _].
      apply Hfresh. rewrite <- Hx, HP. by apply list_elem_of_fmap_2.
    - apply Forall_singleton. cbn [Event.AvailableTickets Event.ID].
      rewrite count_where_app, (count_where_zero _ (tickets s)),
        (count_where_all _ new); [lia|done|].
      intros x Hx HP%HPev. by apply (Hold x). }
  split.
  - refine (conj _ (conj _ (conj _ (conj _ _)))).
    + refine (conj _ (conj _ _)); cbn [tickets]; [by apply Hnd1| |by apply Hnd2].
      apply Forall_app. split; [done|]. apply Forall_forall.
      intros x Hx. by apply Hnew.
    + done.
    + unfold counter_is_open. cbn [events tickets].
      apply (Hcounts is_open_of _); [by intros id x [? _]| |done].
      intros x Hx. apply Hnew in Hx as (? & ? & _). split; [done|]. by left.
    + cbn [bookings tickets]. eapply Forall_impl; [exact Hbook|].
      intros b Hb Hact. destruct (Hb Hact) as [Hquant Hex]. split; [done|].
      eapply Forall_impl; [exact Hex|]. intros id Hid.
      apply Exists_app. by left.
    + done.
  - unfold counter_is_available. cbn [events tickets].
    apply (Hcounts is_available_of _); [by intros id x [? _]|].
    intros x Hx. by apply Hnew in Hx as (? & ? & _).
Qed.

Lemma CreateEvent_consistent_witness :
  ∃ ev q' s',
    EventRepository.CreateEvent 7 (Event.mk 0 "Gala" (1440 * Minute) 2 0 50%float 0)
      (EventRepository.mkSequences 1 3, example_held)
    = (Ok ev, (q', s'))
    ∧ consistent s'.
Proof.
  eexists _, _, _. split; [reflexivity|].
  refine (proj1 (CreateEvent_consistent 7
                   (Event.mk 0 "Gala" (1440 * Minute) 2 0 50%float 0) _
                   (EventRepository.mkSequences 1 3) _ example_held _
                   ltac:(by_computation) _ ltac:(done) ltac:(done) eq_refl)).
  intros x Hx. repeat (apply elem_of_cons in Hx as [->|Hx]; [by left|]).
  by apply elem_of_nil in Hx.
Defined.

Lemma create_tickets_sequences (now eventID : Z) (idxs : list Z)
    (q q' : EventRepository.Sequences) (s s' : Store) (r : result unit) :
  EventRepository.create_tickets now eventID idxs (q, s) = (r, (q', s')) →
  EventRepository.events_id_seq q' = EventRepository.events_id_seq q
  ∧ EventRepository.tickets_id_seq q <= EventRepository.tickets_id_seq q'
    <= EventRepository.tickets_id_seq q + Z.of_nat (length idxs)
  ∧ bookings_id_seq s' = bookings_id_seq s.
Proof.
  revert q s. induction idxs as [|i idxs IH]; intros q s.
  - cbn. intros [= _ <- <-]. lia.
  - cbn [EventRepository.create_tickets length].
    destruct (EventRepository.insert_ticket _ _ _ _) as [[[]|e] [q1 s1]] eqn:Hins.
    + apply insert_ticket_Ok in Hins as (-> & -> & _).
      intros (He & Ht & Hb)%IH.
      cbn [EventRepository.tickets_id_seq EventRepository.events_id_seq] in *.
      split_and!; [done|lia|lia|done].
    + intros [= _ <- <-]. revert Hins. unfold EventRepository.insert_ticket.
      repeat case_decide; intros [= _ <- <-]; cbn; lia.
Qed.

Lemma CreateEvent_Err (now : Z) (event : Event.t) (e : error)
    (q q' : EventRepository.Sequences) (s s' : Store) :
  EventRepository.CreateEvent now event (q, s) = (Err e, (q', s')) →
  s' = s
  ∧ EventRepository.events_id_seq q' = EventRepository.events_id_seq q + 1
  ∧ EventRepository.tickets_id_seq q <= EventRepository.tickets_id_seq q'.
Proof.
  unfold EventRepository.CreateEvent, EventRepository.createEventTx.
  assert (Hsame : ∀ s0, bookings_id_seq s0 = bookings_id_seq s → rollback s s0 = s).
  { intros s0 Hs0. unfold rollback. rewrite Hs0. apply set_seq_same. }
  cbn [snd].
  destruct (Z.ltb_spec 0 (Event.TotalTickets event)) as [Hpos|]; cbn [negb];
    [|intros [= _ <- <-]; rewrite Hsame by done; cbn; split_and!; (done || lia)].
  destruct (PrimFloat.leb 0 (Event.Price event)); cbn [negb];
    [|intros [= _ <- <-]; rewrite Hsame by done; cbn; split_and!; (done || lia)].
  destruct (decide (_ ∈ Event.ID <$> events s)) as [|Hfresh];
    [intros [= _ <- <-]; rewrite Hsame by done; cbn; split_and!; (done || lia)|].
  destruct (EventRepository.create_tickets _ _ _ _) as [[[]|e'] [q1 s1]] eqn:Hct;
    [done|].
  apply create_tickets_sequences in Hct as (He & Ht & Hb).
  intros [= _ <- <-]. rewrite Hsame by done.
  cbn [EventRepository.tickets_id_seq EventRepository.events_id_seq] in *.
  split_and!; [done|done|lia].
Qed.



(** X22.  The answer of the create-event endpoint: 201 is given only to
    a request whose start time is not in the past, whose end time is not
    before its start, and whose number of tickets is between 1 and
    10,000, and then the event is the last of the store, with that many
    tickets on its counter; every other answer is 400 or 500 and leaves
    the tables as they were, a 400 leaving the sequences too. *)
Theorem CreateEvent_status (now now_db : Z) (event : Event.t) (endTime : Z)
    (q q' : EventRepository.Sequences) (s s' : Store) (status : Z)
    (msg : option string) :
  EventHandler.CreateEvent now now_db event endTime (q, s) = (status, msg, (q', s')) →
  (status = BookingHandler.StatusCreated
   ∧ now <= Event.StartTime event <= endTime
   ∧ 1 <= Event.TotalTickets event <= 10000
   ∧ ∃ ev, events s' = events s ++ [ev]
           ∧ Event.AvailableTickets ev = Event.TotalTickets event
           ∧ Z.of_nat (length (tickets s'))
             = Z.of_nat (length (tickets s)) + Event.TotalTickets event)
  ∨ (status = BookingHandler.StatusBadRequest ∧ s' = s ∧ q' = q)
  ∨ (status = BookingHandler.StatusInternalServerError ∧ s' = s).
Proof.
  unfold EventHandler.CreateEvent.
  destruct (Z.ltb_spec (Event.StartTime event) now);
    [intros [= <- _ <- <-]; auto|].
  destruct (Z.ltb_spec endTime (Event.StartTime event));
    [intros [= <- _ <- <-]; auto|].
  destruct (Z.leb_spec (Event.TotalTickets event) 0);
    [intros [= <- _ <- <-]; auto|].
  destruct (Z.ltb_spec 10000 (Event.TotalTickets event)); cbn [orb];
    [intros [= <- _ <- <-]; auto|].
  destruct (PrimFloat.ltb (Event.Price event) 0);
    [intros [= <- _ <- <-]; auto|].
  destruct (EventRepository.CreateEvent now_db event (q, s)) as [[ev|e] [q1 s1]] eqn:Hc;
    intros [= <- _ <- <-].
  - left. apply CreateEvent_Ok in Hc as (Hpos & -> & _ & -> & -> & _).
    split_and!; try done; try lia.
    eexists. split; [done|]. split; [done|].
    cbn [tickets]. rewrite length_app, length_fmap, length_seqZ. lia.
  - right. right. by apply CreateEvent_Err in Hc as (-> & _).
Qed.

Lemma CreateEvent_status_witness :
  ∃ st,
    EventHandler.CreateEvent 5 7 (Event.mk 0 "Gala" (1440 * Minute) 2 0 50%float 0)
      (1441 * Minute) (EventRepository.mkSequences 1 3, example_held)
    = (201, None, st)
    ∧ Z.of_nat (length (tickets st.2)) = 5.
Proof.
  eexists. split; [reflexivity|].
  destruct (CreateEvent_status 5 7 (Event.mk 0 "Gala" (1440 * Minute) 2 0 50%float 0)
              (1441 * Minute) (EventRepository.mkSequences 1 3) _ example_held _
              201 None eq_refl)
    as [(_ & _ & _ & ev & _ & _ & H)|[[H _]|[H _]]];
    [exact H | discriminate H | discriminate H].
Defined.

(** ** Seat labels *)

Lemma uint_of_string_zeros_itoa (k : nat) (i : Z) :
  0 <= i →
  Z.of_uint <$> NilEmpty.uint_of_string (EventRepository.zeros k +:+ itoa i)
  = Some i.
Proof.
  intros Hi. induction k as [|k IH].
  - change (EventRepository.zeros 0 +:+ itoa i) with (itoa i).
    destruct (itoa_nonneg i Hi) as (d & _ & -> & <-).
    by rewrite NilEmpty.usu.
  - change (EventRepository.zeros (S k) +:+ itoa i)
      with (String "0" (EventRepository.zeros k +:+ itoa i)).
    cbn [NilEmpty.uint_of_string].
    destruct (NilEmpty.uint_of_string (EventRepository.zeros k +:+ itoa i)) as [u|];
      [|done].
    exact IH.
Qed.

(** X23.  The seats of an event have different labels: [seatNo_of] sends
    different indices (from 0 on) to different labels, whatever their
    number of digits. *)
Theorem seatNo_of_distinct (i j : Z) :
  0 <= i → 0 <= j → i ≠ j →
  EventRepository.seatNo_of i ≠ EventRepository.seatNo_of j.
Proof.
  intros Hi Hj Hij. unfold EventRepository.seatNo_of, EventRepository.pad3.
  destruct (Z.ltb_spec i 0); [lia|]. destruct (Z.ltb_spec j 0); [lia|].
  intros [= Heq].
  pose proof (uint_of_string_zeros_itoa (3 - String.length (itoa i)) i Hi) as H1.
  pose proof (uint_of_string_zeros_itoa (3 - String.length (itoa j)) j Hj) as H2.
  rewrite Heq in H1. congruence.
Qed.

Lemma seatNo_of_distinct_witness :
  EventRepository.seatNo_of 1 ≠ EventRepository.seatNo_of 1001.
Proof. apply seatNo_of_distinct; lia. Defined.

Lemma seatNo_of_step (i : Z) :
  1 <= i <= 998 →
  String.le (EventRepository.seatNo_of i) (EventRepository.seatNo_of (i + 1)).
Proof.
  intros Hi.
  assert (Hall : Forall (λ i, String.le (EventRepository.seatNo_of i)
                                (EventRepository.seatNo_of (i + 1))) (seqZ 1 998)).
  { by_computation. }
  rewrite Forall_forall in Hall. apply Hall, elem_of_seqZ. lia.
Qed.

(** X24.  The order of the seats.  Up to 999 seats the labels sort as the
    indices do, so that [ORDER BY seat_no] is the order of creation; from
    the thousandth seat on this is no longer so: the labels of the seats
    1000 to 9989 all sort before that of seat 999. *)
Theorem seatNo_of_order :
  (∀ i j, 1 <= i → i <= j → j <= 999 →
          String.le (EventRepository.seatNo_of i) (EventRepository.seatNo_of j))
  ∧ (∀ j, 1000 <= j <= 9989 →
          String.le (EventRepository.seatNo_of j) (EventRepository.seatNo_of 999)
          ∧ ¬ String.le (EventRepository.seatNo_of 999) (EventRepository.seatNo_of j)).
Proof.
  split.
  - intros i j Hi Hij Hj.
    replace j with (i + Z.of_nat (Z.to_nat (j - i))) in * by lia.
    induction (Z.to_nat (j - i)) as [|n IH].
    + rewrite Z.add_0_r. done.
    + etrans; [apply IH; lia|].
      replace (i + Z.of_nat (S n)) with (i + Z.of_nat n + 1) by lia.
      apply seatNo_of_step. lia.
  - intros j Hj.
    assert (Hall : Forall (λ j, String.le (EventRepository.seatNo_of j)
                                  (EventRepository.seatNo_of 999)
                                ∧ ¬ String.le (EventRepository.seatNo_of 999)
                                      (EventRepository.seatNo_of j))
                     (seqZ 1000 8990)).
    { by_computation. }
    rewrite Forall_forall in Hall. apply Hall, elem_of_seqZ. lia.
Qed.

(** ** Pending bookings hold reserved tickets *)

Lemma pending_reserved_elem (s : Store) (b : Booking.t) (x : Ticket.t) :
  pending_reserved s → b ∈ bookings s → Booking.Status b = BookingPending →
  x ∈ tickets s → Ticket.ID x ∈ Booking.TicketIDs b →
  Ticket.Status x = TicketReserved.
Proof.
  intros Hp Hb Hst Hx Hid. unfold pending_reserved in Hp.
  rewrite Forall_forall in Hp. specialize (Hp b Hb Hst).
  rewrite Forall_forall in Hp. by apply Hp.
Qed.

Lemma pending_reserved_update (bs : list Booking.t) (P : Ticket.t → Prop)
    `{!∀ x, Decision (P x)} (st : TicketStatus) (now : Z) (rows : list Ticket.t) :
  (∀ b x, b ∈ bs → Booking.Status b = BookingPending → x ∈ rows →
          Ticket.ID x ∈ Booking.TicketIDs b →
          if decide (P x) then st = TicketReserved
          else Ticket.Status x = TicketReserved) →
  Forall (λ b, Booking.Status b = BookingPending →
               Forall (λ x, Ticket.ID x ∈ Booking.TicketIDs b →
                            Ticket.Status x = TicketReserved)
                 (update_where P (Ticket.set_status st now) rows)) bs.
Proof.
  intros Hall. apply Forall_forall. intros b Hb Hst. apply Forall_forall.
  intros x' (x & Hx & ->)%update_where_elem Hid.
  specialize (Hall b x Hb Hst Hx).
  destruct (decide (P x)) as [HP|HP]; cbn in *; by apply Hall.
Qed.

Lemma pending_after_update (Q : Booking.t → Prop) `{!∀ b, Decision (Q b)}
    (st : BookingStatus) (now : Z) (bs : list Booking.t) (b' : Booking.t) :
  st ≠ BookingPending →
  b' ∈ update_where Q (Booking.set_status st now) bs →
  Booking.Status b' = BookingPending →
  b' ∈ bs ∧ ¬ Q b'.
Proof.
  intros Hst (b & Hb & ->)%update_where_elem.
  destruct (decide (Q b)); [done|]. by intros _.
Qed.

Lemma active_bookings_disjoint (s : Store) (b1 b2 : Booking.t) (id : Z) :
  bookings_ok s → b1 ∈ bookings s → b2 ∈ bookings s → b1 ≠ b2 →
  active b1 → active b2 →
  id ∈ Booking.TicketIDs b1 → ¬ (id ∈ Booking.TicketIDs b2).
Proof.
  intros [_ Hnd] (i & Hi)%list_elem_of_lookup_1 (j & Hj)%list_elem_of_lookup_1
    Hne H1 H2.
  apply (NoDup_concat_filter_disjoint Booking.TicketIDs active (bookings s) i j);
    try done.
  intros ->. congruence.
Qed.

Lemma booking_ids_range (s : Store) (b : Booking.t) :
  consistent s → b ∈ bookings s → active b →
  Forall (λ id, 0 <= id <= MaxInt) (Booking.TicketIDs b)
  ∧ NoDup (Booking.TicketIDs b)
  ∧ (∀ id, id ∈ Booking.TicketIDs b → ∃ x, x ∈ tickets s ∧ Ticket.ID x = id)
  ∧ Booking.Quantity b = Z.of_nat (length (Booking.TicketIDs b)).
Proof.
  intros ((_ & Hrange & _) & _ & _ & Hbook & Hnd) Hb Hact.
  rewrite Forall_forall in Hbook. destruct (Hbook b Hb Hact) as [Hq Hex].
  rewrite Forall_forall in Hex. rewrite Forall_forall in Hrange.
  assert (Hex' : ∀ id, id ∈ Booking.TicketIDs b → ∃ x, x ∈ tickets s ∧ Ticket.ID x = id).
  { intros id Hid. specialize (Hex id Hid).
    apply Exists_exists in Hex as (x & Hx & Hidx & _). eauto. }
  split_and!; try done.
  - apply Forall_forall. intros id Hid. destruct (Hex' id Hid) as (x & Hx & <-).
    by apply Hrange.
  - apply list_elem_of_split in Hb as (l1 & l2 & Hsplit).
    rewrite Hsplit, filter_app, filter_cons, decide_True in Hnd by done.
    rewrite fmap_app, fmap_cons, concat_app, concat_cons in Hnd.
    apply NoDup_app in Hnd as (_ & _ & Hnd). by apply NoDup_app in Hnd as (? & _).
Qed.

Lemma ConfirmBooking_missing (now now_db bookingID : Z) (s : Store) :
  query_row (BookingRepository.is_booking bookingID) (bookings s) = None →
  BookingRepository.ConfirmBooking now now_db bookingID s
  = (Err (ErrWrap "booking not found: " ErrNoRows), s).
Proof.
  intros Hq.
  unfold BookingRepository.ConfirmBooking, WithTransaction,
    BookingRepository.confirmBookingTx, tx_bind, tx_get, tx_fail.
  by rewrite Hq, rollback_same.
Qed.

Lemma ConfirmBooking_expired (now now_db bookingID : Z) (s : Store)
    (booking : Booking.t) :
  query_row (BookingRepository.is_booking bookingID) (bookings s) = Some booking →
  Booking.Status booking = BookingPending →
  Booking.ExpiresAt booking < now →
  BookingRepository.ConfirmBooking now now_db bookingID s
  = (Err (ErrNew "booking has expired"), s).
Proof.
  intros Hq Hst Hexp.
  unfold BookingRepository.ConfirmBooking, WithTransaction,
    BookingRepository.confirmBookingTx, tx_bind, tx_get, tx_fail.
  rewrite Hq, decide_False by (by intros ?).
  destruct (Z.ltb_spec (Booking.ExpiresAt booking) now); [|lia].
  by rewrite rollback_same.
Qed.

Lemma ConfirmBooking_pending (now now_db bookingID : Z) (s : Store)
    (booking : Booking.t) :
  let ids := parseTicketIDs (pg_array_text (Booking.TicketIDs booking)) in
  query_row (BookingRepository.is_booking bookingID) (bookings s) = Some booking →
  Booking.Status booking = BookingPending →
  now <= Booking.ExpiresAt booking →
  count_where (λ x, Ticket.ID x ∈ ids ∧ Ticket.Status x = TicketReserved) (tickets s)
  = Z.of_nat (length ids) →
  BookingRepository.ConfirmBooking now now_db bookingID s
  = (Ok tt,
     mkStore (users s) (events s)
       (update_where (λ x, Ticket.ID x ∈ ids ∧ Ticket.Status x = TicketReserved)
          (Ticket.set_status TicketSold now_db) (tickets s))
       (update_where (BookingRepository.is_booking bookingID)
          (Booking.set_status BookingConfirmed now_db) (bookings s))
       (bookings_id_seq s)).
Proof.
  intros ids Hq Hst Hexp Hcount.
  unfold BookingRepository.ConfirmBooking, WithTransaction,
    BookingRepository.confirmBookingTx, tx_bind, tx_get, tx_modify, tx_fail.
  rewrite Hq, decide_False by (by intros ?).
  destruct (Z.ltb_spec (Booking.ExpiresAt booking) now); [lia|].
  fold ids. unfold rows_affected. unfold count_where in Hcount. rewrite Hcount.
  by rewrite Z.eqb_refl.
Qed.

Lemma CancelBooking_missing (now_db bookingID : Z) (s : Store) :
  query_row (BookingRepository.is_booking bookingID) (bookings s) = None →
  BookingRepository.CancelBooking now_db bookingID s
  = (Err (ErrWrap "booking not found: " ErrNoRows), s).
Proof.
  intros Hq.
  unfold BookingRepository.CancelBooking, WithTransaction,
    BookingRepository.cancelBookingTx, tx_bind, tx_get, tx_fail.
  by rewrite Hq, rollback_same.
Qed.

Lemma ConfirmBooking_Ok (now now_db bookingID : Z) (s s' : Store) :
  BookingRepository.ConfirmBooking now now_db bookingID s = (Ok tt, s') →
  ∃ booking,
    query_row (BookingRepository.is_booking bookingID) (bookings s) = Some booking
    ∧ Booking.Status booking = BookingPending
    ∧ now <= Booking.ExpiresAt booking
    ∧ s' = mkStore (users s) (events s)
             (update_where
                (λ x, Ticket.ID x ∈ parseTicketIDs (pg_array_text (Booking.TicketIDs booking))
                      ∧ Ticket.Status x = TicketReserved)
                (Ticket.set_status TicketSold now_db) (tickets s))
             (update_where (BookingRepository.is_booking bookingID)
                (Booking.set_status BookingConfirmed now_db) (bookings s))
             (bookings_id_seq s).
Proof.
  unfold BookingRepository.ConfirmBooking, WithTransaction,
    BookingRepository.confirmBookingTx, tx_bind, tx_get, tx_modify, tx_fail.
  destruct (query_row _ _) as [booking|] eqn:Hq; [|done].
  destruct (decide (Booking.Status booking ≠ BookingPending)) as [Hst|Hst]; [done|].
  destruct (Z.ltb_spec (Booking.ExpiresAt booking) now); [done|].
  destruct (Z.eqb_spec
              (rows_affected
                 (λ x, Ticket.ID x ∈ parseTicketIDs (pg_array_text (Booking.TicketIDs booking))
                       ∧ Ticket.Status x = TicketReserved) (tickets s))
              (Z.of_nat (length (parseTicketIDs (pg_array_text (Booking.TicketIDs booking))))));
    cbn [negb]; [|done].
  intros [= <-]. exists booking. split_and!; try done.
  by destruct (decide (Booking.Status booking = BookingPending)).
Qed.

Lemma pending_reserved_same_tables (s s' : Store) :
  same_tables s s' → pending_reserved s → pending_reserved s'.
Proof. intros (_ & _ & Ht & Hb). unfold pending_reserved. by rewrite Ht, Hb. Qed.

Lemma commit_pending_reserved (cfg : AppConfig) (m : Mutation) (s : Store) :
  consistent s → pending_reserved s → pending_reserved (commit cfg m s).
Proof.
  intros Hs Hp. pose proof Hs as ((Hids & Hrange & Hseats) & Hbkeys & _ & Hbook).
  destruct m as [now eventID seatNo|now eventID seatNo|now|env request
                 |now now_db bookingID|now_db bookingID];
    cbn [commit].
  - destruct (LockSeat_cases now eventID seatNo s)
      as [(e' & ->)|(row & Hq & Hst & ->)]; [done|].
    cbn [snd]. unfold pending_reserved. cbn [bookings tickets set_tickets].
    apply pending_reserved_update. intros b x Hb Hpend Hx Hid.
    pose proof (pending_reserved_elem s b x Hp Hb Hpend Hx Hid) as Hres.
    destruct (decide _) as [[He Hseat]|_]; [|done].
    apply query_row_Some in Hq as [Hrow [He' Hseat']].
    assert (x = row) as ->.
    { apply (key_unique seat_key (tickets s)); try done.
      unfold seat_key. congruence. }
    congruence.
  - cbn [EventRepository.UnlockSeat snd]. unfold pending_reserved.
    cbn [bookings tickets set_tickets].
    apply pending_reserved_update. intros b x Hb Hpend Hx Hid.
    pose proof (pending_reserved_elem s b x Hp Hb Hpend Hx Hid) as Hres.
    destruct (decide _) as [[_ Hl]|_]; [congruence|done].
  - cbn [EventRepository.CleanupExpiredLocks snd]. unfold pending_reserved.
    cbn [bookings tickets set_tickets].
    apply pending_reserved_update. intros b x Hb Hpend Hx Hid.
    pose proof (pending_reserved_elem s b x Hp Hb Hpend Hx Hid) as Hres.
    destruct (decide _) as [[Hl _]|_]; [congruence|done].
  - pose proof (BookTickets_cases cfg env request s) as Hc.
    destruct (BookingRepository.BookTickets cfg env request s) as [[ob [e'|]] s'];
      cbn [snd].
    + destruct Hc as [Hsame _]. by apply (pending_reserved_same_tables s).
    + destruct Hc as (k & s0 & b & Hsame & _ & Htx).
      apply (pending_reserved_same_tables s s0) in Hp; [|done].
      apply bookTicketsWithLock_Ok in Htx
        as (event & _ & _ & _ & _ & Hb & -> & _).
      unfold pending_reserved. cbn [bookings tickets].
      apply pending_reserved_update. intros b' x Hb' Hpend Hx Hid.
      destruct (decide _) as [_|Hno]; [done|].
      apply elem_of_app in Hb' as [Hb'|Hb'].
      * by apply (pending_reserved_elem s0 b' x).
      * apply list_elem_of_singleton in Hb' as ->. exfalso. apply Hno.
        by rewrite Hb in Hid.
  - destruct (BookingRepository.ConfirmBooking now now_db bookingID s)
      as [[[]|e] s'] eqn:Hc; cbn [snd].
    + apply ConfirmBooking_Ok in Hc as (booking & Hq & Hst & _ & ->).
      apply query_row_Some in Hq as [Hin Hisb].
      destruct (booking_ids_range s booking Hs Hin ltac:(unfold active; congruence))
        as (Hr & _).
      rewrite parseTicketIDs_pg_array_text by done.
      unfold pending_reserved. cbn [bookings tickets].
      apply pending_reserved_update. intros b' x Hb' Hpend Hx Hid.
      apply pending_after_update in Hb' as [Hb' Hnot]; [|done|done].
      pose proof (pending_reserved_elem s b' x Hp Hb' Hpend Hx Hid) as Hres.
      destruct (decide _) as [[Hidc _]|_]; [|done].
      exfalso.
      apply (active_bookings_disjoint s b' booking (Ticket.ID x)); try done.
      * intros ->. by apply Hnot.
      * unfold active. congruence.
      * unfold active. congruence.
    + destruct (ConfirmBooking_cases now now_db bookingID s)
        as [(e' & He)|(booking & ids & _ & _ & He)]; rewrite Hc in He; [|done].
      by injection He as _ <-.
  - destruct (CancelBooking_total now_db bookingID s)
      as [(e' & ->)|(booking & Hq & Hst & ->)]; [done|].
    cbn [snd]. apply query_row_Some in Hq as [Hin Hisb].
    destruct (booking_ids_range s booking Hs Hin Hst) as (Hr & _).
    rewrite parseTicketIDs_pg_array_text by done.
    unfold pending_reserved. cbn [bookings tickets].
    apply pending_reserved_update. intros b' x Hb' Hpend Hx Hid.
    apply pending_after_update in Hb' as [Hb' Hnot]; [|done|done].
    pose proof (pending_reserved_elem s b' x Hp Hb' Hpend Hx Hid) as Hres.
    destruct (decide _) as [Hidc|_]; [|done].
    exfalso.
    apply (active_bookings_disjoint s b' booking (Ticket.ID x)); try done.
    + intros ->. by apply Hnot.
    + unfold active. congruence.
Qed.

(** X25.  A pending booking keeps its tickets: in every state committed
    by a sequence of mutations that starts from a consistent store in
    which the tickets of the pending bookings are ['reserved'], every
    ticket named by a pending booking is ['reserved']. *)
Theorem run_pending_reserved (cfg : AppConfig) (ms : list Mutation) (s : Store) :
  consistent s → pending_reserved s →
  pending_reserved (run cfg ms s).
Proof.
  revert s. induction ms as [|m ms IH]; intros s Hs Hp; [done|].
  cbn [run fold_left]. apply IH.
  - by apply commit_consistent.
  - by apply commit_pending_reserved.
Qed.

Lemma run_pending_reserved_witness :
  pending_reserved
    (run example_cfg
       [hold 5 1 "S002"; book (example_env 10) (BookingRequest.mk 1 1 1);
        hold 11 1 "S001"; reclaim_stale 400]
       example_store).
Proof.
  apply (run_pending_reserved example_cfg
           [hold 5 1 "S002"; book (example_env 10) (BookingRequest.mk 1 1 1);
            hold 11 1 "S001"; reclaim_stale 400]
           example_store); by_computation.
Defined.

(** ** The answers of the confirm and cancel endpoints *)

Lemma filter_ext_in {R} (P Q : R → Prop) `{!∀ r, Decision (P r)}
    `{!∀ r, Decision (Q r)} (rows : list R) :
  (∀ r, r ∈ rows → P r ↔ Q r) → filter P rows = filter Q rows.
Proof.
  intros Hiff. induction rows as [|r rows IH]; [done|].
  rewrite !filter_cons.
  rewrite IH by (intros r' Hr'; apply Hiff; by right).
  specialize (Hiff r ltac:(left)).
  by destruct (decide (P r)), (decide (Q r)); try tauto.
Qed.

Lemma update_where_ext_in {R} (P Q : R → Prop) `{!∀ r, Decision (P r)}
    `{!∀ r, Decision (Q r)} (f : R → R) (rows : list R) :
  (∀ r, r ∈ rows → P r ↔ Q r) → update_where P f rows = update_where Q f rows.
Proof.
  intros Hiff. unfold update_where. apply list_fmap_ext.
  intros i r Hr%list_elem_of_lookup_2. specialize (Hiff r Hr).
  by destruct (decide (P r)), (decide (Q r)); try tauto.
Qed.

(** X26.  The answer of the confirm endpoint, for a numeric booking id,
    on a consistent store in which the tickets of the pending bookings
    are ['reserved']: 200 exactly when the booking exists, is ['pending']
    and has not expired, the booking being then ['confirmed'] and its
    tickets ['sold']; 400 in every other case, with nothing changed.  The
    answer is never 500: the error "some tickets could not be confirmed"
    does not occur. *)
Theorem ConfirmBooking_status (now now_db : Z) (bookingIDStr : string)
    (bookingID : Z) (s : Store) :
  consistent s → pending_reserved s →
  Atoi bookingIDStr = Some bookingID →
  BookingHandler.ConfirmBooking now now_db bookingIDStr s
  = match query_row (BookingRepository.is_booking bookingID) (bookings s) with
    | Some booking =>
        if decide (Booking.Status booking = BookingPending
                   ∧ now <= Booking.ExpiresAt booking)
        then (BookingHandler.StatusOK,
              mkStore (users s) (events s)
                (update_where (λ x, Ticket.ID x ∈ Booking.TicketIDs booking)
                   (Ticket.set_status TicketSold now_db) (tickets s))
                (update_where (BookingRepository.is_booking bookingID)
                   (Booking.set_status BookingConfirmed now_db) (bookings s))
                (bookings_id_seq s))
        else (BookingHandler.StatusBadRequest, s)
    | None => (BookingHandler.StatusBadRequest, s)
    end.
Proof.
  intros Hs Hp Hid. unfold BookingHandler.ConfirmBooking. rewrite Hid.
  destruct (query_row _ _) as [booking|] eqn:Hq;
    [|by rewrite ConfirmBooking_missing].
  destruct (decide (_ ∧ _)) as [[Hst Hexp]|Hno].
  - pose proof Hq as [Hin _]%query_row_Some.
    destruct (booking_ids_range s booking Hs Hin ltac:(unfold active; congruence))
      as (Hr & Hnd & Hex & _).
    assert (Hsame : ∀ x, x ∈ tickets s →
              (Ticket.ID x ∈ Booking.TicketIDs booking
               ∧ Ticket.Status x = TicketReserved)
              ↔ Ticket.ID x ∈ Booking.TicketIDs booking).
    { intros x Hx. split; [tauto|]. intros Hidx. split; [done|].
      by apply (pending_reserved_elem s booking x). }
    rewrite (ConfirmBooking_pending now now_db bookingID s booking Hq Hst Hexp).
    + rewrite parseTicketIDs_pg_array_text by done. do 2 f_equal.
      by apply update_where_ext_in.
    + rewrite parseTicketIDs_pg_array_text by done.
      rewrite <- (count_where_keys Ticket.ID (tickets s)); try done; [|apply Hs].
      unfold count_where. do 2 f_equal. by apply filter_ext_in.
  - destruct (decide (Booking.Status booking = BookingPending)) as [Hst|Hst].
    + assert (Booking.ExpiresAt booking < now) by (apply Z.nle_gt; tauto).
      by rewrite (ConfirmBooking_expired _ _ _ _ booking).
    + by rewrite (ConfirmBooking_not_pending _ _ _ _ booking).
Qed.

Lemma ConfirmBooking_status_witness :
  ∃ s', BookingHandler.ConfirmBooking 20 21 "1" example_booked = (200, s')
        ∧ tickets s' !! 1%nat = Some (example_ticket 2 "S002" TicketSold 21).
Proof.
  eexists. split.
  - exact (ConfirmBooking_status 20 21 "1" 1 example_booked
             ltac:(by_computation) ltac:(by_computation) eq_refl).
  - reflexivity.
Defined.

(** X27.  The answer of the cancel endpoint, for a numeric booking id, on
    a consistent store: 200 exactly when the booking exists and is not
    yet ['cancelled'], the booking being then ['cancelled'], its tickets
    ['available'] and the counter of its event raised by its quantity;
    400 in every other case, with nothing changed; never 500. *)
Theorem CancelBooking_status (now_db : Z) (bookingIDStr : string)
    (bookingID : Z) (s : Store) :
  consistent s →
  Atoi bookingIDStr = Some bookingID →
  BookingHandler.CancelBooking now_db bookingIDStr s
  = match query_row (BookingRepository.is_booking bookingID) (bookings s) with
    | Some booking =>
        if decide (Booking.Status booking = BookingCancelled)
        then (BookingHandler.StatusBadRequest, s)
        else (BookingHandler.StatusOK,
              mkStore (users s)
                (update_where (λ e, Event.ID e = Booking.EventID booking)
                   (λ e, Event.set_available
                           (Event.AvailableTickets e + Booking.Quantity booking)
                           now_db e) (events s))
                (update_where (λ x, Ticket.ID x ∈ Booking.TicketIDs booking)
                   (Ticket.set_status TicketAvailable now_db) (tickets s))
                (update_where (BookingRepository.is_booking bookingID)
                   (Booking.set_status BookingCancelled now_db) (bookings s))
                (bookings_id_seq s))
    | None => (BookingHandler.StatusBadRequest, s)
    end.
Proof.
  intros Hs Hid. unfold BookingHandler.CancelBooking. rewrite Hid.
  destruct (query_row _ _) as [booking|] eqn:Hq;
    [|by rewrite CancelBooking_missing].
  pose proof Hq as [Hin _]%query_row_Some.
  destruct (decide (Booking.Status booking = BookingCancelled)) as [Hst|Hst].
  { by rewrite (CancelBooking_cancelled _ _ _ booking). }
  destruct (booking_ids_range s booking Hs Hin Hst) as (Hr & _ & _ & Hquant).
  rewrite (CancelBooking_cases now_db bookingID s booking Hr); [|..|done].
  - by rewrite decide_False by done.
  - destruct Hs as (_ & _ & Hcount & _).
    apply Forall_forall. intros e [_ He]%list_elem_of_filter.
    unfold counter_is_open in Hcount. rewrite Forall_forall in Hcount.
    rewrite (Hcount e He), Hquant. unfold count_where. lia.
Qed.

Lemma CancelBooking_status_witness :
  ∃ s', BookingHandler.CancelBooking 21 "1" example_booked = (200, s')
        ∧ tickets s' !! 1%nat = Some (example_ticket 2 "S002" TicketAvailable 21).
Proof.
  eexists. split.
  - exact (CancelBooking_status 21 "1" 1 example_booked ltac:(by_computation) eq_refl).
  - reflexivity.
Defined.

(** ** The text of the store's range error *)

Lemma list_ascii_app (a b : string) :
  String.list_ascii_of_string (a +:+ b) = String.list_ascii_of_string a ++ String.list_ascii_of_string b.
Proof. induction a as [|c a IH]; [done|]. cbn. by rewrite <- IH. Qed.

Lemma string_of_list_ascii_app (x y : list ascii) :
  String.string_of_list_ascii (x ++ y) = String.string_of_list_ascii x +:+ String.string_of_list_ascii y.
Proof. induction x as [|c x IH]; [done|]. cbn. by rewrite IH. Qed.

Lemma occurs_of_chars (l pre needle post : list ascii) :
  l = pre ++ needle ++ post →
  contains (String.string_of_list_ascii l) (String.string_of_list_ascii needle) = true.
Proof.
  intros ->. apply contains_occurs.
  exists (String.string_of_list_ascii pre), (String.string_of_list_ascii post).
  by rewrite !string_of_list_ascii_app.
Qed.

(** A text that occurs in [a ++ d ++ b] and shares no character with the
    non-empty [d] occurs in [a] or in [b]. *)
Lemma occurs_separated (P : ascii → Prop) (a d b needle : string) :
  d ≠ "" →
  Forall P (String.list_ascii_of_string d) →
  Forall (λ c, ¬ P c) (String.list_ascii_of_string needle) →
  contains (a +:+ d +:+ b) needle = true →
  contains a needle = true ∨ contains b needle = true.
Proof.
  intros Hd HPd HPn (pre & post & Heq)%contains_occurs.
  apply (f_equal String.list_ascii_of_string) in Heq. rewrite !list_ascii_app in Heq.
  rewrite <- (String.string_of_list_ascii_of_string a), <- (String.string_of_list_ascii_of_string b),
    <- (String.string_of_list_ascii_of_string needle).
  set (la := String.list_ascii_of_string a) in *. set (ld := String.list_ascii_of_string d) in *.
  set (lb := String.list_ascii_of_string b) in *. set (ln := String.list_ascii_of_string needle) in *.
  set (lp := String.list_ascii_of_string pre) in *. set (lq := String.list_ascii_of_string post) in *.
  assert (Hld : (0 < length ld)%nat).
  { subst ld. destruct d; [done|]. cbn. lia. }
  destruct ln as [|c0 ln'] eqn:Hln.
  { left. by apply (occurs_of_chars la [] [] la). }
  rewrite <- Hln in *. assert (Hlen : (0 < length ln)%nat) by (rewrite Hln; cbn; lia).
  clear Hln.
  destruct (decide (length lp + length ln ≤ length la)%nat) as [H1|H1].
  { left. apply (occurs_of_chars la lp ln (take (length la - length lp - length ln) lq)).
    pose proof (f_equal (take (length la)) Heq) as Ht.
    rewrite take_app_length in Ht. etrans; [exact Ht|].
    rewrite take_app_ge by lia. f_equal.
    rewrite take_app_ge by lia. do 2 f_equal. }
  destruct (decide (length la + length ld ≤ length lp)%nat) as [H2|H2].
  { right. apply (occurs_of_chars lb (drop (length la + length ld) lp) ln lq).
    pose proof (f_equal (drop (length la + length ld)) Heq) as Ht.
    rewrite app_assoc, drop_app_length' in Ht by (rewrite length_app; lia).
    etrans; [exact Ht|]. by rewrite drop_app_le by lia. }
  exfalso.
  set (i := (length la `max` length lp)%nat).
  assert (Hi1 : (la ++ ld ++ lb) !! i = ld !! (i - length la)%nat).
  { rewrite lookup_app_r by lia. apply lookup_app_l. lia. }
  assert (Hi2 : (lp ++ ln ++ lq) !! i = ln !! (i - length lp)%nat).
  { rewrite lookup_app_r by lia. apply lookup_app_l. lia. }
  rewrite Heq, Hi2 in Hi1.
  destruct (lookup_lt_is_Some_2 ln (i - length lp)%nat ltac:(lia)) as [c Hc].
  rewrite Hc in Hi1. symmetry in Hi1.
  rewrite Forall_lookup in HPd, HPn.
  exact (HPn _ _ Hc (HPd _ _ Hi1)).
Qed.

Lemma all_digits_chars (s : string) :
  all_digits s = true →
  Forall (λ c, is_digit c = true ∨ c = "-"%char) (String.list_ascii_of_string s).
Proof.
  induction s as [|c s IH]; [by constructor|].
  cbn [all_digits]. intros [Hc Hs]%andb_prop. constructor; auto.
Qed.

Lemma itoa_chars (v : Z) :
  itoa v ≠ ""
  ∧ Forall (λ c, is_digit c = true ∨ c = "-"%char) (String.list_ascii_of_string (itoa v)).
Proof.
  destruct (Z.le_gt_cases 0 v) as [Hv|Hv].
  - split; [by apply itoa_nonempty|]. by apply all_digits_chars, itoa_all_digits.
  - destruct v as [|p|p]; [lia|lia|].
    unfold itoa, Z.to_int, NilZero.string_of_int. split; [done|].
    constructor; [by right|].
    apply all_digits_chars. unfold NilZero.string_of_uint.
    destruct (Pos.to_uint p); try apply uint_string_all_digits. done.
Qed.

(** The range error of the store does not read as a missing row. *)
Lemma pq_int4_parameter_not_found (v : Z) :
  contains (Error (pq_int4_parameter v)) "not found" = false.
Proof.
  destruct (contains _ _) eqn:Hc; [exfalso|done].
  unfold pq_int4_parameter in Hc. cbn [Error] in Hc.
  rewrite <- (string_app_assoc "pq: value " dq) in Hc.
  destruct (itoa_chars v) as [Hne Hch].
  apply (occurs_separated (λ c, is_digit c = true ∨ c = "-"%char)) in Hc;
    [|done|done|].
  - by destruct Hc as [Hc|Hc]; vm_compute in Hc.
  - repeat constructor; by intros [?|?].
Qed.

(** ** Look-ups by path parameter; a hold in the listing; hold and release *)

Lemma query_row_key {R} (key : R → Z) (rows : list R) (id : Z) :
  match query_row (λ r, key r = id) rows with
  | Some r => r ∈ rows ∧ key r = id ∧ id ∈ key <$> rows
  | None => ¬ (id ∈ key <$> rows)
  end.
Proof.
  destruct (query_row _ rows) as [r|] eqn:Hq.
  - apply query_row_Some in Hq as [Hr Hk]. split_and!; try done.
    rewrite <- Hk. by apply list_elem_of_fmap_2.
  - intros (x & Hk & Hx)%list_elem_of_fmap.
    destruct (query_row_exists (λ r, key r = id) rows x Hx ltac:(done)) as (r & Hr).
    congruence.
Qed.

(** X28.  The two look-ups by id, [GetBooking] and [GetEvent]: the answer
    is 400 when the path parameter is not an [int]; for an [int] that is
    an [INTEGER] of the store it is 404 when no row has this id and 200
    with a row of this id otherwise, the ticket ids of the booking
    returned being non-negative [int]s; for an [int] outside the
    [INTEGER] range the store refuses the parameter and the answer is
    500. *)
Theorem lookup_status (idStr : string) (s : Store) :
  match Atoi idStr with
  | None =>
      BookingHandler.GetBooking idStr s = (BookingHandler.StatusBadRequest, None)
      ∧ EventHandler.GetEvent idStr s = (BookingHandler.StatusBadRequest, None)
  | Some id =>
      if is_int4 id then
        (if decide (id ∈ Booking.ID <$> bookings s)
         then ∃ b, BookingHandler.GetBooking idStr s
                   = (BookingHandler.StatusOK, Some b)
                   ∧ Booking.ID b = id
                   ∧ Forall (λ t, 0 <= t <= MaxInt) (Booking.TicketIDs b)
         else BookingHandler.GetBooking idStr s
              = (BookingHandler.StatusNotFound, None))
        ∧ (if decide (id ∈ Event.ID <$> events s)
           then ∃ e, EventHandler.GetEvent idStr s
                     = (BookingHandler.StatusOK, Some e)
                     ∧ e ∈ events s ∧ Event.ID e = id
           else EventHandler.GetEvent idStr s
                = (BookingHandler.StatusNotFound, None))
      else
        BookingHandler.GetBooking idStr s
        = (BookingHandler.StatusInternalServerError, None)
        ∧ EventHandler.GetEvent idStr s
          = (BookingHandler.StatusInternalServerError, None)
  end.
Proof.
  unfold BookingHandler.GetBooking, EventHandler.GetEvent,
    BookingRepository.GetBooking, EventRepository.GetEvent.
  destruct (Atoi idStr) as [id|]; [|done].
  destruct (is_int4 id); cbn [negb];
    [|by rewrite pq_int4_parameter_not_found].
  split.
  - pose proof (query_row_key Booking.ID (bookings s) id) as Hq.
    change (λ r, Booking.ID r = id) with (BookingRepository.is_booking id) in Hq.
    destruct (query_row (BookingRepository.is_booking id) (bookings s)) as [row|].
    + destruct Hq as (_ & Hk & Hin). rewrite decide_True by done.
      eexists. split; [done|]. split; [done|]. apply parseTicketIDs_ints.
    + by rewrite decide_False.
  - pose proof (query_row_key Event.ID (events s) id) as Hq.
    destruct (query_row (λ e, Event.ID e = id) (events s)) as [row|].
    + destruct Hq as (Hr & Hk & Hin). rewrite decide_True by done.
      eexists. by split.
    + by rewrite decide_False.
Qed.

Lemma lookup_status_witness :
  BookingHandler.GetBooking "1" example_booked = (200, Some example_booking)
  ∧ EventHandler.GetEvent "7" example_booked = (404, None)
  ∧ BookingHandler.GetBooking "3000000000" example_booked = (500, None)
  ∧ EventHandler.GetEvent "3000000000" example_booked = (500, None).
Proof.
  pose proof (lookup_status "1" example_booked) as H1.
  pose proof (lookup_status "7" example_booked) as H7.
  pose proof (lookup_status "3000000000" example_booked) as H3.
  cbn in H3. destruct H3 as [H3a H3b].
  split_and!; [reflexivity | reflexivity | exact H3a | exact H3b].
Defined.

(** X29.  A held seat is not offered: after a successful [LockSeat],
    [GetAvailableTickets] for the event lists no ticket of that seat,
    whatever the limit. *)
Theorem held_seat_not_listed (now eventID : Z) (seatNo : string) (s s1 : Store)
    (limit : Z) (l : list Ticket.t) (x : Ticket.t) :
  EventRepository.LockSeat now eventID seatNo s = (Ok tt, s1) →
  EventRepository.GetAvailableTickets eventID limit s1 = Ok l →
  x ∈ l → Ticket.SeatNo x ≠ seatNo.
Proof.
  intros (row & _ & _ & -> & _)%LockSeat_Ok_row.
  unfold EventRepository.GetAvailableTickets.
  destruct (is_int4 eventID); cbn [negb]; [|done].
  destruct (limit <? 0); [done|]. intros [= <-] Hx Hseat.
  apply subseteq_take in Hx. rewrite merge_sort_Permutation in Hx.
  apply list_elem_of_filter in Hx as [[He Hst] Hx].
  cbn [tickets set_tickets] in Hx.
  apply update_where_elem in Hx as (x0 & Hx0 & ->).
  destruct (decide (EventRepository.is_seat eventID seatNo x0)) as [Hs|Hs];
    [done|].
  by apply Hs.
Qed.

Lemma held_seat_not_listed_witness :
  ∃ s1 l,
    EventRepository.LockSeat 5 1 "S002" example_store = (Ok tt, s1)
    ∧ EventRepository.GetAvailableTickets 1 50 s1 = Ok l
    ∧ Ticket.SeatNo <$> l = ["S001"; "S003"]
    ∧ Ticket.SeatNo (example_ticket 1 "S001" TicketAvailable 0) ≠ "S002".
Proof.
  eexists _, _. split; [reflexivity|]. split; [reflexivity|].
  split; [reflexivity|].
  eapply (held_seat_not_listed 5 1 "S002" example_store _ 50 _ _ eq_refl eq_refl).
  by constructor.
Defined.

(** X30.  Release undoes a hold: on a store with one ticket per seat,
    after the hold endpoint has answered 200 for a seat the release
    endpoint answers 200 too, and leaves every ticket with the id, event,
    seat and status it had before the hold, only the ticket of that seat
    having a new time stamp; events, bookings and users are as before. *)
Theorem hold_release_roundtrip (t1 t2 : Z) (eventIDStr seatNo : string)
    (s s1 : Store) :
  NoDup (seat_key <$> tickets s) →
  EventHandler.LockSeat t1 eventIDStr seatNo s = (BookingHandler.StatusOK, None, s1) →
  ∃ s2,
    EventHandler.UnlockSeat t2 eventIDStr seatNo s1 = (BookingHandler.StatusOK, s2)
    ∧ Forall2 (λ x y, y = x ∨ y = Ticket.set_status (Ticket.Status x) t2 x)
        (tickets s) (tickets s2)
    ∧ users s2 = users s ∧ events s2 = events s ∧ bookings s2 = bookings s.
Proof.
  intros Hnd. unfold EventHandler.LockSeat, EventHandler.UnlockSeat.
  destruct (Atoi eventIDStr) as [eventID|]; [|done].
  destruct (EventRepository.LockSeat t1 eventID seatNo s) as [[[]|e] s1'] eqn:Hl;
    [|by destruct (contains _ _)].
  intros [= <-].
  apply LockSeat_Ok_row in Hl as (row & Hq & Hst & -> & _).
  apply query_row_Some in Hq as [Hrow [He Hseat]].
  unfold EventRepository.UnlockSeat. eexists. split; [done|].
  cbn [tickets set_tickets users events bookings]. split; [|done].
  unfold update_where. rewrite <- list_fmap_compose.
  apply Forall2_fmap_r, Forall_Forall2_diag, Forall_forall. intros x Hx.
  unfold compose.
  destruct (decide (EventRepository.is_seat eventID seatNo x)) as [Hs|Hs].
  - assert (x = row) as ->.
    { apply (key_unique seat_key (tickets s)); try done.
      destruct Hs. unfold seat_key. congruence. }
    rewrite decide_True by done. right. by rewrite Hst.
  - rewrite decide_False by (by intros [? _]). by left.
Qed.

Lemma hold_release_roundtrip_witness :
  ∃ s1 s2,
    EventHandler.LockSeat 5 "1" "S002" example_store = (200, None, s1)
    ∧ EventHandler.UnlockSeat 6 "1" "S002" s1 = (200, s2)
    ∧ Ticket.Status <$> tickets s2 = Ticket.Status <$> tickets example_store.
Proof.
  eexists _, _. split; [reflexivity|].
  destruct (hold_release_roundtrip 5 6 "1" "S002" example_store _
              ltac:(by_computation) eq_refl) as (s2 & H1 & _).
  split; [reflexivity|reflexivity].
Defined.
